(** * Shrine scraper: extraction and enrichment pipeline

    A shallow embedding of [scripts/scrape-shrines.py] (link discovery, field
    extraction, geocoding, the main loop), of [scripts/info-grip.py] (the scan
    of the page text and the de-duplication) and of the lookup loop of
    [scripts/geo_conv.py], with the properties of the pipeline stated over
    it.

    Python [str] values are lists of Unicode code points.  The regular
    expressions of the scripts are kept as syntax trees and run by a
    backtracking matcher that tries alternatives in the order of Python's
    [re] module (leftmost start first, greedy repetition longest first, lazy
    repetition shortest first). *)

From Stdlib Require Import NArith ZArith Ascii String List Sorted SpecFloat.
From stdpp Require Import base option list gmap strings sorting fin_maps.

Set Warnings "-register-all".

(** ** Python strings *)

Module PyStr.
Local Open Scope N_scope.

(** A [str] is a sequence of code points. *)
Definition pystr : Type := list N.

(** Decoding of the UTF-8 bytes of a literal of this file into code points,
    so that patterns and labels are written as in the source. *)
Fixpoint utf8 (bs : list N) : pystr :=
  match bs with
  | [] => []
  | b :: r =>
    if b <? 128 then b :: utf8 r
    else if b <? 224 then
      match r with
      | b1 :: r1 => ((b - 192) * 64 + (b1 - 128)) :: utf8 r1
      | _ => []
      end
    else if b <? 240 then
      match r with
      | b1 :: b2 :: r2 =>
        ((b - 224) * 4096 + (b1 - 128) * 64 + (b2 - 128)) :: utf8 r2
      | _ => []
      end
    else
      match r with
      | b1 :: b2 :: b3 :: r3 =>
        ((b - 240) * 262144 + (b1 - 128) * 4096 + (b2 - 128) * 64 + (b3 - 128))
          :: utf8 r3
      | _ => []
      end
  end.

Definition py (s : string) : pystr :=
  utf8 (map N_of_ascii (list_ascii_of_string s)).

(** [str.isspace] of one character, which is also the class [\s] of [re] on
    [str] patterns. *)
Definition isspace (c : N) : bool :=
  ((9 <=? c) && (c <=? 13)) || ((28 <=? c) && (c <=? 32))
  || (c =? 133) || (c =? 160) || (c =? 5760)
  || ((8192 <=? c) && (c <=? 8202))
  || (c =? 8232) || (c =? 8233) || (c =? 8239) || (c =? 8287) || (c =? 12288).

(** The decimal digits of Unicode 14 (category Nd), the class [\d] of [re] on
    [str] patterns, as inclusive ranges. *)
Definition decimal_ranges : list (N * N) :=
  [ (48, 57); (1632, 1641); (1776, 1785); (1984, 1993); (2406, 2415);
    (2534, 2543); (2662, 2671); (2790, 2799); (2918, 2927); (3046, 3055);
    (3174, 3183); (3302, 3311); (3430, 3439); (3558, 3567); (3664, 3673);
    (3792, 3801); (3872, 3881); (4160, 4169); (4240, 4249); (6112, 6121);
    (6160, 6169); (6470, 6479); (6608, 6617); (6784, 6793); (6800, 6809);
    (6992, 7001); (7088, 7097); (7232, 7241); (7248, 7257); (42528, 42537);
    (43216, 43225); (43264, 43273); (43472, 43481); (43504, 43513);
    (43600, 43609); (44016, 44025); (65296, 65305); (66720, 66729);
    (68912, 68921); (69734, 69743); (69872, 69881); (69942, 69951);
    (70096, 70105); (70384, 70393); (70736, 70745); (70864, 70873);
    (71248, 71257); (71360, 71369); (71472, 71481); (71904, 71913);
    (72016, 72025); (72784, 72793); (73040, 73049); (73120, 73129);
    (92768, 92777); (92864, 92873); (93008, 93017); (120782, 120831);
    (123200, 123209); (123632, 123641); (125264, 125273); (130032, 130041) ].

Definition isdecimal (c : N) : bool :=
  existsb (fun r => (fst r <=? c) && (c <=? snd r)) decimal_ranges.

(** [s.strip()]: whitespace removed at both ends. *)
Fixpoint lstrip (s : pystr) : pystr :=
  match s with
  | c :: s' => if isspace c then lstrip s' else s
  | [] => []
  end.

Definition rstrip (s : pystr) : pystr := reverse (lstrip (reverse s)).

Definition strip (s : pystr) : pystr := rstrip (lstrip s).

(** [needle in s] on strings. *)
Fixpoint starts_with (p s : pystr) : bool :=
  match p, s with
  | [], _ => true
  | a :: p', b :: s' => (a =? b) && starts_with p' s'
  | _ :: _, [] => false
  end.

Fixpoint contains (needle s : pystr) : bool :=
  starts_with needle s ||
  match s with
  | [] => false
  | _ :: s' => contains needle s'
  end.

(** [s.split(sep)] for a one-character separator. *)
Fixpoint split_on (sep : N) (s : pystr) : list pystr :=
  match s with
  | [] => [[]]
  | c :: s' =>
    if c =? sep then [] :: split_on sep s'
    else match split_on sep s' with
         | w :: ws => (c :: w) :: ws
         | [] => [[c]]
         end
  end.

(** Comparison of strings as [sorted] does it: code point by code point. *)
Fixpoint str_leb (a b : pystr) : bool :=
  match a, b with
  | [], _ => true
  | _ :: _, [] => false
  | x :: a', y :: b' => (x <? y) || ((x =? y) && str_leb a' b')
  end.

End PyStr.
Export PyStr.

(** ** Regular expressions of the [re] module *)

Module Re.
Local Open Scope N_scope.

(** The constructs the scripts use.  Every repetition in the source patterns
    ranges over a single character class, so repetition is given on classes;
    the only capture group is group 1. *)
Inductive regex : Type :=
| Eps
| Bol                                   (* ^ *)
| Cls (p : N -> bool)                   (* one character of a class *)
| Cat (r1 r2 : regex)
| Opt (r : regex)                       (* r?, greedy *)
| Rep (greedy : bool) (p : N -> bool)   (* p* when greedy, p*? when lazy *)
| Grp (r : regex).                      (* ( r ), group 1 *)

Definition chr (c : N) : N -> bool := fun x => x =? c.
Definition notchr (c : N) : N -> bool := fun x => negb (x =? c).
Definition dot : N -> bool := notchr 10.          (* . without DOTALL *)
Definition dotall : N -> bool := fun _ => true.   (* . under re.DOTALL *)
Definition one_of (cs : pystr) : N -> bool := fun x => existsb (N.eqb x) cs.

(** A literal string. *)
Fixpoint lit_cps (s : pystr) : regex :=
  match s with
  | [] => Eps
  | c :: s' => Cat (Cls (chr c)) (lit_cps s')
  end.
Definition lit (s : string) : regex := lit_cps (py s).

(** [p+] and [p+?]. *)
Definition plus (greedy : bool) (p : N -> bool) : regex :=
  Cat (Cls p) (Rep greedy p).

(** [r{n}]. *)
Fixpoint times (n : nat) (r : regex) : regex :=
  match n with
  | O => Eps
  | S n' => Cat r (times n' r)
  end.

Fixpoint seq (rs : list regex) : regex :=
  match rs with
  | [] => Eps
  | [r] => r
  | r :: rs' => Cat r (seq rs')
  end.

Section Matcher.
Context {R : Type}.

(** The loop of a repetition: [k] is what follows it in the pattern. *)
Fixpoint rep_loop (greedy : bool) (p : N -> bool)
    (k : nat -> pystr -> option R) (pos : nat) (s : pystr) : option R :=
  match s with
  | c :: s' =>
    if p c then
      if greedy then
        match rep_loop greedy p k (S pos) s' with
        | Some x => Some x
        | None => k pos s
        end
      else
        match k pos s with
        | Some x => Some x
        | None => rep_loop greedy p k (S pos) s'
        end
    else k pos s
  | [] => k pos s
  end.

(** [bt r pos s g k]: match [r] at offset [pos], where [s] is the rest of
    the subject from there, [g] the capture made so far and [k] the rest of
    the pattern.  The first alternative that lets [k] succeed wins. *)
Fixpoint bt (r : regex) (pos : nat) (s : pystr) (g : option pystr)
    (k : nat -> pystr -> option pystr -> option R) : option R :=
  match r with
  | Eps => k pos s g
  | Bol => if Nat.eqb pos 0 then k pos s g else None
  | Cls p =>
    match s with
    | c :: s' => if p c then k (S pos) s' g else None
    | [] => None
    end
  | Cat r1 r2 => bt r1 pos s g (fun pos' s' g' => bt r2 pos' s' g' k)
  | Opt r1 =>
    match bt r1 pos s g k with
    | Some x => Some x
    | None => k pos s g
    end
  | Rep greedy p => rep_loop greedy p (fun pos' s' => k pos' s' g) pos s
  | Grp r1 =>
    bt r1 pos s g (fun pos' s' _ => k pos' s' (Some (take (pos' - pos) s)))
  end.
End Matcher.

(** A match: the offset after its last character and group 1. *)
Definition accept (pos : nat) (_ : pystr) (g : option pystr)
  : option (nat * option pystr) := Some (pos, g).

Definition match_at (r : regex) (pos : nat) (s : pystr)
  : option (nat * option pystr) := bt r pos s None accept.

(** [re.match(r, s)]: group 1 of a match at the start of [s]. *)
Definition re_match (r : regex) (s : pystr) : option (option pystr) :=
  snd <$> match_at r 0 s.

(** [re.search(r, s)]: the leftmost match, as (start, end, group 1). *)
Fixpoint search_from (r : regex) (pos : nat) (s : pystr)
  : option (nat * nat * option pystr) :=
  match match_at r pos s with
  | Some (e, g) => Some (pos, e, g)
  | None =>
    match s with
    | [] => None
    | _ :: s' => search_from r (S pos) s'
    end
  end.

Definition re_search (r : regex) (s : pystr) : option (option pystr) :=
  (fun m => snd m) <$> search_from r 0 s.

Definition group1 (m : option (option pystr)) : option pystr :=
  match m with
  | Some (Some g) => Some g
  | _ => None
  end.

(** [m.group(1)] of a search; every pattern of the scripts has the group on
    every path. *)
Definition search_group (r : regex) (s : pystr) : option pystr :=
  group1 (re_search r s).

Definition match_group (r : regex) (s : pystr) : option pystr :=
  group1 (re_match r s).

(** [re.findall(r, s)] for a pattern with one group: group 1 of the
    non-overlapping matches, left to right.  The scan resumes where a match
    ended, one character further after an empty match. *)
Fixpoint findall_from (fuel : nat) (r : regex) (pos : nat) (s : pystr)
  : list pystr :=
  match fuel with
  | O => []
  | S n =>
    match match_at r pos s with
    | Some (e, g) =>
      default [] g ::
        (if Nat.ltb pos e then findall_from n r e (drop (e - pos) s)
         else match s with
              | [] => []
              | _ :: s' => findall_from n r (S pos) s'
              end)
    | None =>
      match s with
      | [] => []
      | _ :: s' => findall_from n r (S pos) s'
      end
    end
  end.

Definition re_findall (r : regex) (s : pystr) : list pystr :=
  findall_from (S (length s)) r 0 s.

(** [re.sub(r, repl, s)] for a replacement without back-references. *)
Fixpoint sub_from (fuel : nat) (r : regex) (repl : pystr) (pos : nat)
    (s : pystr) : pystr :=
  match fuel with
  | O => s
  | S n =>
    match match_at r pos s with
    | Some (e, _) =>
      repl ++
        (if Nat.ltb pos e then sub_from n r repl e (drop (e - pos) s)
         else match s with
              | [] => []
              | c :: s' => c :: sub_from n r repl (S pos) s'
              end)
    | None =>
      match s with
      | [] => []
      | c :: s' => c :: sub_from n r repl (S pos) s'
      end
    end
  end.

Definition re_sub (r : regex) (repl : pystr) (s : pystr) : pystr :=
  sub_from (S (length s)) r repl 0 s.

End Re.
Export Re.

(** ** Link discovery and field extraction ([scrape-shrines.py]) *)

Module Scrape.

(** The first character of a one-character literal. *)
Definition ch (s : string) : N := hd 0%N (py s).

Definition dquote : N := 34.

(** [r'href="(/alllist/[^"]+/[^"]+/)"'] *)
Definition link_pattern : regex :=
  seq [ lit "href="; Cls (chr dquote);
        Grp (seq [ lit "/alllist/"; plus true (notchr dquote); lit "/";
                   plus true (notchr dquote); lit "/" ]);
        Cls (chr dquote) ].

Definition image_exts : list pystr := [py ".jpg"; py ".png"; py ".gif"].

Definition str_le (a b : pystr) : Prop := str_leb a b.

#[global] Instance str_le_dec a b : Decision (str_le a b) := _.

(** [sorted(list(set(l)))] *)
Definition sorted_set (l : list pystr) : list pystr :=
  merge_sort str_le (remove_dups l).

(** [extract_links(html)] *)
Definition extract_links (html : pystr) : list pystr :=
  let links := re_findall link_pattern html in
  let valid_links :=
    filter (fun link => ¬ existsb (fun ext => contains ext link) image_exts)
           links in
  sorted_set valid_links.

(** The rule shared by the label/value fields:
    [r'<td>LABEL</td>\s*<td[^>]*>([^<]+)'] *)
Definition cell_pattern (label : string) : regex :=
  seq [ lit "<td>"; lit label; lit "</td>"; Rep true isspace;
        lit "<td"; Rep true (notchr (ch ">")); lit ">";
        Grp (plus true (notchr (ch "<"))) ].

(** [r'<td>神社名</td>\s*<td[^>]*>(?:<a[^>]*>)?([^<]+)'] *)
Definition name_pattern : regex :=
  seq [ lit "<td>神社名</td>"; Rep true isspace;
        lit "<td"; Rep true (notchr (ch ">")); lit ">";
        Opt (seq [ lit "<a"; Rep true (notchr (ch ">")); lit ">" ]);
        Grp (plus true (notchr (ch "<"))) ].

(** [r'<td>所在地</td>\s*<td[^>]*>(.*?)</td>'] with [re.DOTALL] *)
Definition address_pattern : regex :=
  seq [ lit "<td>所在地</td>"; Rep true isspace;
        lit "<td"; Rep true (notchr (ch ">")); lit ">";
        Grp (Rep false dotall); lit "</td>" ].

(** [r'<[^>]+>'] *)
Definition tag_pattern : regex :=
  seq [ lit "<"; plus true (notchr (ch ">")); lit ">" ].

(** [r'〒\d{3}-\d{4}\s*'] *)
Definition postal_strip_pattern : regex :=
  seq [ lit "〒"; times 3 (Cls isdecimal); lit "-"; times 4 (Cls isdecimal);
        Rep true isspace ].

(** [r'\s+'] *)
Definition spaces_pattern : regex := plus true isspace.

(** [r'〒(\d{3}-\d{4})'] *)
Definition zip_pattern : regex :=
  seq [ lit "〒";
        Grp (seq [ times 3 (Cls isdecimal); lit "-";
                   times 4 (Cls isdecimal) ]) ].

Definition pref_suffixes : pystr := py "都道府県".

(** [r'^(.+?[都道府県])'] *)
Definition prefecture_pattern : regex :=
  seq [ Bol; Grp (seq [ plus false dot; Cls (one_of pref_suffixes) ]) ].

(** The three rewriting steps applied to the address cell. *)
Definition clean_address (cell : pystr) : pystr :=
  let address := re_sub tag_pattern (py " ") cell in
  let address := re_sub postal_strip_pattern [] address in
  strip (re_sub spaces_pattern (py " ") address).

(** [info[key] = f(group 1)] when the pattern is found. *)
Definition set_found (key : string) (found : option pystr)
    (info : gmap string pystr) : gmap string pystr :=
  match found with
  | Some v => <[key := v]> info
  | None => info
  end.

Definition stripped_cell (r : regex) (html : pystr) : option pystr :=
  strip <$> search_group r html.

(** [extract_shrine_info(html)], the rules that read the markup ... *)
Definition labelled_fields (html : pystr) : gmap string pystr :=
  let info : gmap string pystr := ∅ in
  let info := set_found "name" (stripped_cell name_pattern html) info in
  let info :=
    set_found "reading" (stripped_cell (cell_pattern "神社名(読み方)") html) info in
  let info :=
    set_found "province" (stripped_cell (cell_pattern "旧国名") html) info in
  let info := set_found "deity" (stripped_cell (cell_pattern "祭神") html) info in
  let info :=
    set_found "virtue" (stripped_cell (cell_pattern "御神徳") html) info in
  let info :=
    set_found "address" (clean_address <$> search_group address_pattern html)
              info in
  let info := set_found "zip" (search_group zip_pattern html) info in
  set_found "tel" (stripped_cell (cell_pattern "電話番号") html) info.

(** ... and the prefecture taken from the address. *)
Definition extract_shrine_info (html : pystr) : gmap string pystr :=
  let info := labelled_fields html in
  match info !! "address" with
  | Some address =>
    set_found "prefecture" (match_group prefecture_pattern address)
              info
  | None => info
  end.

End Scrape.

(** ** Python values, exceptions and the outside world *)

Module Py.

(** Floats are IEEE 754 binary64 values, kept as their specification. *)
Definition pyfloat : Type := SpecFloat.spec_float.

(** The values [json.loads] can build. *)
Inductive pyval : Type :=
| VNone
| VBool (b : bool)
| VInt (z : Z)
| VFloat (f : pyfloat)
| VStr (s : pystr)
| VList (l : list pyval)
| VDict (d : list (pystr * pyval)).

Inductive exn : Type :=
| JSONDecodeError
| KeyError
| IndexError
| TypeError
| ValueError
| OverflowError
| RecursionError
| UnicodeDecodeError
| OSError.

#[global] Instance exn_eq_dec : EqDecision exn.
Proof. solve_decision. Defined.

(** [subprocess.CompletedProcess]: the fields the scripts can see. *)
Record CompletedProcess : Type := Completed {
  returncode : Z;
  stdout : pystr
}.

(** What lies outside the scripts: the [curl] child process and the library
    functions whose code is not part of the repository. *)
Record Env : Type := {
  (** [subprocess.run(argv, capture_output=True, text=True)] started at a
      given time, in milliseconds since the start of the run *)
  subprocess_run : N -> list pystr -> exn + CompletedProcess;
  (** milliseconds that call takes *)
  elapsed : N -> list pystr -> N;
  (** [json.loads] *)
  json_loads : pystr -> exn + pyval;
  (** [float(s)] on a string, [None] for [ValueError] *)
  float_of_str : pystr -> option pyfloat;
  (** [float(n)] on an integer, [None] for [OverflowError] *)
  float_of_int : Z -> option pyfloat;
  (** [urllib.parse.quote] and [urllib.parse.unquote] *)
  quote : pystr -> pystr;
  unquote : pystr -> pystr
}.

Definition float_is_zero (f : pyfloat) : bool :=
  match f with
  | SpecFloat.S754_zero _ => true
  | _ => false
  end.

(** Truth value of an object. *)
Definition truthy (v : pyval) : bool :=
  match v with
  | VNone => false
  | VBool b => b
  | VInt z => negb (z =? 0)%Z
  | VFloat f => negb (float_is_zero f)
  | VStr s => negb (Nat.eqb (length s) 0)
  | VList l => negb (Nat.eqb (length l) 0)
  | VDict d => negb (Nat.eqb (length d) 0)
  end.

(** [len(v)] *)
Definition py_len (v : pyval) : exn + nat :=
  match v with
  | VStr s => inr (length s)
  | VList l => inr (length l)
  | VDict d => inr (length d)
  | _ => inl TypeError
  end.

Fixpoint dict_get (d : list (pystr * pyval)) (key : pystr) : option pyval :=
  match d with
  | [] => None
  | (k, v) :: d' => if decide (k = key) then Some v else dict_get d' key
  end.

(** [v[0]]; the keys of a dictionary read from JSON are strings, so the
    integer key is missing from it. *)
Definition index0 (v : pyval) : exn + pyval :=
  match v with
  | VList (x :: _) => inr x
  | VList [] => inl IndexError
  | VStr (c :: _) => inr (VStr [c])
  | VStr [] => inl IndexError
  | VDict _ => inl KeyError
  | _ => inl TypeError
  end.

(** [v[key]] for a string key. *)
Definition subscript (v : pyval) (key : pystr) : exn + pyval :=
  match v with
  | VDict d =>
    match dict_get d key with
    | Some x => inr x
    | None => inl KeyError
    end
  | _ => inl TypeError
  end.

(** [float(v)] *)
Definition py_float (env : Env) (v : pyval) : exn + pyfloat :=
  match v with
  | VFloat f => inr f
  | VInt z =>
    match float_of_int env z with
    | Some f => inr f
    | None => inl OverflowError
    end
  | VBool b =>
    match float_of_int env (if b then 1 else 0)%Z with
    | Some f => inr f
    | None => inl OverflowError
    end
  | VStr s =>
    match float_of_str env s with
    | Some f => inr f
    | None => inl ValueError
    end
  | _ => inl TypeError
  end.

End Py.
Export Py.

(** ** The pipeline: geocoding and the main loop ([scrape-shrines.py]) *)

Module Pipeline.
Import Scrape.

(** State of a run.  [now] is the clock in milliseconds and [geo_calls] the
    times at which a geocoding request was started; both are ghost state that
    the script does not read.  [shrines] and [shrine_id] are the variables
    of [main]. *)
Record St : Type := {
  now : N;
  geo_calls : list N;
  shrines : list (gmap string pyval);
  shrine_id : Z
}.

(** Computations that read the clock, change the state and may raise. *)
Definition M (A : Type) : Type := St -> (exn + A) * St.

Definition ret {A} (a : A) : M A := fun st => (inr a, st).

Definition raise {A} (e : exn) : M A := fun st => (inl e, st).

Definition bind {A B} (m : M A) (f : A -> M B) : M B :=
  fun st =>
    match m st with
    | (inr a, st') => f a st'
    | (inl e, st') => (inl e, st')
    end.

Notation "'let*' x ':=' m 'in' k" :=
  (bind m (fun x => k))
  (at level 10, x pattern, m at level 100, k at level 200).
Notation "m ';;' k" :=
  (bind m (fun _ => k)) (at level 100, k at level 200, right associativity).

(** Lifting of an outcome of a pure library call. *)
Definition lift {A} (r : exn + A) : M A :=
  match r with
  | inr a => ret a
  | inl e => raise e
  end.

(** [try: body / except Exception: pass] *)
Definition try_except (body : M unit) : M unit :=
  fun st =>
    match body st with
    | (inl _, st') => (inr tt, st')
    | r => r
    end.

(** [time.sleep(ms / 1000)] *)
Definition sleep (ms : N) : M unit :=
  fun st =>
    (inr tt, {| now := now st + ms; geo_calls := geo_calls st;
                shrines := shrines st; shrine_id := shrine_id st |}).

(** [subprocess.run(argv, capture_output=True, text=True)] *)
Definition run (env : Env) (argv : list pystr) : M CompletedProcess :=
  fun st =>
    (subprocess_run env (now st) argv,
     {| now := now st + elapsed env (now st) argv; geo_calls := geo_calls st;
        shrines := shrines st; shrine_id := shrine_id st |}).

(** Ghost step: note the time at which a geocoding request starts. *)
Definition note_geocode_call : M unit :=
  fun st =>
    (inr tt, {| now := now st; geo_calls := geo_calls st ++ [now st];
                shrines := shrines st; shrine_id := shrine_id st |}).

Definition BASE_URL : pystr := py "http://ichinomiya-junpai.jp".

Definition fetch_argv (url : pystr) : list pystr :=
  [py "curl"; py "-s"; py "-L"; py "--max-time"; py "30"; url; py "-H";
   py "User-Agent: Mozilla/5.0"].

(** [fetch(url)]: the exit status of [curl] is not looked at. *)
Definition fetch (env : Env) (url : pystr) : M pystr :=
  let* result := run env (fetch_argv url) in
  ret (stdout result).

(** [extract_region(link)] *)
Definition extract_region (env : Env) (link : pystr) : pystr :=
  let decoded := unquote env link in
  let parts := split_on (ch "/") decoded in
  if Nat.leb 3 (length parts) then nth 2 parts [] else [].

Definition geocode_url (env : Env) (name : pystr) : pystr :=
  let query := name ++ py " Japan" in
  let encoded := quote env query in
  py "https://nominatim.openstreetmap.org/search?format=json&q=" ++ encoded
    ++ py "&limit=1".

Definition geocode_argv (url : pystr) : list pystr :=
  [py "curl"; py "-s"; py "-L"; py "--max-time"; py "10"; url; py "-H";
   py "User-Agent: ShrineMapScraper/1.0"].

(** The body of the [try] of [geocode_shrine]: [None] stands for falling
    through the [if]. *)
Definition geocode_try (env : Env) (out : pystr)
  : exn + option (pyfloat * pyfloat) :=
  match json_loads env out with
  | inl e => inl e
  | inr data =>
    if truthy data then
      match py_len data with
      | inl e => inl e
      | inr n =>
        if Nat.ltb 0 n then
          match index0 data with
          | inl e => inl e
          | inr first =>
            match subscript first (py "lat") with
            | inl e => inl e
            | inr lat =>
              match py_float env lat with
              | inl e => inl e
              | inr flat =>
                match index0 data with
                | inl e => inl e
                | inr first' =>
                  match subscript first' (py "lon") with
                  | inl e => inl e
                  | inr lon =>
                    match py_float env lon with
                    | inl e => inl e
                    | inr flon => inr (Some (flat, flon))
                    end
                  end
                end
              end
            end
          end
        else inr None
      end
    else inr None
  end.

(** [except (json.JSONDecodeError, KeyError, IndexError): pass] *)
Definition geocode_caught (e : exn) : bool :=
  match e with
  | JSONDecodeError | KeyError | IndexError => true
  | _ => false
  end.

(** What [geocode_shrine] makes of the output of [curl]: a pair of
    coordinates, [(None, None)] or an exception. *)
Definition geocode_result (env : Env) (out : pystr)
  : exn + option (pyfloat * pyfloat) :=
  match geocode_try env out with
  | inr r => inr r
  | inl e => if geocode_caught e then inr None else inl e
  end.

(** [geocode_shrine(name)] *)
Definition geocode_shrine (env : Env) (name : pystr)
  : M (option (pyfloat * pyfloat)) :=
  if Nat.eqb (length name) 0 then ret None
  else
    let url := geocode_url env name in
    note_geocode_call;;
    let* result := run env (geocode_argv url) in
    lift (geocode_result env (stdout result)).

(** [info.get(key, '')] *)
Definition get_or_empty (info : gmap string pystr) (key : string) : pystr :=
  default [] (info !! key).

Definition coord (c : option pyfloat) : pyval :=
  match c with
  | Some f => VFloat f
  | None => VNone
  end.

(** The dictionary literal of [main]. *)
Definition make_shrine (env : Env) (id : Z) (link : pystr)
    (info : gmap string pystr) (latlng : option (pyfloat * pyfloat))
  : gmap string pyval :=
  <["id" := VInt id]> (
  <["name" := VStr (get_or_empty info "name")]> (
  <["region" := VStr (extract_region env link)]> (
  <["reading" := VStr (get_or_empty info "reading")]> (
  <["province" := VStr (get_or_empty info "province")]> (
  <["prefecture" := VStr (get_or_empty info "prefecture")]> (
  <["address" := VStr (get_or_empty info "address")]> (
  <["zip" := VStr (get_or_empty info "zip")]> (
  <["tel" := VStr (get_or_empty info "tel")]> (
  <["deity" := VStr (get_or_empty info "deity")]> (
  <["virtue" := VStr (get_or_empty info "virtue")]> (
  <["lat" := coord (fst <$> latlng)]> (
  <["lng" := coord (snd <$> latlng)]> ∅)))))))))))).

(** [shrines.append(shrine); shrine_id += 1] *)
Definition append_shrine (mk : Z -> gmap string pyval) : M unit :=
  fun st =>
    (inr tt, {| now := now st; geo_calls := geo_calls st;
                shrines := shrines st ++ [mk (shrine_id st)];
                shrine_id := shrine_id st + 1 |}).

(** [if info.get('name')]: the key is there and its string is not empty. *)
Definition has_name (info : gmap string pystr) : bool :=
  match info !! "name" with
  | Some name => negb (Nat.eqb (length name) 0)
  | None => false
  end.

(** The body of the [try] in the loop of [main]. *)
Definition visit (env : Env) (link : pystr) : M unit :=
  let url := BASE_URL ++ link in
  let* html := fetch env url in
  let info := extract_shrine_info html in
  (if has_name info then
     let* latlng := geocode_shrine env (get_or_empty info "name") in
     sleep 1000;;
     append_shrine (fun id => make_shrine env id link info latlng)
   else ret tt);;
  sleep 500.

(** The loop of [main] over the links. *)
Fixpoint visit_all (env : Env) (links : list pystr) : M unit :=
  match links with
  | [] => ret tt
  | link :: rest => try_except (visit env link);; visit_all env rest
  end.

Definition initial : St :=
  {| now := 0; geo_calls := []; shrines := []; shrine_id := 1 |}.

Definition root_url : pystr := BASE_URL ++ py "/alllist/".

(** [main()] up to the point where the list is handed to [json.dump]. *)
Definition main (env : Env) : M (list (gmap string pyval)) :=
  let* main_page := fetch env root_url in
  let links := extract_links main_page in
  visit_all env links;;
  fun st => (inr (shrines st), st).

Definition run_main (env : Env) : (exn + list (gmap string pyval)) * St :=
  main env initial.

End Pipeline.

(** ** De-duplication ([info-grip.py]) *)

Module InfoGrip.

(** A row of the data frame: the columns [神社名] and [所在地]. *)
Definition row : Type := (pystr * pystr)%type.

(** [DataFrame.drop_duplicates()] with its defaults (all columns,
    [keep='first']): a row goes when an equal row was met before it. *)
Fixpoint drop_duplicates_from (seen rows : list row) : list row :=
  match rows with
  | [] => []
  | r :: rest =>
    if decide (r ∈ seen) then drop_duplicates_from seen rest
    else r :: drop_duplicates_from (r :: seen) rest
  end.

Definition drop_duplicates (rows : list row) : list row :=
  drop_duplicates_from [] rows.

(** The end of [scrape_shrines_v4]: the frame written to the CSV file, if
    any row was found. *)
Definition saved_rows (shrine_list : list row) : option (list row) :=
  match shrine_list with
  | [] => None
  | _ => Some (drop_duplicates shrine_list)
  end.

End InfoGrip.

(** ** The text scan of [info-grip.py] *)

Module TextScan.
Import InfoGrip.

(** [s.split(sep)] for a separator string that is not empty: [skip] counts
    the characters of a separator still to pass; the head of the result is
    the piece being read. *)
Fixpoint split_scan (sep : pystr) (skip : nat) (s : pystr) : list pystr :=
  match s with
  | [] => [[]]
  | c :: s' =>
    match skip with
    | S k => split_scan sep k s'
    | O =>
      if starts_with sep s then [] :: split_scan sep (length sep - 1) s'
      else match split_scan sep 0 s' with
           | w :: ws => (c :: w) :: ws
           | [] => [[c]]
           end
    end
  end.

Definition split_str (sep s : pystr) : list pystr := split_scan sep 0 s.

(** [s.replace(old, new)]: the occurrences of a literal, left to right, as
    [re.sub] finds them. *)
Definition str_replace (old new s : pystr) : pystr :=
  re_sub (lit_cps old) new s.

(** [r'tt\s*'] *)
Definition tt_pattern : regex := seq [ lit "tt"; Rep true isspace ].

(** [r'\(\d+\)\s*'] *)
Definition number_pattern : regex :=
  seq [ lit "("; plus true isdecimal; lit ")"; Rep true isspace ].

Definition address_label : pystr := py "所在地：".
Definition station_label : pystr := py "最寄り駅".

(** [[line.strip() for line in text.split('\n') if line.strip()]] *)
Definition lines_of (text : pystr) : list pystr :=
  strip <$> filter (fun line => strip line ≠ []) (split_on 10 text).

(** [lines[i-1] if i > 0 else other] *)
Definition line_before (lines : list pystr) (i : nat) (other : pystr)
  : option pystr :=
  if Nat.ltb 0 i then lines !! (i - 1) else Some other.

(** The body of the loop for the line at index [i]: the row it appends, if
    any.  A failed subscript raises [IndexError], which the bare [except]
    turns into [continue]. *)
Definition scan_line (lines : list pystr) (i : nat) (line : pystr)
  : option row :=
  if contains address_label line then
    after ← split_str address_label line !! 1;
    before_station ← split_str station_label after !! 0;
    let address := strip before_station in
    before ← split_str address_label line !! 0;
    let name_part := strip before in
    name_part ←
      (if bool_decide (name_part = []) || bool_decide (name_part = py "tt")
       then line_before lines i []
       else Some name_part);
    let clean_name := re_sub tt_pattern [] name_part in
    let clean_name := re_sub number_pattern [] clean_name in
    clean_name ←
      (if contains (py "・") clean_name && Nat.ltb (length clean_name) 10
       then line_before lines i clean_name
       else Some clean_name);
    let clean_name := strip (str_replace (py "tt") [] clean_name) in
    if negb (Nat.eqb (length clean_name) 0)
       && negb (Nat.eqb (length address) 0)
       && Nat.ltb (length clean_name) 30
    then Some (clean_name, address)
    else None
  else None.

(** [shrine_list] after the loop over [enumerate(lines)]. *)
Definition shrine_list (lines : list pystr) : list row :=
  omap id (imap (scan_line lines) lines).

(** [scrape_shrines_v4()] from the text that [get_text] returned: the rows
    written to the CSV file, [None] when nothing is written. *)
Definition scrape_shrines_v4 (text : pystr) : option (list row) :=
  saved_rows (shrine_list (lines_of text)).

End TextScan.

(** ** Coordinate lookup ([geo_conv.py]) *)

Module GeoConv.
Import InfoGrip.

(** The attributes of a [geopy] location that the script reads. *)
Record Location : Type := {
  latitude : pyfloat;
  longitude : pyfloat
}.

(** The rate-limited [geocode] callable: its answer to a query, given the
    number of calls made before; [None] is its "nothing found". *)
Definition Geocoder : Type := nat -> pystr -> exn + option Location.

(** The [try] block for one row: the location kept and the number of calls
    made.  The bare [except] keeps [location] as it was, which is [None]
    whenever a call raised. *)
Definition locate (geocode : Geocoder) (calls : nat) (r : row)
  : option Location * nat :=
  let query := snd r ++ py " " ++ fst r in
  match geocode calls query with
  | inl _ => (None, S calls)
  | inr (Some location) => (Some location, S calls)
  | inr None =>
    match geocode (S calls) (fst r) with
    | inl _ => (None, S (S calls))
    | inr location => (location, S (S calls))
    end
  end.

(** The loop over the rows with its two lists. *)
Fixpoint lookup_rows (geocode : Geocoder) (rows : list row) (calls : nat)
    (lats lons : list (option pyfloat))
  : list (option pyfloat) * list (option pyfloat) * nat :=
  match rows with
  | [] => (lats, lons, calls)
  | r :: rest =>
    let (location, calls') := locate geocode calls r in
    lookup_rows geocode rest calls'
      (lats ++ [latitude <$> location]) (lons ++ [longitude <$> location])
  end.

(** [get_gps_coordinates()] from the rows read from the CSV file: the
    columns [latitude] and [longitude], and the number of calls made. *)
Definition get_gps_coordinates (geocode : Geocoder) (rows : list row)
  : list (option pyfloat) * list (option pyfloat) * nat :=
  lookup_rows geocode rows 0 [] [].

End GeoConv.

(** ** Concrete environments for the examples *)

Module Demo.
Import Scrape Pipeline.

(** A literal in which the apostrophes stand for double quotes. *)
Definition pyq (s : string) : pystr :=
  map (fun c => if (c =? 39)%N then 34%N else c) (py s).

(** Stand-ins for the library functions, right on the texts used below. *)
Definition demo_json_loads (out : pystr) : exn + pyval :=
  if decide (out = py "[]") then inr (VList [])
  else if decide (out = pyq "[{'lat': null, 'lon': null}]") then
    inr (VList [VDict [(py "lat", VNone); (py "lon", VNone)]])
  else if decide (out = pyq "[{'lat': '35.5', 'lon': '139.75'}]") then
    inr (VList [VDict [(py "lat", VStr (py "35.5"));
                       (py "lon", VStr (py "139.75"))]])
  else inl JSONDecodeError.

Definition demo_float_of_str (s : pystr) : option pyfloat :=
  if decide (s = py "35.5") then
    Some (S754_finite false 4996180836614144 (-47))
  else if decide (s = py "139.75") then
    Some (S754_finite false 4917015999414272 (-45))
  else None.

Definition demo_float_of_int (z : Z) : option pyfloat :=
  if (z =? 0)%Z then Some (S754_zero false)
  else if (Z.abs z <? 2 ^ 53)%Z then
    Some (S754_finite (z <? 0)%Z (Z.to_pos (Z.abs z)) 0)
  else None.

Definition demo_quote (s : pystr) : pystr :=
  flat_map (fun c => if (c =? 32)%N then py "%20" else [c]) s.

(** [curl] answers from a table of pages; for any other address it fails
    with exit status 6 and prints nothing.  Every call takes 50 ms. *)
Definition table_env (pages : list (pystr * pystr)) : Env :=
  {| subprocess_run _ argv :=
       match argv !! 5%nat with
       | Some url =>
         match list_find (fun page => fst page = url) pages with
         | Some (_, page) => inr (Completed 0 (snd page))
         | None => inr (Completed 6 [])
         end
       | None => inl OSError
       end;
     elapsed _ _ := 50%N;
     json_loads := demo_json_loads;
     float_of_str := demo_float_of_str;
     float_of_int := demo_float_of_int;
     quote := demo_quote;
     unquote := fun s => s |}.

Definition site (path : string) : pystr := BASE_URL ++ py path.

(** The listing page: two detail pages, the first one linked twice. *)
Definition listing : pystr :=
  pyq "<ul><li><a href='/alllist/kanto/a/'>A</a></li>"
  ++ pyq "<li><a href='/alllist/kanto/b/'>B</a></li>"
  ++ pyq "<li><a href='/alllist/kanto/a/'>A</a></li></ul>".

Definition page_a : pystr :=
  py "<table><tr><td>神社名</td><td>A</td></tr>"
  ++ py "<tr><td>所在地</td><td>〒100-0001　東京都千代田区</td></tr></table>".

Definition page_b : pystr :=
  py "<table><tr><td>神社名</td><td>B</td></tr></table>".

Definition page_unnamed : pystr :=
  py "<table><tr><td>祭神</td><td>X</td></tr></table>".

Definition nominatim (name : string) : pystr :=
  py "https://nominatim.openstreetmap.org/search?format=json&q="
  ++ demo_quote (py name ++ py " Japan") ++ py "&limit=1".

Definition found : pystr := pyq "[{'lat': '35.5', 'lon': '139.75'}]".

(** A listing page with a link one level deeper than the detail pages. *)
Definition deep_listing : pystr := pyq "<a href='/alllist/a/b/c/'>x</a>".

(** A detail page whose postal code comes without the postal mark. *)
Definition page_plain_code : pystr :=
  py "<td>所在地</td><td>100-0001 Tokyo</td>".

(** A detail page whose name has two spaces inside. *)
Definition page_spaced_name : pystr := py "<td>神社名</td><td>A  B</td>".

(** A detail page whose address starts with the suffix character 府. *)
Definition page_fuchu : pystr := py "<td>所在地</td><td>府中市宮町3-1</td>".

(** A detail page whose address has 都 inside the name of a ward. *)
Definition page_yokohama : pystr := py "<td>所在地</td><td>横浜市都筑区</td>".

(** A detail page whose address has its prefecture after other words. *)
Definition page_osaka : pystr := py "<td>所在地</td><td>Osaka city 大阪府</td>".

(** The detail page of the example in the specification. *)
Definition page_example : pystr :=
  py "<td>神社名</td><td>A</td><td>所在地</td><td>〒100-0001　Tokyo</td>".

(** The record of page A in the run below. *)
Definition record_a : gmap string pyval :=
  make_shrine (table_env []) 1 (py "/alllist/kanto/a/")
    (extract_shrine_info page_a)
    (Some (S754_finite false 4996180836614144 (-47),
           S754_finite false 4917015999414272 (-45))).

(** The record of page B when it is the first one of the list. *)
Definition record_b : gmap string pyval :=
  make_shrine (table_env []) 1 (py "/alllist/kanto/b/")
    (extract_shrine_info page_b)
    (Some (S754_finite false 4996180836614144 (-47),
           S754_finite false 4917015999414272 (-45))).

(** A run in which everything answers as expected. *)
Definition env_ok : Env :=
  table_env [ (site "/alllist/", listing);
              (site "/alllist/kanto/a/", page_a);
              (site "/alllist/kanto/b/", page_unnamed);
              (nominatim "A", found) ].

(** An answer of the geocoding service with null coordinates. *)
Definition null_answer : pystr := pyq "[{'lat': null, 'lon': null}]".

(** A run in which the geocoding service gives that answer for the first
    page. *)
Definition env_null_answer : Env :=
  table_env [ (site "/alllist/", listing);
              (site "/alllist/kanto/a/", page_a);
              (site "/alllist/kanto/b/", page_b);
              (nominatim "A", null_answer);
              (nominatim "B", found) ].

(** A run in which the listing page has no links. *)
Definition env_empty_listing : Env :=
  table_env [ (site "/alllist/", py "<html><body></body></html>") ].

(** A run in which not even the listing page can be fetched. *)
Definition env_offline : Env := table_env [].

End Demo.

(** ** Vocabulary of the statements *)

Module Shape.
Import Scrape.

(** Length of the longest prefix of [s] made of characters of class [p]. *)
Fixpoint run (p : N -> bool) (s : pystr) : nat :=
  match s with
  | c :: s' => if p c then S (run p s') else 0
  | [] => 0
  end.

Definition starts_space (v : pystr) : bool :=
  match v with
  | c :: _ => isspace c
  | [] => false
  end.

Definition ends_space (v : pystr) : bool := starts_space (reverse v).

(** No whitespace at either end. *)
Definition trimmed (v : pystr) : bool :=
  negb (starts_space v) && negb (ends_space v).

(** Every whitespace character is one U+0020 with no whitespace after it. *)
Fixpoint single_spaced (v : pystr) : bool :=
  match v with
  | [] => true
  | c :: v' =>
    (if isspace c then (c =? 32)%N && negb (starts_space v') else true)
    && single_spaced v'
  end.

(** The strings a pattern can match, captures and preferences left aside. *)
Inductive lang : regex → pystr → Prop :=
| lang_eps : lang Eps []
| lang_bol : lang Bol []
| lang_cls p c : p c = true → lang (Cls p) [c]
| lang_cat r1 r2 w1 w2 : lang r1 w1 → lang r2 w2 → lang (Cat r1 r2) (w1 ++ w2)
| lang_opt_some r w : lang r w → lang (Opt r) w
| lang_opt_none r : lang (Opt r) []
| lang_rep greedy p w : Forall (λ c, p c = true) w → lang (Rep greedy p) w
| lang_grp r w : lang r w → lang (Grp r) w.

(** The postal mark and the hyphen of the postal patterns. *)
Definition postal_mark : N := Eval cbv in ch "〒".
Definition hyphen : N := Eval cbv in ch "-".

(** Three decimal digits, a hyphen, four decimal digits. *)
Definition postal_digits (z : pystr) : bool :=
  match z with
  | [d1; d2; d3; h; d4; d5; d6; d7] =>
    isdecimal d1 && isdecimal d2 && isdecimal d3 && (h =? hyphen)%N
    && isdecimal d4 && isdecimal d5 && isdecimal d6 && isdecimal d7
  | _ => false
  end.

(** What follows the lazy repetition in the prefecture pattern: one suffix
    character, which closes the group. *)
Definition after_stem (a : pystr) (pos : nat) (s : pystr)
  : option (nat * option pystr) :=
  match s with
  | d :: _ =>
    if one_of pref_suffixes d then Some (S pos, Some (take (S pos) a)) else None
  | [] => None
  end.

(** The path shape [/alllist/<category>/<item>/]: two non-empty segments
    after the section root and a trailing slash. *)
Definition two_segment_shape (link : pystr) : bool :=
  match split_on (ch "/") link with
  | [root; section; category; item; trailing] =>
    bool_decide (root = []) && bool_decide (section = py "alllist")
    && negb (bool_decide (category = [])) && negb (bool_decide (item = []))
    && bool_decide (trailing = [])
  | _ => false
  end.

End Shape.
Export Shape.

(** ** Vocabulary of the statements about a run *)

Module Trace.
Import Scrape Pipeline.

(** The value of [geocode_shrine(name)] called at time [t]. *)
Definition geocode_outcome (env : Env) (t : N) (name : pystr)
  : exn + option (pyfloat * pyfloat) :=
  if Nat.eqb (length name) 0 then inr None
  else
    match subprocess_run env t (geocode_argv (geocode_url env name)) with
    | inl e => inl e
    | inr result => geocode_result env (stdout result)
    end.

(** The time at which the fetch of [link] started in state [st] is over;
    a geocoding request for that page starts then. *)
Definition fetched_at (env : Env) (st : St) (link : pystr) : N :=
  (now st + elapsed env (now st) (fetch_argv (BASE_URL ++ link)))%N.

(** What one turn of the loop does to the list. *)
Inductive visited (env : Env) (link : pystr) (st st' : St) : Prop :=
| visit_fetch_raised e :
    subprocess_run env (now st) (fetch_argv (BASE_URL ++ link)) = inl e →
    shrines st' = shrines st → shrine_id st' = shrine_id st →
    visited env link st st'
| visit_unnamed cp :
    subprocess_run env (now st) (fetch_argv (BASE_URL ++ link)) = inr cp →
    has_name (extract_shrine_info (stdout cp)) = false →
    shrines st' = shrines st → shrine_id st' = shrine_id st →
    visited env link st st'
| visit_geocode_raised cp e :
    subprocess_run env (now st) (fetch_argv (BASE_URL ++ link)) = inr cp →
    has_name (extract_shrine_info (stdout cp)) = true →
    geocode_outcome env (fetched_at env st link)
      (get_or_empty (extract_shrine_info (stdout cp)) "name") = inl e →
    shrines st' = shrines st → shrine_id st' = shrine_id st →
    visited env link st st'
| visit_appended cp latlng :
    subprocess_run env (now st) (fetch_argv (BASE_URL ++ link)) = inr cp →
    has_name (extract_shrine_info (stdout cp)) = true →
    geocode_outcome env (fetched_at env st link)
      (get_or_empty (extract_shrine_info (stdout cp)) "name") = inr latlng →
    shrines st' =
      shrines st ++ [make_shrine env (shrine_id st) link
                       (extract_shrine_info (stdout cp)) latlng] →
    shrine_id st' = (shrine_id st + 1)%Z →
    visited env link st st'.

(** The list after the loop. *)
Inductive visited_all (env : Env) : list pystr → St → St → Prop :=
| visited_nil st : visited_all env [] st st
| visited_cons link rest st st1 st2 :
    visited env link st st1 → visited_all env rest st1 st2 →
    visited_all env (link :: rest) st st2.

Definition record_keys : list string :=
  ["id"; "name"; "region"; "reading"; "province"; "prefecture"; "address";
   "zip"; "tel"; "deity"; "virtue"; "lat"; "lng"].

Definition text_keys : list string :=
  ["name"; "reading"; "province"; "prefecture"; "address"; "zip"; "tel";
   "deity"; "virtue"].

(** The record at index [k] was made from a page with a name and from the
    answer of the geocoder for that name. *)
Definition made_by (env : Env) (k : nat) (r : gmap string pyval) : Prop :=
  ∃ link t cp t' latlng,
    subprocess_run env t (fetch_argv (BASE_URL ++ link)) = inr cp ∧
    has_name (extract_shrine_info (stdout cp)) = true ∧
    geocode_outcome env t'
      (get_or_empty (extract_shrine_info (stdout cp)) "name") = inr latlng ∧
    r = make_shrine env (Z.of_nat k + 1) link
          (extract_shrine_info (stdout cp)) latlng.

Definition numbered (env : Env) (st : St) : Prop :=
  shrine_id st = (Z.of_nat (length (shrines st)) + 1)%Z ∧
  ∀ k r, shrines st !! k = Some r → made_by env k r.

(** Consecutive entries are at least [d] apart. *)
Definition spaced (d : N) (l : list N) : Prop :=
  ∀ i a b, l !! i = Some a → l !! S i = Some b → (a + d ≤ b)%N.

Definition paced (st : St) : Prop :=
  spaced 1000 (geo_calls st) ∧
  ∀ t, last (geo_calls st) = Some t → (t + 1000 ≤ now st)%N.

End Trace.
Export Trace.

(** ** Vocabulary of the statements about markup and records *)

Module Markup.
Import Scrape Pipeline.

(** No proper suffix of [sep] is a prefix of it: two occurrences of [sep]
    cannot overlap. *)
Definition border_free (sep : pystr) : bool :=
  forallb (fun d => negb (starts_with (drop d sep) sep))
          (List.seq 1 (length sep - 1)).

(** The label cell [<td>LABEL</td>] of a field. *)
Definition label_cell (label : string) : pystr :=
  py "<td>" ++ py label ++ py "</td>".

(** [</td>], which ends the address cell. *)
Definition cell_end : pystr := py "</td>".

(** [<a[^>]*>], the optional part of the name pattern. *)
Definition anchor_pattern : regex :=
  Cat (lit "<a") (Cat (Rep true (notchr (ch ">"))) (lit ">")).

(** [/alllist/[^"]+/[^"]+/], the group of the link pattern. *)
Definition link_inner : regex :=
  Cat (lit "/alllist/")
    (Cat (plus true (notchr dquote))
       (Cat (lit "/") (Cat (plus true (notchr dquote)) (lit "/")))).

(** The pattern has no [^]. *)
Fixpoint anchor_free (r : regex) : bool :=
  match r with
  | Bol => false
  | Cat r1 r2 => anchor_free r1 && anchor_free r2
  | Opt r1 | Grp r1 => anchor_free r1
  | _ => true
  end.

(** The fields read by the shared rule, each with its label. *)
Definition cell_labels : list (string * string) :=
  [("reading", "神社名(読み方)"); ("province", "旧国名"); ("deity", "祭神");
   ("virtue", "御神徳"); ("tel", "電話番号")].

(** All the fields that are looked up by a label cell. *)
Definition field_labels : list (string * string) :=
  ("name", "神社名") :: ("address", "所在地") :: cell_labels.

(** The record [r] was made from the page of [link], which has a name. *)
Definition made_from (env : Env) (r : gmap string pyval) (link : pystr) : Prop :=
  ∃ t cp id latlng,
    subprocess_run env t (fetch_argv (BASE_URL ++ link)) = inr cp ∧
    has_name (extract_shrine_info (stdout cp)) = true ∧
    r = make_shrine env id link (extract_shrine_info (stdout cp)) latlng.

(** The turn of the loop for [link] in state [st] makes no call of
    [geocode_shrine], or the call it makes returns. *)
Definition call_returns (env : Env) (link : pystr) (st : St) : bool :=
  match subprocess_run env (now st) (fetch_argv (BASE_URL ++ link)) with
  | inr cp =>
    let info := extract_shrine_info (stdout cp) in
    if has_name info then
      match geocode_outcome env (fetched_at env st link)
              (get_or_empty info "name") with
      | inr _ => true
      | inl _ => false
      end
    else true
  | inl _ => true
  end.

(** The same for the turns of the loop over [links], each in the state that
    the turns before it leave. *)
Fixpoint calls_return (env : Env) (links : list pystr) (st : St) : bool :=
  match links with
  | [] => true
  | link :: rest =>
    call_returns env link st
    && calls_return env rest (snd (try_except (visit env link) st))
  end.

(** Every call of [geocode_shrine] that the run of [main] makes returns. *)
Definition run_calls_return (env : Env) : bool :=
  match fetch env root_url initial with
  | (inr main_page, st) => calls_return env (extract_links main_page) st
  | (inl _, _) => true
  end.

End Markup.
Export Markup.

(** ** Sample inputs for the text scan and the coordinate lookup *)

Module Samples.
Import Scrape Pipeline InfoGrip GeoConv Demo.

(** A text whose only line holds the name before the address label. *)
Definition text_named : pystr := py "A 所在地：B 最寄り駅 C".

(** A text whose second line begins with the address label. *)
Definition text_previous : pystr := py "A" ++ [10%N] ++ py "所在地：B".

Definition location_a : Location :=
  {| latitude := S754_finite false 4996180836614144 (-47);
     longitude := S754_finite false 4917015999414272 (-45) |}.

(** A geocoder that knows the name [A] but not together with the address
    [B], knows [C] at the address [D], and fails on anything else. *)
Definition sample_geocoder (query : pystr) : exn + option Location :=
  if decide (query = py "B A") then inr None
  else if decide (query = py "A") then inr (Some location_a)
  else if decide (query = py "D C") then inr (Some location_a)
  else inl OSError.

Definition sample_rows : list row :=
  [(py "A", py "B"); (py "C", py "D"); (py "E", py "F")].

(** What the lookup gives on the sample rows. *)
Definition sample_columns
  : list (option pyfloat) * list (option pyfloat) * nat :=
  ([Some (latitude location_a); Some (latitude location_a); None],
   [Some (longitude location_a); Some (longitude location_a); None], 4).

(** A run with two named pages in which the geocoder finds both; for the
    name [Z], which no page has, the service would give null coordinates. *)
Definition env_two_found : Env :=
  table_env [ (site "/alllist/", listing);
              (site "/alllist/kanto/a/", page_a);
              (site "/alllist/kanto/b/", page_b);
              (nominatim "A", found);
              (nominatim "B", found);
              (nominatim "Z", null_answer) ].

End Samples.

(** * Properties *)

(** ** The matcher *)

Module ReFacts.

Lemma run_le p s : run p s ≤ length s.
Proof. induction s as [|c s IH]; simpl; [lia|]. destruct (p c); simpl; lia. Qed.

Lemma run_Forall p s n : n ≤ run p s → Forall (λ c, p c = true) (take n s).
Proof.
  revert n; induction s as [|c s IH]; intros n Hn; simpl in *.
  - by rewrite take_nil.
  - destruct n as [|n]; [constructor|]. destruct (p c) eqn:Hp; [|lia].
    simpl. constructor; [done|]. apply IH. lia.
Qed.

Lemma Forall_run p s n :
  n ≤ length s → Forall (λ c, p c = true) (take n s) → n ≤ run p s.
Proof.
  revert n; induction s as [|c s IH]; intros n Hn HF; simpl in *; [lia|].
  destruct n as [|n]; [lia|]. simpl in HF. inversion HF as [|? ? Hc HF']; subst.
  rewrite Hc. apply le_n_S, IH; [lia|done].
Qed.

Section RepLoop.
Context {R : Type}.
Implicit Types (k : nat → pystr → option R) (p : N → bool).

(** A repetition hands over to the rest of the pattern after some prefix
    of class [p]. *)
Lemma rep_loop_sound greedy p k pos s x :
  rep_loop greedy p k pos s = Some x →
  ∃ n, n ≤ run p s ∧ k (pos + n) (drop n s) = Some x.
Proof.
  revert pos; induction s as [|c s IH]; intros pos; simpl.
  - intros H. exists 0. by rewrite Nat.add_0_r.
  - destruct (p c) eqn:Hp.
    + destruct greedy.
      * destruct (rep_loop true p k (S pos) s) eqn:Hl.
        -- intros [= <-]. apply IH in Hl as (n & Hn & Hk).
           exists (S n). split; [lia|]. by rewrite Nat.add_succ_r.
        -- intros H. exists 0. split; [lia|]. by rewrite Nat.add_0_r.
      * destruct (k pos (c :: s)) eqn:Hk.
        -- intros [= <-]. exists 0. split; [lia|]. by rewrite Nat.add_0_r.
        -- intros Hl. apply IH in Hl as (n & Hn & Hk').
           exists (S n). split; [lia|]. by rewrite Nat.add_succ_r.
    + intros H. exists 0. split; [lia|]. by rewrite Nat.add_0_r.
Qed.

(** It fails exactly when the rest of the pattern fails after every such
    prefix. *)
Lemma rep_loop_None greedy p k pos s :
  rep_loop greedy p k pos s = None ↔
  ∀ n, n ≤ run p s → k (pos + n) (drop n s) = None.
Proof.
  split.
  - revert pos; induction s as [|c s IH]; intros pos; simpl.
    + intros H n Hn. assert (n = 0) as -> by lia. by rewrite Nat.add_0_r.
    + destruct (p c) eqn:Hp.
      * intros H n Hn.
        assert (rep_loop greedy p k (S pos) s = None ∧ k pos (c :: s) = None)
          as [Hl Hk].
        { destruct greedy.
          - destruct (rep_loop true p k (S pos) s); [done|]. done.
          - destruct (k pos (c :: s)); [done|]. done. }
        destruct n as [|n]; [by rewrite Nat.add_0_r|].
        rewrite Nat.add_succ_r. apply (IH (S pos) Hl). lia.
      * intros H n Hn. assert (n = 0) as -> by lia. by rewrite Nat.add_0_r.
  - revert pos; induction s as [|c s IH]; intros pos H; simpl.
    + specialize (H 0). rewrite Nat.add_0_r in H. apply H. simpl. lia.
    + pose proof (H 0) as H0. rewrite Nat.add_0_r in H0. simpl in H0.
      destruct (p c) eqn:Hp.
      * assert (rep_loop greedy p k (S pos) s = None) as Hl.
        { apply IH. intros n Hn. specialize (H (S n)). simpl in H.
          rewrite Hp, Nat.add_succ_r in H. apply H. lia. }
        rewrite Hl, H0 by lia. by destruct greedy.
      * apply H0. lia.
Qed.

(** A lazy repetition stops at the first prefix after which the rest of the
    pattern succeeds. *)
Lemma rep_loop_lazy_first p k pos s n x :
  n ≤ run p s →
  k (pos + n) (drop n s) = Some x →
  (∀ m, m < n → k (pos + m) (drop m s) = None) →
  rep_loop false p k pos s = Some x.
Proof.
  revert pos n; induction s as [|c s IH]; intros pos n Hn Hk Hmin; simpl in *.
  - assert (n = 0) as -> by lia. by rewrite Nat.add_0_r in Hk.
  - destruct (p c) eqn:Hp.
    + destruct n as [|n].
      * rewrite Nat.add_0_r in Hk. simpl in Hk. by rewrite Hk.
      * pose proof (Hmin 0 ltac:(lia)) as H0. rewrite Nat.add_0_r in H0.
        simpl in H0. rewrite H0. apply (IH (S pos) n); [lia| |].
        -- by rewrite Nat.add_succ_r in Hk.
        -- intros m Hm. specialize (Hmin (S m) ltac:(lia)).
           by rewrite Nat.add_succ_r in Hmin.
    + assert (n = 0) as -> by lia. by rewrite Nat.add_0_r in Hk.
Qed.

Lemma rep_loop_lazy_sound p k pos s x :
  rep_loop false p k pos s = Some x →
  ∃ n, n ≤ run p s ∧ k (pos + n) (drop n s) = Some x ∧
       ∀ m, m < n → k (pos + m) (drop m s) = None.
Proof.
  revert pos; induction s as [|c s IH]; intros pos; simpl.
  - intros H. exists 0. rewrite Nat.add_0_r. split; [lia|]. split; [done|lia].
  - destruct (p c) eqn:Hp.
    + destruct (k pos (c :: s)) eqn:Hk.
      * intros [= <-]. exists 0. rewrite Nat.add_0_r.
        split; [lia|]. split; [done|lia].
      * intros Hl. apply IH in Hl as (n & Hn & Hk' & Hmin).
        exists (S n). split; [lia|]. rewrite Nat.add_succ_r. split; [done|].
        intros [|m] Hm; [by rewrite Nat.add_0_r|].
        rewrite Nat.add_succ_r. apply Hmin. lia.
    + intros H. exists 0. rewrite Nat.add_0_r.
      split; [lia|]. split; [done|lia].
Qed.

(** A greedy repetition stops at the last one. *)
Lemma rep_loop_greedy_last p k pos s n x :
  n ≤ run p s →
  k (pos + n) (drop n s) = Some x →
  (∀ m, n < m → m ≤ run p s → k (pos + m) (drop m s) = None) →
  rep_loop true p k pos s = Some x.
Proof.
  revert pos n; induction s as [|c s IH]; intros pos n Hn Hk Hmax; simpl in *.
  - assert (n = 0) as -> by lia. by rewrite Nat.add_0_r in Hk.
  - destruct (p c) eqn:Hp.
    + destruct n as [|n].
      * assert (rep_loop true p k (S pos) s = None) as ->.
        { apply rep_loop_None. intros m Hm. specialize (Hmax (S m)).
          rewrite Nat.add_succ_r in Hmax. apply Hmax; lia. }
        by rewrite Nat.add_0_r in Hk.
      * erewrite (IH (S pos) n); [done|lia| |].
        -- by rewrite Nat.add_succ_r in Hk.
        -- intros m Hm Hm'. specialize (Hmax (S m)).
           rewrite Nat.add_succ_r in Hmax. apply Hmax; lia.
    + assert (n = 0) as -> by lia. by rewrite Nat.add_0_r in Hk.
Qed.
End RepLoop.

(** Whatever the pattern, the matcher hands over to its continuation at an
    offset inside the subject, on the matching suffix of it. *)
Lemma bt_sound {R} r : ∀ pos s g (k : nat → pystr → option pystr → option R) x,
  bt r pos s g k = Some x →
  ∃ n g', n ≤ length s ∧ k (pos + n) (drop n s) g' = Some x.
Proof.
  induction r as [| |p|r1 IH1 r2 IH2|r IH|greedy p|r IH];
    intros pos s g k x; simpl.
  - intros H. exists 0, g. rewrite Nat.add_0_r. split; [lia|done].
  - destruct (Nat.eqb pos 0); [|done].
    intros H. exists 0, g. rewrite Nat.add_0_r. split; [lia|done].
  - destruct s as [|c s]; [done|]. destruct (p c); [|done].
    intros H. exists 1, g. rewrite Nat.add_1_r. simpl. split; [lia|done].
  - intros H. apply IH1 in H as (n1 & g1 & Hn1 & H).
    apply IH2 in H as (n2 & g2 & Hn2 & H).
    exists (n1 + n2), g2. rewrite length_drop in Hn2.
    rewrite drop_drop, <- Nat.add_assoc in H. split; [lia|done].
  - destruct (bt r pos s g k) eqn:Hr.
    + intros [= <-]. by apply IH in Hr.
    + intros H. exists 0, g. rewrite Nat.add_0_r. split; [lia|done].
  - intros H. apply rep_loop_sound in H as (n & Hn & H).
    exists n, g. pose proof (run_le p s). split; [lia|done].
  - intros H. apply IH in H as (n & g' & Hn & H). eauto.
Qed.

(** The text consumed on the way belongs to the pattern. *)
Lemma bt_lang {R} r : ∀ pos s g (k : nat → pystr → option pystr → option R) x,
  bt r pos s g k = Some x →
  ∃ n g', n ≤ length s ∧ lang r (take n s) ∧
          k (pos + n) (drop n s) g' = Some x.
Proof.
  induction r as [| |p|r1 IH1 r2 IH2|r IH|greedy p|r IH];
    intros pos s g k x; simpl.
  - intros H. exists 0, g. rewrite Nat.add_0_r, take_0.
    split; [lia|]. split; [constructor|done].
  - destruct (Nat.eqb pos 0); [|done].
    intros H. exists 0, g. rewrite Nat.add_0_r, take_0.
    split; [lia|]. split; [constructor|done].
  - destruct s as [|c s]; [done|]. destruct (p c) eqn:Hp; [|done].
    intros H. exists 1, g. rewrite Nat.add_1_r. simpl. rewrite take_0.
    split; [lia|]. split; [by constructor|done].
  - intros H. apply IH1 in H as (n1 & g1 & Hn1 & Hl1 & H).
    apply IH2 in H as (n2 & g2 & Hn2 & Hl2 & H).
    exists (n1 + n2), g2. rewrite length_drop in Hn2.
    rewrite drop_drop, <- Nat.add_assoc in H. split; [lia|].
    split; [|done]. rewrite <- take_take_drop. by constructor.
  - destruct (bt r pos s g k) eqn:Hr.
    + intros [= <-]. apply IH in Hr as (n & g' & ? & ? & ?).
      exists n, g'. split; [done|]. split; [by apply lang_opt_some|done].
    + intros H. exists 0, g. rewrite Nat.add_0_r, take_0.
      split; [lia|]. split; [apply lang_opt_none|done].
  - intros H. apply rep_loop_sound in H as (n & Hn & H).
    exists n, g. pose proof (run_le p s). split; [lia|].
    split; [|done]. constructor. by apply run_Forall.
  - intros H. apply IH in H as (n & g' & Hn & Hl & H).
    exists n, (Some (take (pos + n - pos) s)).
    split; [done|]. split; [by constructor|done].
Qed.

Lemma lang_lit l w : lang (lit_cps l) w → w = l.
Proof.
  revert w; induction l as [|c l IH]; intros w; simpl.
  - by inversion 1.
  - inversion 1 as [| | |? ? w1 w2 H1 H2| | | |]; subst.
    inversion H1 as [| |? ? Hc| | | | |]; subst.
    apply N.eqb_eq in Hc as ->. simpl. f_equal. by apply IH.
Qed.

Lemma lang_plus greedy p w :
  lang (plus greedy p) w → w ≠ [] ∧ Forall (λ c, p c = true) w.
Proof.
  unfold plus. inversion 1 as [| | |? ? w1 w2 H1 H2| | | |]; subst.
  inversion H1 as [| |? ? Hc| | | | |]; subst.
  inversion H2 as [| | | | | |? ? ? HF|]; subst.
  split; [done|]. by constructor.
Qed.

Lemma findall_from_elem r x : ∀ fuel pos s,
  x ∈ findall_from fuel r pos s →
  ∃ pos' s' e g, match_at r pos' s' = Some (e, g) ∧ x = default [] g.
Proof.
  induction fuel as [|fuel IH]; intros pos s; simpl; [by intros ?%elem_of_nil|].
  destruct (match_at r pos s) as [[e g]|] eqn:Hm.
  - intros [->|Hx]%elem_of_cons; [by eauto 6|].
    destruct (Nat.ltb pos e); [by eapply IH|].
    destruct s as [|c s]; [by apply elem_of_nil in Hx|]. by eapply IH.
  - destruct s as [|c s]; [by intros ?%elem_of_nil|]. apply IH.
Qed.

Lemma match_at_bound r pos s e g :
  match_at r pos s = Some (e, g) → pos ≤ e ∧ e ≤ pos + length s.
Proof.
  intros H. apply bt_sound in H as (n & g' & Hn & H).
  unfold accept in H. injection H as <- _. lia.
Qed.

(** [re.search] returns the match at the first offset that has one. *)
Lemma search_from_Some r pos s st e g :
  search_from r pos s = Some (st, e, g) →
  ∃ i, st = pos + i ∧ i ≤ length s ∧
       match_at r (pos + i) (drop i s) = Some (e, g) ∧
       ∀ j, j < i → match_at r (pos + j) (drop j s) = None.
Proof.
  revert pos; induction s as [|c s IH]; intros pos; simpl.
  - destruct (match_at r pos []) as [[e' g']|] eqn:Hm; [|done].
    intros [= <- <- <-]. exists 0. rewrite Nat.add_0_r.
    repeat split; [done|done|lia].
  - destruct (match_at r pos (c :: s)) as [[e' g']|] eqn:Hm.
    + intros [= <- <- <-]. exists 0. rewrite Nat.add_0_r.
      repeat split; [lia|done|lia].
    + intros H. apply IH in H as (i & -> & Hi & Hmi & Hmin).
      exists (S i). rewrite Nat.add_succ_r. repeat split; [lia|done|].
      intros [|j] Hj; [by rewrite Nat.add_0_r|].
      rewrite Nat.add_succ_r. apply Hmin. lia.
Qed.

Lemma search_from_None r pos s :
  search_from r pos s = None ↔
  ∀ i, i ≤ length s → match_at r (pos + i) (drop i s) = None.
Proof.
  revert pos; induction s as [|c s IH]; intros pos; simpl.
  - destruct (match_at r pos []) as [[e' g']|] eqn:Hm.
    + split; [done|]. intros H. specialize (H 0 (le_n _)).
      rewrite Nat.add_0_r in H. simpl in H. congruence.
    + split; [|done]. intros _ i Hi. assert (i = 0) as -> by lia.
      by rewrite Nat.add_0_r.
  - destruct (match_at r pos (c :: s)) as [[e' g']|] eqn:Hm.
    + split; [done|]. intros H. specialize (H 0 ltac:(lia)).
      rewrite Nat.add_0_r in H. simpl in H. congruence.
    + rewrite IH. split.
      * intros H [|i] Hi; [by rewrite Nat.add_0_r|].
        rewrite Nat.add_succ_r. apply H. lia.
      * intros H i Hi. specialize (H (S i) ltac:(lia)).
        by rewrite Nat.add_succ_r in H.
Qed.

Lemma search_from_first r pos s i e g :
  i ≤ length s →
  match_at r (pos + i) (drop i s) = Some (e, g) →
  (∀ j, j < i → match_at r (pos + j) (drop j s) = None) →
  search_from r pos s = Some (pos + i, e, g).
Proof.
  intros Hi Hm Hmin.
  destruct (search_from r pos s) as [[[st e'] g']|] eqn:Hs.
  - apply search_from_Some in Hs as (i' & -> & Hi' & Hm' & Hmin').
    destruct (Nat.lt_trichotomy i i') as [Hlt|[->|Hgt]].
    + specialize (Hmin' i Hlt). congruence.
    + congruence.
    + specialize (Hmin i' Hgt). congruence.
  - rewrite search_from_None in Hs. specialize (Hs i Hi). congruence.
Qed.

Lemma sub_from_S n r repl pos s :
  sub_from (S n) r repl pos s =
  match match_at r pos s with
  | Some (e, _) =>
    repl ++
      (if Nat.ltb pos e then sub_from n r repl e (drop (e - pos) s)
       else match s with
            | [] => []
            | c :: s' => c :: sub_from n r repl (S pos) s'
            end)
  | None =>
    match s with
    | [] => []
    | c :: s' => c :: sub_from n r repl (S pos) s'
    end
  end.
Proof. reflexivity. Qed.

(** [re.sub]: the amount of fuel does not matter once it exceeds the length
    of the subject. *)
Lemma sub_from_fuel r repl : ∀ f1 f2 pos s,
  length s < f1 → length s < f2 →
  sub_from f1 r repl pos s = sub_from f2 r repl pos s.
Proof.
  induction f1 as [|f1 IH]; intros f2 pos s H1 H2; [lia|].
  destruct f2 as [|f2]; [lia|]. simpl.
  destruct (match_at r pos s) as [[e g]|] eqn:Hm.
  - f_equal. destruct (Nat.ltb_spec pos e) as [Hlt|Hge].
    + apply match_at_bound in Hm as [_ Hm].
      apply IH; rewrite length_drop; lia.
    + destruct s as [|c s]; [done|]. f_equal. simpl in *. apply IH; lia.
  - destruct s as [|c s]; [done|]. f_equal. simpl in *. apply IH; lia.
Qed.

(** Characters at which no match starts are copied. *)
Lemma sub_from_copy r repl pre : ∀ fuel pos rest,
  length (pre ++ rest) < fuel →
  (∀ i, i < length pre →
        match_at r (pos + i) (drop i (pre ++ rest)) = None) →
  sub_from fuel r repl pos (pre ++ rest)
  = pre ++ sub_from fuel r repl (pos + length pre) rest.
Proof.
  induction pre as [|c pre IH]; intros fuel pos rest Hf Hno.
  - simpl. by rewrite Nat.add_0_r.
  - destruct fuel as [|fuel]; [simpl in Hf; lia|].
    pose proof (Hno 0 ltac:(simpl; lia)) as H0.
    rewrite Nat.add_0_r in H0. simpl in H0.
    rewrite sub_from_S at 1. cbn [app length] in Hf |- *. rewrite H0. f_equal.
    rewrite IH; [|lia|].
    + rewrite Nat.add_succ_r. f_equal.
      apply sub_from_fuel; rewrite ?length_app in *; lia.
    + intros i Hi. specialize (Hno (S i) ltac:(simpl; lia)).
      by rewrite Nat.add_succ_r in Hno.
Qed.

(** A non-empty match is replaced and the scan resumes after it. *)
Lemma sub_from_match r repl fuel pos s e g :
  length s < fuel →
  match_at r pos s = Some (e, g) → pos < e →
  sub_from fuel r repl pos s
  = repl ++ sub_from fuel r repl e (drop (e - pos) s).
Proof.
  intros Hf Hm Hlt. destruct fuel as [|fuel]; [lia|].
  rewrite sub_from_S at 1. rewrite Hm.
  destruct (Nat.ltb_spec pos e); [|lia]. f_equal.
  apply match_at_bound in Hm as [_ Hm].
  apply sub_from_fuel; rewrite length_drop; lia.
Qed.

(** Without a match anywhere the subject is returned as it is. *)
Lemma sub_from_id r repl s : ∀ fuel pos,
  length s < fuel →
  (∀ i, i ≤ length s → match_at r (pos + i) (drop i s) = None) →
  sub_from fuel r repl pos s = s.
Proof.
  induction s as [|c s IH]; intros fuel pos Hf Hno;
    (destruct fuel as [|fuel]; [simpl in Hf; lia|]); simpl.
  - specialize (Hno 0 (le_n _)). rewrite Nat.add_0_r in Hno. simpl in Hno.
    by rewrite Hno.
  - pose proof (Hno 0 ltac:(simpl; lia)) as H0.
    rewrite Nat.add_0_r in H0. simpl in H0. rewrite H0. f_equal.
    apply IH; [simpl in Hf; lia|]. intros i Hi.
    specialize (Hno (S i) ltac:(simpl; lia)). by rewrite Nat.add_succ_r in Hno.
Qed.

End ReFacts.

(** ** Stripping and whitespace *)

Module StrFacts.
Import ReFacts.

Lemma lstrip_drop s : lstrip s = drop (run isspace s) s.
Proof. induction s as [|c s IH]; simpl; [done|]. by destruct (isspace c). Qed.

Lemma rstrip_take s :
  rstrip s = take (length s - run isspace (reverse s)) s.
Proof.
  unfold rstrip. by rewrite lstrip_drop, drop_reverse, reverse_involutive.
Qed.

Lemma starts_space_lstrip s : starts_space (lstrip s) = false.
Proof.
  induction s as [|c s IH]; simpl; [done|].
  destruct (isspace c) eqn:Hc; [done|]. simpl. done.
Qed.

Lemma ends_space_rstrip s : ends_space (rstrip s) = false.
Proof.
  unfold ends_space, rstrip. rewrite reverse_involutive.
  apply starts_space_lstrip.
Qed.

Lemma starts_space_take n s :
  starts_space s = false → starts_space (take n s) = false.
Proof. destruct s, n; simpl; done. Qed.

Lemma strip_trimmed s : trimmed (strip s) = true.
Proof.
  unfold trimmed, strip. rewrite ends_space_rstrip.
  rewrite rstrip_take, starts_space_take; [done|]. apply starts_space_lstrip.
Qed.

Lemma single_spaced_take n v :
  single_spaced v = true → single_spaced (take n v) = true.
Proof.
  revert n; induction v as [|c v IH]; intros [|n]; simpl; try done.
  intros [H1 H2]%andb_true_iff. rewrite (IH n H2), andb_true_r.
  destruct (isspace c); [|done].
  apply andb_true_iff in H1 as [-> H1]. simpl.
  apply negb_true_iff in H1. by rewrite starts_space_take.
Qed.

Lemma single_spaced_drop n v :
  single_spaced v = true → single_spaced (drop n v) = true.
Proof.
  revert n; induction v as [|c v IH]; intros [|n]; simpl; try done.
  intros [_ H2]%andb_true_iff. by apply IH.
Qed.

Lemma single_spaced_strip v :
  single_spaced v = true → single_spaced (strip v) = true.
Proof.
  intros H. unfold strip. rewrite rstrip_take, lstrip_drop.
  by apply single_spaced_take, single_spaced_drop.
Qed.

(** In a single-spaced string the only whitespace is U+0020. *)
Lemma single_spaced_elem v c :
  single_spaced v = true → c ∈ v → isspace c = true → c = 32%N.
Proof.
  induction v as [|d v IH]; simpl; [by intros _ ?%elem_of_nil|].
  intros [H1 H2]%andb_true_iff [->|Hin]%elem_of_cons Hc; [|by apply IH].
  rewrite Hc in H1. apply andb_true_iff in H1 as [H1 _].
  by apply N.eqb_eq in H1.
Qed.

Lemma single_spaced_dot v :
  single_spaced v = true → Forall (λ c, dot c = true) v.
Proof.
  intros H. apply Forall_forall. intros c Hc. unfold dot, notchr.
  destruct (N.eqb_spec c 10) as [->|]; [|done].
  by pose proof (single_spaced_elem v 10%N H Hc eq_refl).
Qed.

End StrFacts.

(** ** The field extractor *)

Module ExtractFacts.
Import Scrape ReFacts StrFacts.

#[local] Arguments isspace : simpl never.
#[local] Arguments isdecimal : simpl never.
#[local] Arguments N.eqb : simpl never.

(** A greedy repetition at the end of a pattern takes the whole run. *)
Lemma rep_loop_accept p g pos s :
  rep_loop true p (λ pos' s', accept pos' s' g) pos s
  = Some (pos + run p s, g).
Proof.
  apply (rep_loop_greedy_last _ _ _ _ (run p s)); [done|done|].
  intros m ??. lia.
Qed.

Lemma match_at_spaces pos s :
  match_at spaces_pattern pos s =
  match s with
  | c :: s' => if isspace c then Some (S pos + run isspace s', None) else None
  | [] => None
  end.
Proof.
  unfold match_at, spaces_pattern, plus. simpl.
  destruct s as [|c s]; [done|]. destruct (isspace c); [|done].
  apply rep_loop_accept.
Qed.

(** [re.sub(r'\s+', ' ', s)] leaves single spaces only. *)
Lemma sub_spaces_single : ∀ fuel pos s,
  length s < fuel →
  single_spaced (sub_from fuel spaces_pattern [32%N] pos s) = true ∧
  (starts_space s = false →
   starts_space (sub_from fuel spaces_pattern [32%N] pos s) = false).
Proof.
  induction fuel as [|fuel IH]; intros pos s Hf; [lia|].
  rewrite sub_from_S, match_at_spaces. destruct s as [|c s]; [done|].
  simpl in Hf. destruct (isspace c) eqn:Hc.
  - destruct (Nat.ltb_spec pos (S pos + run isspace s)); [|lia].
    replace (S pos + run isspace s - pos) with (S (run isspace s)) by lia.
    cbn [drop]. rewrite <- lstrip_drop.
    destruct (IH (S pos + run isspace s) (lstrip s)) as [H1 H2].
    { rewrite lstrip_drop, length_drop. lia. }
    specialize (H2 (starts_space_lstrip s)). split.
    + cbn [app single_spaced]. rewrite H1, H2. done.
    + cbn [starts_space]. congruence.
  - destruct (IH (S pos) s ltac:(lia)) as [H1 H2]. split.
    + cbn [single_spaced]. by rewrite Hc.
    + intros _. cbn [starts_space]. done.
Qed.

(** The cleaned address is trimmed and single-spaced. *)
Lemma clean_address_normal cell :
  trimmed (clean_address cell) = true ∧
  single_spaced (clean_address cell) = true.
Proof.
  unfold clean_address. split; [apply strip_trimmed|].
  apply single_spaced_strip. unfold re_sub. apply sub_spaces_single. lia.
Qed.

(** *** What [extract_shrine_info] stores under each key *)

Lemma lookup_set_found key key' found (info : gmap string pystr) :
  set_found key found info !! key' =
  if decide (key = key') then
    match found with Some v => Some v | None => info !! key' end
  else info !! key'.
Proof.
  unfold set_found. destruct found as [v|].
  - rewrite lookup_insert. by destruct (decide (key = key')).
  - by destruct (decide (key = key')).
Qed.

Ltac lookup_fields :=
  unfold labelled_fields; cbv zeta; rewrite !lookup_set_found;
  repeat (case_decide; [discriminate|]);
  repeat (case_decide; [|done]);
  rewrite ?lookup_empty;
  try match goal with
      | |- match ?o with Some _ => _ | None => _ end = _ => by destruct o
      end;
  try done.

Lemma labelled_name html :
  labelled_fields html !! "name" = stripped_cell name_pattern html.
Proof. lookup_fields. Qed.

Lemma labelled_reading html :
  labelled_fields html !! "reading"
  = stripped_cell (cell_pattern "神社名(読み方)") html.
Proof. lookup_fields. Qed.

Lemma labelled_province html :
  labelled_fields html !! "province"
  = stripped_cell (cell_pattern "旧国名") html.
Proof. lookup_fields. Qed.

Lemma labelled_deity html :
  labelled_fields html !! "deity" = stripped_cell (cell_pattern "祭神") html.
Proof. lookup_fields. Qed.

Lemma labelled_virtue html :
  labelled_fields html !! "virtue"
  = stripped_cell (cell_pattern "御神徳") html.
Proof. lookup_fields. Qed.

Lemma labelled_tel html :
  labelled_fields html !! "tel"
  = stripped_cell (cell_pattern "電話番号") html.
Proof. lookup_fields. Qed.

Lemma labelled_address html :
  labelled_fields html !! "address"
  = clean_address <$> search_group address_pattern html.
Proof. lookup_fields. Qed.

Lemma labelled_zip html :
  labelled_fields html !! "zip" = search_group zip_pattern html.
Proof. lookup_fields. Qed.

Lemma labelled_prefecture html : labelled_fields html !! "prefecture" = None.
Proof. lookup_fields. Qed.

(** The last step only adds the key [prefecture]. *)
Lemma extract_other html key :
  key ≠ "prefecture" →
  extract_shrine_info html !! key = labelled_fields html !! key.
Proof.
  intros Hk. unfold extract_shrine_info. cbv zeta.
  destruct (labelled_fields html !! "address"); [|done].
  rewrite lookup_set_found. by case_decide.
Qed.

Lemma extract_prefecture html :
  extract_shrine_info html !! "prefecture"
  = labelled_fields html !! "address" ≫= match_group prefecture_pattern.
Proof.
  unfold extract_shrine_info. cbv zeta.
  destruct (labelled_fields html !! "address") as [a|]; simpl.
  - rewrite lookup_set_found. case_decide; [|done].
    rewrite labelled_prefecture. by destruct (match_group _ a).
  - apply labelled_prefecture.
Qed.

#[local] Arguments one_of : simpl never.
#[local] Arguments dot : simpl never.

(** *** The prefecture rule *)

Lemma one_of_elem cs c : one_of cs c = true ↔ c ∈ cs.
Proof.
  unfold one_of. rewrite existsb_exists. split.
  - intros (x & Hx & ->%N.eqb_eq). by apply list_elem_of_In.
  - intros H. exists c. split; [by apply list_elem_of_In|apply N.eqb_refl].
Qed.

Lemma match_at_prefecture a :
  match_at prefecture_pattern 0 a =
  match a with
  | c0 :: a' => if dot c0 then rep_loop false dot (after_stem a) 1 a' else None
  | [] => None
  end.
Proof.
  unfold match_at, prefecture_pattern, plus. simpl.
  destruct a as [|c0 a']; [done|]. destruct (dot c0); [|done].
  f_equal. 
Qed.

Lemma match_group_prefecture a :
  match_group prefecture_pattern a =
  match a with
  | c0 :: a' =>
    if dot c0 then rep_loop false dot (after_stem a) 1 a' ≫= snd else None
  | [] => None
  end.
Proof.
  unfold match_group, re_match. rewrite match_at_prefecture.
  destruct a as [|c0 a']; [done|]. destruct (dot c0); [|done].
  destruct (rep_loop false dot (after_stem (c0 :: a')) 1 a') as [[e g]|] eqn:H;
    [|done].
  simpl. apply rep_loop_sound in H as (n & _ & H). unfold after_stem in H.
  destruct (drop n a') as [|d ?]; [done|].
  destruct (one_of pref_suffixes d); [|done]. by injection H as _ <-.
Qed.

(** The value of the rule is the shortest prefix of the address made of a
    non-empty stem and a suffix character: no character of the stem after
    its first is a suffix character. *)
Lemma prefecture_sound a p :
  match_group prefecture_pattern a = Some p →
  ∃ stem c rest,
    a = p ++ rest ∧ p = stem ++ [c] ∧ stem ≠ [] ∧ c ∈ pref_suffixes ∧
    Forall (λ d, d ∉ pref_suffixes) (tail stem).
Proof.
  rewrite match_group_prefecture. destruct a as [|c0 a']; [done|].
  destruct (dot c0); [|done].
  destruct (rep_loop false dot (after_stem (c0 :: a')) 1 a') as [[e g]|] eqn:H;
    [|done].
  simpl. intros ->. apply rep_loop_lazy_sound in H as (n & _ & H & Hmin).
  unfold after_stem in H. destruct (drop n a') as [|d rest] eqn:Hd; [done|].
  destruct (one_of pref_suffixes d) eqn:Hs; [|done]. injection H as _ <-.
  assert (a' !! n = Some d) as Hn.
  { rewrite <- (Nat.add_0_r n), <- lookup_drop, Hd. done. }
  exists (c0 :: take n a'), d, rest. split; [|split; [|split; [|split]]].
  - cbn [take]. rewrite (take_S_r _ _ _ Hn). cbn [app]. f_equal.
    rewrite <- app_assoc. cbn [app]. rewrite <- Hd. by rewrite take_drop.
  - cbn [take app]. by rewrite (take_S_r _ _ _ Hn).
  - done.
  - by apply one_of_elem.
  - cbn [tail]. apply Forall_lookup. intros m x Hx.
    apply lookup_take_Some in Hx as [Hx Hm].
    specialize (Hmin m Hm). unfold after_stem in Hmin.
    rewrite (drop_S _ _ _ Hx) in Hmin. rewrite <- one_of_elem.
    destruct (one_of pref_suffixes x); [done|]. done.
Qed.

Lemma prefecture_complete a stem c rest :
  Forall (λ c, dot c = true) a →
  a = stem ++ c :: rest → stem ≠ [] → c ∈ pref_suffixes →
  is_Some (match_group prefecture_pattern a).
Proof.
  intros Hdot -> Hstem Hc. rewrite match_group_prefecture.
  destruct stem as [|c0 stem]; [done|]. cbn [app].
  inversion Hdot as [|? ? Hc0 Hdot']; subst. rewrite Hc0.
  destruct (rep_loop false dot (after_stem (c0 :: stem ++ c :: rest)) 1
              (stem ++ c :: rest)) as [[e g]|] eqn:H.
  - pose proof H as H'. apply rep_loop_sound in H' as (n & _ & H').
    unfold after_stem in H'. destruct (drop n _) as [|d ?]; [done|].
    destruct (one_of pref_suffixes d); [|done]. injection H' as _ <-.
    by eexists.
  - rewrite rep_loop_None in H. specialize (H (length stem)).
    rewrite drop_app_length in H. unfold after_stem in H.
    apply one_of_elem in Hc. rewrite Hc in H. discriminate H.
    apply Forall_run; [rewrite length_app; lia|].
    rewrite take_app_length. by apply Forall_app in Hdot' as [? _].
Qed.

Lemma prefecture_tokyo rest :
  match_group prefecture_pattern (py "東京都" ++ rest) = Some (py "東京都").
Proof. reflexivity. Qed.

Lemma extracted_address_dot html a :
  extract_shrine_info html !! "address" = Some a →
  Forall (λ c, dot c = true) a.
Proof.
  rewrite extract_other by done. rewrite labelled_address.
  destruct (search_group address_pattern html) as [cell|]; [|done].
  intros [= <-]. apply single_spaced_dot, clean_address_normal.
Qed.

(** *** The postal code rules *)

Lemma zip_pattern_eq :
  zip_pattern =
  Cat (Cat (Cls (chr postal_mark)) Eps)
      (Grp (Cat (times 3 (Cls isdecimal))
                (Cat (Cat (Cls (chr hyphen)) Eps) (times 4 (Cls isdecimal))))).
Proof. reflexivity. Qed.

Lemma postal_strip_pattern_eq :
  postal_strip_pattern =
  Cat (Cat (Cls (chr postal_mark)) Eps)
      (Cat (times 3 (Cls isdecimal))
           (Cat (Cat (Cls (chr hyphen)) Eps)
                (Cat (times 4 (Cls isdecimal)) (Rep true isspace)))).
Proof. reflexivity. Qed.


Ltac rewrite_digits :=
  repeat match goal with
         | H : isdecimal _ = true |- _ => rewrite H; clear H
         end.

Ltac postal_cases H :=
  repeat match type of H with
         | match ?s with [] => _ | _ :: _ => _ end = Some _ =>
           destruct s as [|? s]; [discriminate H|]
         | (if ?b then _ else _) = Some _ =>
           let E := fresh "E" in destruct b eqn:E; [|discriminate H]
         end.

Lemma match_at_zip_inv pos s e g :
  match_at zip_pattern pos s = Some (e, g) →
  ∃ z rest, s = postal_mark :: z ++ rest ∧ postal_digits z = true ∧
            e = pos + 9 ∧ g = Some z.
Proof.
  unfold match_at. rewrite zip_pattern_eq. cbn [bt times]. unfold chr.
  intros H. postal_cases H.
  injection H as <- <-.
  apply N.eqb_eq in E as ->, E3.
  eexists [_; _; _; _; _; _; _; _], s. split; [|split; [|split]].
  - subst. reflexivity.
  - cbn [postal_digits]. by rewrite E0, E1, E2, E4, E5, E6, E7, N.eqb_refl.
  - lia.
  - f_equal. match goal with |- take ?n _ = _ => replace n with 8 by lia end.
    by subst.
Qed.

Lemma postal_digits_inv z :
  postal_digits z = true →
  ∃ d1 d2 d3 d4 d5 d6 d7,
    z = [d1; d2; d3; hyphen; d4; d5; d6; d7] ∧
    isdecimal d1 = true ∧ isdecimal d2 = true ∧ isdecimal d3 = true ∧
    isdecimal d4 = true ∧ isdecimal d5 = true ∧ isdecimal d6 = true ∧
    isdecimal d7 = true.
Proof.
  destruct z as [|d1 [|d2 [|d3 [|h [|d4 [|d5 [|d6 [|d7 [|? ?]]]]]]]]]; try done.
  simpl. rewrite !andb_true_iff.
  intros [[[[[[[? ?] ?] ->%N.eqb_eq] ?] ?] ?] ?].
  by exists d1, d2, d3, d4, d5, d6, d7.
Qed.

Lemma match_at_zip_Some pos z rest :
  postal_digits z = true →
  match_at zip_pattern pos (postal_mark :: z ++ rest) = Some (pos + 9, Some z).
Proof.
  intros (d1 & d2 & d3 & d4 & d5 & d6 & d7 & -> & ? & ? & ? & ? & ? & ? & ?)
    %postal_digits_inv.
  unfold match_at. rewrite zip_pattern_eq. cbn [bt times app]. unfold chr.
  rewrite !N.eqb_refl. rewrite_digits.
  unfold accept. do 2 f_equal; [lia|]. f_equal.
  match goal with |- take ?n _ = _ => replace n with 8 by lia end. done.
Qed.

Lemma match_at_strip_inv pos s e g :
  match_at postal_strip_pattern pos s = Some (e, g) →
  ∃ rest, s = postal_mark :: rest.
Proof.
  unfold match_at. rewrite postal_strip_pattern_eq. cbn [bt times].
  unfold chr. intros H. destruct s as [|c s]; [done|].
  destruct (N.eqb_spec c postal_mark) as [->|]; [|done].
  by exists s.
Qed.

Lemma match_at_strip_Some pos z rest :
  postal_digits z = true →
  match_at postal_strip_pattern pos (postal_mark :: z ++ rest)
  = Some (pos + 9 + run isspace rest, None).
Proof.
  intros (d1 & d2 & d3 & d4 & d5 & d6 & d7 & -> & ? & ? & ? & ? & ? & ? & ?)
    %postal_digits_inv.
  unfold match_at. rewrite postal_strip_pattern_eq. cbn [bt times app].
  unfold chr. rewrite !N.eqb_refl. rewrite_digits.
  rewrite rep_loop_accept. do 2 f_equal. lia.
Qed.

Lemma search_zip_Some html z :
  search_group zip_pattern html = Some z →
  ∃ pre post,
    html = pre ++ postal_mark :: z ++ post ∧ postal_digits z = true ∧
    ∀ pre' z' post',
      html = pre' ++ postal_mark :: z' ++ post' → postal_digits z' = true →
      length pre ≤ length pre'.
Proof.
  unfold search_group, re_search.
  destruct (search_from zip_pattern 0 html) as [[[st e] g]|] eqn:Hs; [|done].
  simpl. apply search_from_Some in Hs as (i & _ & Hi & Hm & Hmin).
  apply match_at_zip_inv in Hm as (z' & rest & Hd & Hz & _ & ->).
  intros [= ->]. exists (take i html), rest. split; [|split; [done|]].
  - by rewrite <- Hd, take_drop.
  - intros pre' z' post' Heq Hz'. rewrite length_take.
    destruct (Nat.le_gt_cases i (length pre')) as [|Hlt]; [lia|].
    specialize (Hmin _ Hlt). rewrite Heq, drop_app_length in Hmin.
    by rewrite match_at_zip_Some in Hmin.
Qed.

Lemma search_zip_is_Some html pre z post :
  html = pre ++ postal_mark :: z ++ post → postal_digits z = true →
  is_Some (search_group zip_pattern html).
Proof.
  intros -> Hz. unfold search_group, re_search.
  destruct (search_from zip_pattern 0 _) as [[[st e] g]|] eqn:Hs.
  - apply search_from_Some in Hs as (i & _ & Hi & Hm & Hmin).
    apply match_at_zip_inv in Hm as (z' & rest & Hd & Hz' & _ & ->). by eexists.
  - rewrite search_from_None in Hs. specialize (Hs (length pre)).
    rewrite drop_app_length, match_at_zip_Some in Hs by done.
    discriminate Hs. rewrite length_app. lia.
Qed.

Lemma lstrip_elem c s : c ∈ lstrip s → c ∈ s.
Proof.
  rewrite lstrip_drop. intros H. rewrite <- (take_drop (run isspace s) s).
  apply elem_of_app. by right.
Qed.

(** One postal code in the address: it goes, with the whitespace after it. *)
Lemma re_sub_postal_one pre z post :
  postal_digits z = true → postal_mark ∉ pre → postal_mark ∉ post →
  re_sub postal_strip_pattern [] (pre ++ postal_mark :: z ++ post)
  = pre ++ lstrip post.
Proof.
  intros Hz Hpre Hpost. unfold re_sub.
  assert (length z = 8) as Hlen.
  { apply postal_digits_inv in Hz as (?&?&?&?&?&?&?&->&_). done. }
  rewrite sub_from_copy; [|lia|]. 2:{
    intros i Hi. destruct (match_at _ _ _) as [[e g]|] eqn:Hm; [|done].
    apply match_at_strip_inv in Hm as [rest Hm]. exfalso. apply Hpre.
    apply list_elem_of_lookup. exists i.
    rewrite <- (lookup_app_l _ (postal_mark :: z ++ post)) by done.
    rewrite <- (Nat.add_0_r i), <- lookup_drop, Hm. done. }
  f_equal.
  erewrite sub_from_match;
    [|rewrite !length_app; simpl; rewrite length_app; lia
     |by apply match_at_strip_Some|lia].
  cbn [app].
  replace (0 + length pre + 9 + run isspace post - (0 + length pre))
    with (S (8 + run isspace post)) by lia.
  cbn [drop]. rewrite <- drop_drop, <- Hlen, drop_app_length, <- lstrip_drop.
  apply sub_from_id.
  - pose proof (run_le isspace post). rewrite lstrip_drop, length_drop.
    rewrite !length_app. simpl. rewrite length_app. lia.
  - intros i Hi. destruct (match_at _ _ _) as [[e g]|] eqn:Hm; [|done].
    apply match_at_strip_inv in Hm as [rest Hm]. exfalso. apply Hpost.
    apply lstrip_elem, list_elem_of_lookup. exists i.
    rewrite <- (Nat.add_0_r i), <- lookup_drop, Hm. done.
Qed.

End ExtractFacts.

(** ** Link discovery *)

Module LinkFacts.
Import Scrape ReFacts.

Lemma link_pattern_eq :
  link_pattern =
  Cat (lit "href=")
    (Cat (Cls (chr dquote))
       (Cat (Grp (Cat (lit "/alllist/")
                    (Cat (plus true (notchr dquote))
                       (Cat (lit "/")
                          (Cat (plus true (notchr dquote)) (lit "/"))))))
            (Cls (chr dquote)))).
Proof. reflexivity. Qed.

(** What a match of the link pattern captures. *)
Lemma match_at_link pos s e g :
  match_at link_pattern pos s = Some (e, g) →
  ∃ category item,
    g = Some (py "/alllist/" ++ category ++ py "/" ++ item ++ py "/") ∧
    category ≠ [] ∧ item ≠ [] ∧ (dquote ∉ category) ∧ (dquote ∉ item).
Proof.
  unfold match_at. rewrite link_pattern_eq.
  set (inner := Cat (lit "/alllist/") _). cbn [bt]. intros H.
  apply bt_lang in H as (n1 & g1 & _ & _ & H).
  destruct (drop n1 s) as [|c s1]; [done|]. destruct (chr dquote c); [|done].
  apply bt_lang in H as (n & g2 & _ & Hl & H).
  destruct (drop n s1) as [|c' s2]; [done|]. destruct (chr dquote c'); [|done].
  injection H as _ <-.
  match goal with |- context [take ?m s1] => replace m with n by lia end.
  revert Hl. generalize (take n s1). subst inner. clear. intros w Hl.
  inversion Hl as [| | |? ? w1 w2 H1 H2| | | |]; subst. clear Hl.
  apply lang_lit in H1 as ->.
  inversion H2 as [| | |? ? w1 w3 H1 H3| | | |]; subst. clear H2.
  apply lang_plus in H1 as [Hne1 Hq1].
  inversion H3 as [| | |? ? w2 w4 H2 H4| | | |]; subst. clear H3.
  apply lang_lit in H2 as ->.
  inversion H4 as [| | |? ? w2 w5 H2 H5| | | |]; subst. clear H4.
  apply lang_plus in H2 as [Hne2 Hq2]. apply lang_lit in H5 as ->.
  assert (∀ w, Forall (λ c, notchr dquote c = true) w → dquote ∉ w) as Hnq.
  { intros w HF Hin. rewrite Forall_forall in HF. specialize (HF _ Hin).
    unfold notchr in HF. by rewrite N.eqb_refl in HF. }
  exists w1, w2. split; [done|]. auto.
Qed.

Lemma elem_of_sorted_set l x : x ∈ sorted_set l ↔ x ∈ l.
Proof.
  unfold sorted_set. rewrite merge_sort_Permutation. apply elem_of_remove_dups.
Qed.

(** Every link returned has the shape [/alllist/A/B/] with [A] and [B] not
    empty and free of double quotes (not of slashes), and holds no image
    extension. *)
Lemma extract_links_shape html link :
  link ∈ extract_links html →
  (∃ category item,
     link = py "/alllist/" ++ category ++ py "/" ++ item ++ py "/" ∧
     category ≠ [] ∧ item ≠ [] ∧ (dquote ∉ category) ∧ (dquote ∉ item)) ∧
  Forall (λ ext, contains ext link = false) image_exts.
Proof.
  unfold extract_links. rewrite elem_of_sorted_set, list_elem_of_filter.
  intros [Hext Hin]. split.
  - apply findall_from_elem in Hin as (pos & s & e & g & Hm & ->).
    apply match_at_link in Hm as (A & B & -> & ?). by exists A, B.
  - apply Forall_forall. intros ext Hx.
    destruct (contains ext link) eqn:Hc; [|done]. exfalso. apply Hext.
    apply Is_true_true, existsb_exists. exists ext.
    split; [by apply list_elem_of_In|done].
Qed.

Lemma NoDup_extract_links html : NoDup (extract_links html).
Proof.
  unfold extract_links, sorted_set.
  rewrite merge_sort_Permutation. apply NoDup_remove_dups.
Qed.

Lemma str_le_total a : ∀ b, str_le a b ∨ str_le b a.
Proof.
  unfold str_le. induction a as [|x a IH]; intros [|y b]; simpl; auto.
  destruct (N.lt_trichotomy x y) as [Hlt|[->|Hgt]].
  - left. apply N.ltb_lt in Hlt. by rewrite Hlt.
  - rewrite N.ltb_irrefl, N.eqb_refl. simpl. apply IH.
  - right. apply N.ltb_lt in Hgt. by rewrite Hgt.
Qed.

#[local] Instance str_le_Total : Total str_le.
Proof. intros a b. apply str_le_total. Qed.

(** The links come out in the order of [sorted]. *)
Lemma extract_links_sorted html : Sorted str_le (extract_links html).
Proof. unfold extract_links, sorted_set. apply Sorted_merge_sort, _. Qed.

End LinkFacts.

(** ** The geocoder and the main loop *)

Module PipelineFacts.
Import Scrape Pipeline.

Lemma geocode_result_uncaught env out e :
  geocode_result env out = inl e → geocode_caught e = false.
Proof.
  unfold geocode_result. destruct (geocode_try env out) as [e'|r]; [|done].
  destruct (geocode_caught e') eqn:He; [done|]. by intros [= <-].
Qed.

Lemma geocode_result_malformed env out :
  json_loads env out = inl JSONDecodeError → geocode_result env out = inr None.
Proof. intros H. unfold geocode_result, geocode_try. by rewrite H. Qed.

Lemma geocode_result_empty env out :
  json_loads env out = inr (VList []) → geocode_result env out = inr None.
Proof. intros H. unfold geocode_result, geocode_try. by rewrite H. Qed.

Lemma geocode_result_null_lat env out d :
  json_loads env out = inr (VList [VDict d]) →
  dict_get d (py "lat") = Some VNone →
  geocode_result env out = inl TypeError.
Proof.
  intros H Hd. unfold geocode_result, geocode_try. rewrite H.
  cbn [truthy py_len index0 subscript length Nat.eqb negb Nat.ltb Nat.leb].
  by rewrite Hd.
Qed.

Lemma py_float_raises env v e :
  py_float env v = inl e → e = TypeError ∨ e = ValueError ∨ e = OverflowError.
Proof.
  unfold py_float. repeat case_match; intros [= <-]; auto.
Qed.

(** The exceptions that leave the [try] of [geocode_shrine]: those its body
    raises on well-formed JSON of an unexpected shape, and those of
    [json.loads] other than [JSONDecodeError]. *)
Lemma geocode_result_raises env out e :
  geocode_result env out = inl e →
  e = TypeError ∨ e = ValueError ∨ e = OverflowError ∨
  (json_loads env out = inl e ∧ e ≠ JSONDecodeError).
Proof.
  intros H. pose proof (geocode_result_uncaught _ _ _ H) as Hc.
  unfold geocode_result in H.
  destruct (geocode_try env out) as [e'|r] eqn:Ht; [|done].
  destruct (geocode_caught e'); [done|]. injection H as ->.
  unfold geocode_try in Ht.
  destruct (json_loads env out) as [e'|data] eqn:Hj.
  { injection Ht as ->. do 3 right. split; [done|]. by intros ->. }
  destruct (truthy data); [|done].
  destruct (py_len data) as [e'|n] eqn:Hlen.
  { destruct data; simplify_eq/=; auto. }
  destruct (Nat.ltb 0 n); [|done].
  destruct (index0 data) as [e'|first] eqn:Hi.
  { destruct data as [| | | |[|]|[|]|]; simplify_eq/=; auto. }
  destruct (subscript first (py "lat")) as [e'|lat] eqn:Hs.
  { unfold subscript in Hs.
    destruct first; simplify_eq/=; auto. repeat case_match; simplify_eq/=. }
  destruct (py_float env lat) as [e'|flat] eqn:Hf.
  { injection Ht as ->. apply py_float_raises in Hf. tauto. }
  destruct (subscript first (py "lon")) as [e'|lon] eqn:Hs'.
  { unfold subscript in Hs'.
    destruct first; simplify_eq/=; auto. repeat case_match; simplify_eq/=. }
  destruct (py_float env lon) as [e'|flon] eqn:Hf'; [|done].
  injection Ht as ->. apply py_float_raises in Hf'. tauto.
Qed.

Lemma geocode_shrine_fst env name st :
  fst (geocode_shrine env name st) = geocode_outcome env (now st) name.
Proof.
  unfold geocode_shrine, geocode_outcome.
  destruct (Nat.eqb (length name) 0); [reflexivity|].
  unfold bind, note_geocode_call, run, lift. simpl.
  destruct (subprocess_run env _) as [e|cp]; [reflexivity|].
  by destruct (geocode_result env (stdout cp)) as [e|r].
Qed.

Lemma geocode_shrine_shrines env name st :
  shrines (snd (geocode_shrine env name st)) = shrines st ∧
  shrine_id (snd (geocode_shrine env name st)) = shrine_id st.
Proof.
  unfold geocode_shrine. destruct (Nat.eqb (length name) 0); [by split|].
  unfold bind, note_geocode_call, run, lift. simpl.
  destruct (subprocess_run env _) as [e|cp]; [by split|].
  by destruct (geocode_result env (stdout cp)) as [e|r].
Qed.

Lemma visit_visited env link st :
  visited env link st (snd (try_except (visit env link) st)).
Proof.
  cbv [try_except visit fetch bind run ret].
  destruct (subprocess_run env (now st) (fetch_argv (BASE_URL ++ link)))
    as [e|cp] eqn:Hf.
  { by eapply visit_fetch_raised. }
  cbn [stdout].
  destruct (has_name (extract_shrine_info (stdout cp))) eqn:Hn.
  2:{ by eapply visit_unnamed. }
  match goal with |- context [geocode_shrine env ?n ?s] =>
    pose proof (geocode_shrine_shrines env n s) as [Hs Hi];
    pose proof (geocode_shrine_fst env n s) as Hg;
    destruct (geocode_shrine env n s) as [[e|latlng] st1] eqn:Hgeo
  end; cbn [fst snd shrines shrine_id now] in *;
    fold (fetched_at env st link) in Hg.
  - eapply visit_geocode_raised; eauto.
  - eapply visit_appended; eauto; cbn; congruence.
Qed.

Lemma try_except_ok body st : fst (try_except body st) = inr tt.
Proof. unfold try_except. by destruct (body st) as [[e|[]] st']. Qed.

Lemma visit_all_ok env links : ∀ st, fst (visit_all env links st) = inr tt.
Proof.
  induction links as [|link rest IH]; intros st; [done|].
  cbn [visit_all]. unfold bind at 1.
  pose proof (try_except_ok (visit env link) st) as H.
  destruct (try_except (visit env link) st) as [[e|[]] st']; [done|]. apply IH.
Qed.

Lemma visit_all_visited env links : ∀ st,
  visited_all env links st (snd (visit_all env links st)).
Proof.
  induction links as [|link rest IH]; intros st; [constructor|].
  cbn [visit_all]. unfold bind at 1.
  pose proof (try_except_ok (visit env link) st) as H.
  pose proof (visit_visited env link st) as Hv.
  destruct (try_except (visit env link) st) as [[e|[]] st']; [done|].
  econstructor; [exact Hv|apply IH].
Qed.

Lemma run_main_cases env :
  (∃ e, subprocess_run env 0 (fetch_argv root_url) = inl e ∧
        fst (run_main env) = inl e)
  ∨ (∃ cp st,
        subprocess_run env 0 (fetch_argv root_url) = inr cp ∧
        visited_all env (extract_links (stdout cp)) st (snd (run_main env)) ∧
        shrines st = [] ∧ shrine_id st = 1%Z ∧
        fst (run_main env) = inr (shrines (snd (run_main env)))).
Proof.
  cbv [run_main main fetch bind run ret]. cbn [initial now].
  destruct (subprocess_run env 0 (fetch_argv root_url)) as [e|cp] eqn:Hf.
  { left. by exists e. }
  right.
  match goal with |- context [visit_all env ?l ?s] =>
    pose proof (visit_all_ok env l s) as Hok;
    pose proof (visit_all_visited env l s) as Hv;
    destruct (visit_all env l s) as [[e|[]] st'] eqn:Hall; [done|];
    exists cp, s
  end.
  cbn [fst snd shrines shrine_id stdout] in *. done.
Qed.

(** *** The records of the list *)

Lemma visited_numbered env link st st' :
  visited env link st st' → numbered env st → numbered env st'.
Proof.
  intros Hv [Hid Hrec].
  destruct Hv
    as [e ? Hs Hi|cp ? ? Hs Hi|cp e ? ? ? Hs Hi|cp latlng Hf Hn Hg Hs Hi].
  1-3: split; [by rewrite Hi, Hs|by rewrite Hs].
  split.
  - rewrite Hi, Hs, length_app, Hid. simpl. lia.
  - intros k r. rewrite Hs. intros [Hk|[Hk Hr]]%lookup_app_Some.
    + by apply Hrec.
    + destruct (k - length (shrines st)) as [|?] eqn:Hd; [|done].
      injection Hr as <-. assert (k = length (shrines st)) as -> by lia.
      exists link, (now st), cp, (fetched_at env st link), latlng.
      rewrite Hid. done.
Qed.

Lemma visited_all_numbered env links st st' :
  visited_all env links st st' → numbered env st → numbered env st'.
Proof.
  induction 1 as [|link rest st st1 st2 Hv _ IH]; [done|].
  intros H. by apply IH, (visited_numbered env link st).
Qed.

Lemma make_shrine_dom env id link info latlng :
  dom (make_shrine env id link info latlng) = list_to_set record_keys.
Proof. unfold make_shrine. rewrite !dom_insert_L, dom_empty_L. set_solver. Qed.

Lemma make_shrine_text env id link info latlng key :
  key ∈ text_keys →
  make_shrine env id link info latlng !! key
  = Some (VStr (get_or_empty info key)).
Proof.
  unfold text_keys. rewrite !elem_of_cons, elem_of_nil.
  intros H. unfold make_shrine.
  repeat (destruct H as [->|H]; [by simplify_map_eq|]). done.
Qed.

(** *** The clock *)

Lemma spaced_snoc d l t :
  spaced d l → (∀ a, last l = Some a → (a + d ≤ t)%N) → spaced d (l ++ [t]).
Proof.
  intros Hl Hlast i a b Ha Hb.
  apply lookup_app_Some in Hb as [Hb|[Hlen Hb]].
  - apply (Hl i a b); [|done].
    apply lookup_app_Some in Ha as [Ha|[Hlen _]]; [done|].
    apply lookup_lt_Some in Hb. lia.
  - destruct (S i - length l) as [|?] eqn:Hd; [|done]. injection Hb as <-.
    apply Hlast. assert (i = length l - 1) as -> by lia.
    rewrite lookup_app_l in Ha by lia. rewrite last_lookup.
    replace (pred (length l)) with (length l - 1) by lia. done.
Qed.

(** The turn of the loop when every request to the geocoder is answered
    without an exception. *)
Lemma visit_paced env link st :
  (∀ t name, ∃ r, geocode_outcome env t name = inr r) →
  paced st → paced (snd (try_except (visit env link) st)).
Proof.
  intros Hgeo [Hsp Hlast].
  cbv [try_except visit fetch bind run ret sleep].
  destruct (subprocess_run env (now st) (fetch_argv (BASE_URL ++ link)))
    as [e|cp].
  { split; [done|]. cbn [now geo_calls snd]. intros t Ht.
    specialize (Hlast t Ht). lia. }
  cbn [stdout].
  destruct (has_name (extract_shrine_info (stdout cp))) eqn:Hn.
  2:{ split; [done|]. cbn [now geo_calls snd]. intros t Ht.
      specialize (Hlast t Ht). lia. }
  set (name := get_or_empty (extract_shrine_info (stdout cp)) "name").
  destruct (Hgeo (fetched_at env st link) name) as [r Hr]. revert Hr.
  assert (Nat.eqb (length name) 0 = false) as Hlen.
  { unfold name, get_or_empty. unfold has_name in Hn.
    destruct (extract_shrine_info (stdout cp) !! "name") as [n|]; [|done].
    simpl. by apply negb_true_iff in Hn. }
  cbv [geocode_outcome geocode_shrine fetched_at]. rewrite Hlen.
  cbv [bind note_geocode_call run lift ret raise sleep append_shrine].
  cbn [now].
  destruct (subprocess_run env _ (geocode_argv (geocode_url env name)))
    as [e|cp']; [done|].
  intros ->. unfold paced. cbn [now geo_calls snd]. split.
  - apply spaced_snoc; [done|]. intros a Ha. specialize (Hlast a Ha).
    clear -Hlast. lia.
  - intros t. rewrite last_snoc. intros Heq. apply (inj Some) in Heq.
    rewrite <- Heq. clear. lia.
Qed.

Lemma visit_all_paced env links : ∀ st,
  (∀ t name, ∃ r, geocode_outcome env t name = inr r) →
  paced st → paced (snd (visit_all env links st)).
Proof.
  induction links as [|link rest IH]; intros st Hgeo Hp; [done|].
  cbn [visit_all]. unfold bind at 1.
  pose proof (try_except_ok (visit env link) st) as H.
  pose proof (visit_paced env link st Hgeo Hp) as Hp'.
  destruct (try_except (visit env link) st) as [[e|[]] st']; [done|].
  by apply IH.
Qed.

(** In a list spaced by [d], first and last are [(n - 1) * d] apart. *)
Lemma spaced_span d l a b :
  spaced d l → head l = Some a → last l = Some b →
  (a + N.of_nat (length l - 1) * d ≤ b)%N.
Proof.
  revert a; induction l as [|x l IH]; intros a Hsp Hh Hl; [done|].
  injection Hh as ->. destruct l as [|y l].
  - injection Hl as ->. simpl. lia.
  - assert (a + d ≤ y)%N as Hay by (by apply (Hsp 0 a y)).
    assert (y + N.of_nat (length (y :: l) - 1) * d ≤ b)%N as Hyb.
    { apply IH; [|done|done]. intros i u v Hu Hv. by apply (Hsp (S i) u v). }
    simpl in *. lia.
Qed.

(** A page that was fetched adds a record exactly when it has a name and the
    geocoder returns. *)
Lemma visit_appends_iff env link st cp :
  subprocess_run env (now st) (fetch_argv (BASE_URL ++ link)) = inr cp →
  let info := extract_shrine_info (stdout cp) in
  (∃ r, shrines (snd (try_except (visit env link) st)) = shrines st ++ [r])
  ↔ has_name info = true ∧
    ∃ latlng,
      geocode_outcome env (fetched_at env st link) (get_or_empty info "name")
      = inr latlng.
Proof.
  intros Hf info. subst info.
  destruct (visit_visited env link st)
    as [e Hf' Hs|cp' Hf' Hn Hs|cp' e Hf' Hn Hg Hs|cp' latlng Hf' Hn Hg Hs];
    rewrite Hf in Hf'; simplify_eq; rewrite Hs.
  - split.
    + intros [r Hr]. apply (f_equal length) in Hr.
      rewrite length_app in Hr. simpl in Hr. lia.
    + intros [? _]. congruence.
  - split.
    + intros [r Hr]. apply (f_equal length) in Hr.
      rewrite length_app in Hr. simpl in Hr. lia.
    + intros [_ [latlng ?]]. congruence.
  - split; [|by eexists]. intros _. split; [done|by eexists].
Qed.

(** When the geocoder always returns, its requests are a second apart. *)
Lemma run_main_paced env :
  (∀ t name, ∃ r, geocode_outcome env t name = inr r) →
  spaced 1000 (geo_calls (snd (run_main env))).
Proof.
  intros Hgeo. cbv [run_main main fetch bind run ret]. cbn [initial now].
  destruct (subprocess_run env 0 (fetch_argv root_url)) as [e|cp]; [done|].
  match goal with |- context [visit_all env ?l ?s] =>
    pose proof (visit_all_ok env l s) as Hok;
    assert (paced (snd (visit_all env l s))) as [Hp _];
    [apply visit_all_paced; [done|by split]|];
    destruct (visit_all env l s) as [[e|[]] st']; [done|]
  end.
  exact Hp.
Qed.

End PipelineFacts.

(** ** De-duplication *)

Module InfoGripFacts.
Import InfoGrip.
#[local] Set Warnings "-clear-no-such-hyp".

Lemma elem_of_drop_duplicates_from seen rows r :
  r ∈ drop_duplicates_from seen rows ↔ r ∈ rows ∧ r ∉ seen.
Proof.
  revert seen; induction rows as [|x rows IH]; intros seen; simpl.
  - rewrite elem_of_nil. naive_solver.
  - destruct (decide (x ∈ seen)) as [Hx|Hx].
    + rewrite IH, elem_of_cons. naive_solver.
    + rewrite !elem_of_cons, IH, elem_of_cons.
      destruct (decide (r = x)) as [->|]; naive_solver.
Qed.

Lemma NoDup_drop_duplicates_from seen rows :
  NoDup (drop_duplicates_from seen rows).
Proof.
  revert seen; induction rows as [|x rows IH]; intros seen; simpl.
  - constructor.
  - destruct (decide (x ∈ seen)); [apply IH|].
    constructor; [|apply IH].
    rewrite elem_of_drop_duplicates_from, elem_of_cons. naive_solver.
Qed.

Lemma drop_duplicates_from_id seen rows :
  NoDup rows → (∀ r, r ∈ rows → r ∉ seen) →
  drop_duplicates_from seen rows = rows.
Proof.
  revert seen; induction rows as [|x rows IH]; intros seen Hnd Hs; [done|].
  simpl. apply NoDup_cons in Hnd as [Hx Hnd].
  destruct (decide (x ∈ seen)) as [Hin|_].
  - exfalso. apply (Hs x); [left|done].
  - f_equal. apply IH; [done|]. intros r Hr [->|Hin]%elem_of_cons; [done|].
    apply (Hs r); [by right|done].
Qed.

Lemma sublist_drop_duplicates_from seen rows :
  sublist (drop_duplicates_from seen rows) rows.
Proof.
  revert seen; induction rows as [|x rows IH]; intros seen; simpl; [done|].
  destruct (decide (x ∈ seen)).
  - by apply sublist_cons.
  - by apply sublist_skip.
Qed.

Lemma drop_duplicates_from_snoc seen rows x :
  drop_duplicates_from seen (rows ++ [x]) =
  if decide (x ∈ seen ∨ x ∈ rows) then drop_duplicates_from seen rows
  else drop_duplicates_from seen rows ++ [x].
Proof.
  revert seen; induction rows as [|y rows IH]; intros seen; simpl.
  - destruct (decide (x ∈ seen)) as [Hx|Hx].
    + rewrite decide_True; [done|by left].
    + rewrite decide_False; [done|]. rewrite elem_of_nil. naive_solver.
  - destruct (decide (y ∈ seen)) as [Hy|Hy].
    + rewrite IH. destruct (decide (x ∈ seen ∨ x ∈ rows)) as [H|H].
      * rewrite decide_True; [done|]. rewrite elem_of_cons. naive_solver.
      * rewrite decide_False; [done|]. rewrite elem_of_cons.
        intros [?|[->|?]]; naive_solver.
    + rewrite IH. destruct (decide (x ∈ y :: seen ∨ x ∈ rows)) as [H|H].
      * rewrite decide_True; [done|]. rewrite !elem_of_cons in *. naive_solver.
      * rewrite decide_False; [done|]. rewrite !elem_of_cons in *. naive_solver.
Qed.

End InfoGripFacts.

(** ** Substrings and splitting *)

Module SubstringFacts.
Import Scrape ReFacts StrFacts InfoGrip TextScan.

(** *** Substrings *)

Lemma starts_with_app p s t :
  starts_with p s = true → starts_with p (s ++ t) = true.
Proof.
  revert s; induction p as [|a p IH]; intros [|b s]; simpl; try done.
  intros [-> ?]%andb_true_iff. simpl. by apply IH.
Qed.

Lemma starts_with_inv p s :
  starts_with p s = true → ∃ rest, s = p ++ rest.
Proof.
  revert s; induction p as [|a p IH]; intros s; simpl; [by exists s|].
  destruct s as [|b s]; [done|].
  intros [->%N.eqb_eq [rest ->]%IH]%andb_true_iff. by exists rest.
Qed.

Lemma starts_with_refl p rest : starts_with p (p ++ rest) = true.
Proof. induction p as [|a p IH]; simpl; [done|]. by rewrite N.eqb_refl. Qed.

(** [needle in s] holds exactly when [needle] starts at some offset. *)
Lemma contains_iff needle s :
  contains needle s = true ↔
  ∃ j, j ≤ length s ∧ starts_with needle (drop j s) = true.
Proof.
  induction s as [|c s IH]; simpl.
  - rewrite orb_false_r. split.
    + intros H. exists 0. by split.
    + intros (j & Hj & H). by destruct j.
  - rewrite orb_true_iff, IH. split.
    + intros [H|(j & Hj & H)]; [exists 0|exists (S j)]; split; simpl; (lia || done).
    + intros ([|j] & Hj & H); [by left|]. right. exists j. split; [lia|done].
Qed.

Lemma contains_drop needle n s :
  contains needle (drop n s) = true → contains needle s = true.
Proof.
  rewrite !contains_iff. intros (j & Hj & H). rewrite drop_drop in H.
  rewrite length_drop in Hj.
  destruct (decide (n ≤ length s)).
  - exists (n + j). split; [lia|done].
  - rewrite drop_ge in H by lia. exists (length s). split; [lia|].
    by rewrite drop_all.
Qed.

Lemma contains_take needle n s :
  contains needle (take n s) = true → contains needle s = true.
Proof.
  rewrite !contains_iff. intros (j & Hj & H). exists j.
  rewrite length_take in Hj. split; [lia|].
  rewrite <- (take_drop n s) at 1.
  rewrite drop_app_le by (rewrite length_take; lia).
  by apply starts_with_app.
Qed.

Lemma contains_strip needle s :
  contains needle (strip s) = true → contains needle s = true.
Proof.
  unfold strip. rewrite rstrip_take, lstrip_drop.
  intros H. by eapply contains_drop, contains_take.
Qed.

Lemma elem_of_strip c s : c ∈ strip s → c ∈ s.
Proof.
  unfold strip. rewrite rstrip_take, lstrip_drop.
  intros H. by eapply subseteq_drop, subseteq_take.
Qed.

(** *** Splitting *)

Lemma split_on_no_sep sep s : Forall (λ w, sep ∉ w) (split_on sep s).
Proof.
  induction s as [|c s IH]; simpl.
  - constructor; [apply not_elem_of_nil|constructor].
  - destruct (N.eqb_spec c sep) as [->|Hc].
    + constructor; [apply not_elem_of_nil|done].
    + destruct (split_on sep s) as [|w ws]; simpl.
      * constructor; [|constructor]. rewrite list_elem_of_singleton. congruence.
      * inversion IH as [|? ? Hw Hws]; subst. constructor; [|done].
        rewrite elem_of_cons. intros [->|?]; done.
Qed.

Lemma split_scan_skip sep x : ∀ s, split_scan sep (length x) (x ++ s) = split_scan sep 0 s.
Proof. induction x as [|c x IH]; intros s; simpl; [by destruct s|apply IH]. Qed.

(** The pieces of [s.split(sep)]: the text before the first separator, and
    the pieces of the text after it. *)
Lemma split_str_cases sep s :
  sep ≠ [] →
  (∃ w, split_str sep s = [w] ∧ s = w ∧ contains sep w = false)
  ∨ (∃ w rest, split_str sep s = w :: split_str sep rest ∧
               s = w ++ sep ++ rest ∧ contains sep w = false).
Proof.
  intros Hsep. unfold split_str. induction s as [|c s IH].
  - left. exists []. simpl. split; [done|]. split; [done|].
    destruct sep; [done|]. done.
  - cbn [split_scan]. destruct (starts_with sep (c :: s)) eqn:Hst.
    + right. apply starts_with_inv in Hst as [rest Hst].
      destruct sep as [|a sep]; [done|]. injection Hst as -> ->.
      exists [], rest. simpl. rewrite Nat.sub_0_r, split_scan_skip.
      split; [done|]. split; [done|]. done.
    + assert (∀ w, contains sep w = false → contains sep (c :: w) = true →
                   starts_with sep (c :: w) = true) as Hcons.
      { intros w Hw. simpl. rewrite Hw, orb_false_r. by destruct sep. }
      destruct IH as [(w & -> & -> & Hw)|(w & rest & -> & -> & Hw)].
      * left. exists (c :: w). split; [done|]. split; [done|].
        destruct (contains sep (c :: w)) eqn:Hc; [|done].
        apply Hcons in Hc; [|done]. congruence.
      * right. exists (c :: w), rest. split; [done|]. split; [done|].
        destruct (contains sep (c :: w)) eqn:Hc; [|done].
        apply Hcons in Hc; [|done].
        apply (starts_with_app _ _ (sep ++ rest)) in Hc. simpl in Hc, Hst.
        congruence.
Qed.

(** *** Literals *)

Lemma bt_lit {R} l : ∀ pos s g (k : nat → pystr → option pystr → option R),
  bt (lit_cps l) pos s g k =
  if starts_with l s then k (pos + length l) (drop (length l) s) g else None.
Proof.
  induction l as [|a l IH]; intros pos s g k; simpl.
  - by rewrite Nat.add_0_r.
  - destruct s as [|b s]; [done|]. unfold chr. rewrite (N.eqb_sym b a).
    destruct (a =? b)%N; [|done]. simpl. rewrite IH.
    by rewrite Nat.add_succ_r.
Qed.

Lemma match_at_lit l pos s :
  match_at (lit_cps l) pos s =
  if starts_with l s then Some (pos + length l, None) else None.
Proof. unfold match_at. by rewrite bt_lit. Qed.

(** [s.replace(a + a, '')] leaves no [a + a] behind, for a character [a]. *)
Lemma sub_pair_gone a : ∀ fuel pos s,
  length s < fuel →
  contains [a; a] (sub_from fuel (lit_cps [a; a]) [] pos s) = false ∧
  (starts_with [a] s = false →
   starts_with [a] (sub_from fuel (lit_cps [a; a]) [] pos s) = false).
Proof.
  induction fuel as [|fuel IH]; intros pos s Hf; [lia|].
  rewrite sub_from_S, match_at_lit. destruct s as [|c s]; [done|].
  destruct (starts_with [a; a] (c :: s)) eqn:Hst.
  - apply starts_with_inv in Hst as [rest [= -> ->]].
    destruct (Nat.ltb_spec pos (pos + length [a; a])) as [_|]; [|simpl in *; lia].
    replace (pos + length [a; a] - pos) with 2 by (simpl; lia).
    cbn [drop app]. simpl in Hf.
    destruct (IH (pos + length [a; a]) rest ltac:(lia)) as [H1 _].
    split; [done|]. simpl. by rewrite N.eqb_refl.
  - simpl in Hf. destruct (IH (S pos) s ltac:(lia)) as [H1 H2].
    cbn [contains]. rewrite H1, orb_false_r. split.
    + cbn [starts_with] in Hst |- *. destruct (a =? c)%N; [|done].
      simpl in *. rewrite H2; [done|]. destruct s as [|d s]; [done|].
      simpl in *. exact Hst.
    + simpl. by destruct (a =? c)%N.
Qed.

Lemma str_replace_pair_gone a s :
  contains [a; a] (str_replace [a; a] [] s) = false.
Proof. unfold str_replace, re_sub. apply sub_pair_gone. lia. Qed.

End SubstringFacts.

(** ** The text scan *)

Module TextFacts.
Import Scrape ReFacts StrFacts InfoGrip InfoGripFacts TextScan SubstringFacts.

#[local] Arguments isspace : simpl never.
#[local] Arguments isdecimal : simpl never.
#[local] Arguments N.eqb : simpl never.

(** *** Stripping *)

Lemma sublist_strip s : sublist (strip s) s.
Proof.
  unfold strip. rewrite rstrip_take, lstrip_drop.
  etrans; [apply sublist_take|apply sublist_drop].
Qed.

Lemma run_0 s : starts_space s = false → run isspace s = 0.
Proof. destruct s as [|c s]; simpl; [done|]. by intros ->. Qed.

(** A string without whitespace at its ends is its own [strip()]. *)
Lemma strip_of_trimmed s : trimmed s = true → strip s = s.
Proof.
  unfold trimmed, ends_space. intros [H1 H2]%andb_true_iff.
  apply negb_true_iff in H1, H2.
  unfold strip. rewrite lstrip_drop, (run_0 s H1), drop_0.
  rewrite rstrip_take, (run_0 _ H2), Nat.sub_0_r. apply firstn_all.
Qed.

(** *** Substitution by the empty string only deletes *)

Lemma sublist_sub_from r : ∀ fuel pos s, sublist (sub_from fuel r [] pos s) s.
Proof.
  induction fuel as [|fuel IH]; intros pos s; [done|].
  rewrite sub_from_S.
  assert (sublist match s with [] => [] | c :: s' => c :: sub_from fuel r [] (S pos) s' end s).
  { destruct s as [|c s]; [done|]. by apply sublist_skip. }
  destruct (match_at r pos s) as [[e g]|]; [|done]. simpl.
  destruct (Nat.ltb pos e); [|done].
  etrans; [apply IH|apply sublist_drop].
Qed.

Lemma sublist_re_sub r s : sublist (re_sub r [] s) s.
Proof. apply sublist_sub_from. Qed.

Lemma sublist_str_replace old s : sublist (str_replace old [] s) s.
Proof. apply sublist_sub_from. Qed.

(** *** The lines *)

Lemma lines_of_line text l :
  l ∈ lines_of text → l ≠ [] ∧ trimmed l = true ∧ (10%N ∉ l).
Proof.
  unfold lines_of. intros (w & -> & Hw)%list_elem_of_fmap.
  apply list_elem_of_filter in Hw as [Hne Hw].
  split; [done|]. split; [apply strip_trimmed|].
  intros Hin%elem_of_strip.
  pose proof (split_on_no_sep 10 text) as HF.
  rewrite Forall_forall in HF. by apply (HF w).
Qed.

Lemma contains_app_l needle s t :
  contains needle s = true → contains needle (s ++ t) = true.
Proof.
  intros H. apply (contains_take needle (length s)). by rewrite take_app_length.
Qed.

Lemma contains_app_l_false needle s t :
  contains needle (s ++ t) = false → contains needle s = false.
Proof.
  intros H. destruct (contains needle s) eqn:Hc; [|done].
  apply (contains_app_l _ _ t) in Hc. congruence.
Qed.

Lemma contains_strip_false needle s :
  contains needle s = false → contains needle (strip s) = false.
Proof.
  intros H. destruct (contains needle (strip s)) eqn:Hc; [|done].
  apply contains_strip in Hc. congruence.
Qed.

Lemma address_label_ne : address_label ≠ [].
Proof. done. Qed.

Lemma station_label_ne : station_label ≠ [].
Proof. done. Qed.

(** The second piece of a split, if there is one. *)
Lemma split_str_second (sep s after : pystr) :
  sep ≠ [] → split_str sep s !! 1 = Some after →
  ∃ pre post : pystr,
    split_str sep s !! 0 = Some pre ∧ s = pre ++ sep ++ after ++ post ∧
    contains sep pre = false ∧ contains sep after = false ∧
    (post = [] ∨ starts_with sep post = true).
Proof.
  intros Hsep. destruct (split_str_cases sep s Hsep)
    as [(w & -> & _ & _)|(pre & rest & -> & -> & Hpre)]; [done|].
  simpl. intros Hafter.
  destruct (split_str_cases sep rest Hsep)
    as [(w & Hw & -> & Hc)|(w & rest' & Hw & -> & Hc)];
    rewrite Hw in Hafter; injection Hafter as <-.
  - exists pre, []. rewrite app_nil_r. repeat split; auto.
  - exists pre, (sep ++ rest'). repeat split; auto.
    right. apply starts_with_refl.
Qed.

Lemma split_str_first (sep s w : pystr) :
  sep ≠ [] → split_str sep s !! 0 = Some w →
  ∃ post, s = w ++ post ∧ contains sep w = false ∧
          (post = [] ∨ starts_with sep post = true).
Proof.
  intros Hsep. destruct (split_str_cases sep s Hsep)
    as [(w' & -> & -> & Hc)|(w' & rest & -> & -> & Hc)]; intros [= <-].
  - exists []. by rewrite app_nil_r; auto.
  - exists (sep ++ rest). repeat split; auto. right. apply starts_with_refl.
Qed.

Lemma line_before_cases lines i other x :
  line_before lines i other = Some x →
  x = other ∨ (0 < i ∧ lines !! (i - 1) = Some x).
Proof.
  unfold line_before. destruct (Nat.ltb_spec 0 i); [by right|].
  intros [= <-]. by left.
Qed.

Lemma tt_eq : py "tt" = [116; 116]%N.
Proof. reflexivity. Qed.

(** What a line gives when it gives a row. *)
Lemma scan_line_Some lines i line name address :
  scan_line lines i line = Some (name, address) →
  contains address_label line = true ∧
  (∃ pre mid post,
     line = pre ++ address_label ++ mid ++ post ∧ address = strip mid ∧
     contains address_label pre = false ∧
     contains address_label mid = false ∧ contains station_label mid = false ∧
     (post = [] ∨ starts_with address_label post = true
      ∨ starts_with station_label post = true) ∧
     (sublist name pre
      ∨ ∃ prev, 0 < i ∧ lines !! (i - 1) = Some prev ∧ sublist name prev)) ∧
  name ≠ [] ∧ address ≠ [] ∧ length name < 30 ∧ trimmed name = true ∧
  contains (py "tt") name = false.
Proof.
  unfold scan_line. destruct (contains address_label line) eqn:Hlabel; [|done].
  destruct (split_str address_label line !! 1) as [after|] eqn:Hafter; [|done].
  apply split_str_second in Hafter
    as (pre & post & Hpre & Hline & Hcpre & Hcafter & Hpost);
    [|apply address_label_ne].
  rewrite Hpre.
  cbn [mbind option_bind].
  destruct (split_str station_label after !! 0) as [mid|] eqn:Hmid; [|done].
  cbn [mbind option_bind].
  apply split_str_first in Hmid as (post' & -> & Hcmid & Hpost');
    [|apply station_label_ne].
  set (first := if bool_decide (strip pre = []) || bool_decide (strip pre = py "tt")
                then line_before lines i [] else Some (strip pre)).
  destruct first as [name_part|] eqn:Hfirst; [|done]. cbn [mbind option_bind].
  set (clean2 := re_sub number_pattern [] (re_sub tt_pattern [] name_part)).
  set (second := if contains (py "・") clean2 && Nat.ltb (length clean2) 10
                 then line_before lines i clean2 else Some clean2).
  destruct second as [clean3|] eqn:Hsecond; [|done]. cbn [mbind option_bind].
  set (final := strip (str_replace (py "tt") [] clean3)).
  destruct (Nat.eqb_spec (length final) 0) as [|Hname]; [done|].
  destruct (Nat.eqb_spec (length (strip mid)) 0) as [|Haddr]; [done|].
  destruct (Nat.ltb_spec (length final) 30) as [Hlen|]; [|done].
  cbn [negb andb]. intros [= <- <-].
  split; [done|]. split; [|split; [|split; [|split; [|split]]]].
  - exists pre, mid, (post' ++ post). split; [by rewrite Hline, <- !app_assoc|].
    split; [done|]. split; [done|].
    split; [by apply contains_app_l_false in Hcafter|]. split; [done|].
    split.
    { destruct Hpost' as [->|Hst]; [|right; right; by apply starts_with_app].
      destruct Hpost as [->|Hst]; [by left|by right; left]. }
    assert (sublist final clean3) as H3.
    { etrans; [apply sublist_strip|apply sublist_str_replace]. }
    assert (sublist clean2 name_part) as H2.
    { etrans; apply sublist_re_sub. }
    assert (name_part = [] ∨ sublist name_part pre ∨
            (0 < i ∧ lines !! (i - 1) = Some name_part)) as H1.
    { subst first.
      destruct (bool_decide (strip pre = []) || bool_decide (strip pre = py "tt")).
      - apply line_before_cases in Hfirst as [->|?]; auto.
      - injection Hfirst as <-. right; left. apply sublist_strip. }
    assert (clean3 = clean2 ∨ (0 < i ∧ lines !! (i - 1) = Some clean3)) as H4.
    { subst second.
      destruct (contains (py "・") clean2 && Nat.ltb (length clean2) 10).
      - by apply line_before_cases in Hsecond.
      - injection Hsecond as <-. by left. }
    destruct H4 as [->|[Hi Hprev]]; [|right; by exists clean3].
    destruct H1 as [->|[H1|[Hi Hprev]]].
    + apply sublist_nil_r in H2. rewrite H2 in H3. apply sublist_nil_r in H3.
      by rewrite H3 in Hname.
    + left. by do 2 (etrans; [eassumption|]).
    + right. exists name_part. split; [done|]. split; [done|]. by etrans.
  - intros Hf. by rewrite Hf in Hname.
  - intros Hf. by rewrite Hf in Haddr.
  - done.
  - apply strip_trimmed.
  - apply contains_strip_false. rewrite tt_eq. apply str_replace_pair_gone.
Qed.

(** *** Occurrences across a boundary *)

(** An occurrence that starts in [u] and ends after it reads the first
    character of what follows at one of its own later positions. *)
Lemma starts_with_straddle sep : ∀ u c post,
  u ≠ [] → starts_with sep (u ++ c :: post) = true →
  starts_with sep u = false → c ∈ tail sep.
Proof.
  induction sep as [|a sep IH]; intros u c post Hu; [done|].
  destruct u as [|b u]; [done|]. simpl.
  intros [Hab H]%andb_true_iff. rewrite Hab. simpl. intros Hno.
  destruct u as [|b' u].
  - simpl in H. destruct sep as [|a' sep]; [done|]. simpl in H.
    apply andb_true_iff in H as [->%N.eqb_eq _]. apply list_elem_of_here.
  - destruct sep as [|a' sep]; [done|].
    apply list_elem_of_further. by apply (IH (b' :: u) c post).
Qed.

Lemma no_straddle sep w post :
  contains sep w = false →
  (post = [] ∨ ∃ c post', post = c :: post' ∧ c ∉ tail sep) →
  ∀ j, j < length w → starts_with sep (drop j (w ++ post)) = false.
Proof.
  intros Hw Hpost j Hj.
  destruct (starts_with sep (drop j (w ++ post))) eqn:Hst; [|done].
  rewrite drop_app_le in Hst by lia.
  assert (starts_with sep (drop j w) = false) as Hno.
  { destruct (starts_with sep (drop j w)) eqn:Hd; [|done].
    assert (contains sep w = true); [|congruence].
    apply contains_iff. exists j. split; [lia|done]. }
  destruct Hpost as [->|(c & post' & -> & Hc)].
  - rewrite app_nil_r in Hst. congruence.
  - exfalso. apply Hc. apply (starts_with_straddle sep (drop j w) c post'); auto.
    intros Hd. apply (f_equal length) in Hd. rewrite length_drop in Hd.
    simpl in Hd. lia.
Qed.

(** *** The pieces of a split, by first occurrences *)

Lemma split_str_app (sep w post : pystr) :
  sep ≠ [] →
  (∀ j, j < length w → starts_with sep (drop j (w ++ post)) = false) →
  split_str sep (w ++ post) =
  match split_str sep post with
  | w' :: ws => (w ++ w') :: ws
  | [] => [w]
  end.
Proof.
  intros Hsep. unfold split_str. induction w as [|c w IH]; intros Hno.
  - simpl. destruct (split_scan sep 0 post) eqn:Hs; [|done].
    destruct post; simpl in Hs; [done|].
    destruct (starts_with sep (n :: post)); [done|].
    by destruct (split_scan sep 0 post).
  - pose proof (Hno 0 ltac:(simpl; lia)) as H0. rewrite drop_0 in H0.
    cbn [app split_scan]. cbn [app] in H0. rewrite H0.
    rewrite IH.
    + by destruct (split_scan sep 0 post).
    + intros j Hj. apply (Hno (S j)). simpl. lia.
Qed.

Lemma split_str_sep (sep rest : pystr) :
  sep ≠ [] → split_str sep (sep ++ rest) = [] :: split_str sep rest.
Proof.
  intros Hsep. unfold split_str. destruct sep as [|a sep]; [done|].
  cbn [app split_scan]. change (a :: sep ++ rest) with ((a :: sep) ++ rest).
  rewrite starts_with_refl. simpl. by rewrite Nat.sub_0_r, split_scan_skip.
Qed.

Lemma split_str_nil (sep : pystr) : split_str sep [] = [[]].
Proof. done. Qed.

(** *** The two labels *)

Lemma address_label_eq : address_label = [25152; 22312; 22320; 65306]%N.
Proof. reflexivity. Qed.

Lemma station_label_eq : station_label = [26368; 23492; 12426; 39365]%N.
Proof. reflexivity. Qed.

(** Neither label can begin inside an occurrence of itself or of the
    other. *)
Lemma label_boundary (sep post : pystr) :
  sep = address_label ∨ sep = station_label →
  post = [] ∨ starts_with station_label post = true
  ∨ starts_with address_label post = true →
  post = [] ∨ ∃ c post', post = c :: post' ∧ c ∉ tail sep.
Proof.
  intros Hsep [->|[H|H]]; [by left| |]; right;
    apply starts_with_inv in H as [rest ->].
  - exists 26368%N, ([23492; 12426; 39365]%N ++ rest). split; [done|].
    destruct Hsep as [-> | ->]; by apply (bool_decide_unpack _).
  - exists 25152%N, ([22312; 22320; 65306]%N ++ rest). split; [done|].
    destruct Hsep as [-> | ->]; by apply (bool_decide_unpack _).
Qed.

(** The station label holds no beginning of the address label. *)
Lemma station_no_address rest j :
  j < length station_label →
  starts_with address_label (drop j (station_label ++ rest)) = false.
Proof.
  rewrite station_label_eq, address_label_eq. intros Hj.
  do 4 (destruct j as [|j]; [done|]). simpl in Hj. lia.
Qed.

(** The text between the first address label and the next label. *)
Lemma split_labels (pre mid rest : pystr) :
  contains address_label pre = false →
  contains address_label mid = false → contains station_label mid = false →
  (rest = [] ∨ starts_with station_label rest = true
   ∨ starts_with address_label rest = true) →
  ∃ after,
    split_str address_label (pre ++ address_label ++ mid ++ rest) !! 0 = Some pre ∧
    split_str address_label (pre ++ address_label ++ mid ++ rest) !! 1 = Some after ∧
    split_str station_label after !! 0 = Some mid.
Proof.
  intros Hpre Hmid Hmid' Hrest.
  assert (split_str address_label (pre ++ address_label ++ mid ++ rest)
          = pre :: split_str address_label (mid ++ rest)) as ->.
  { rewrite split_str_app, split_str_sep, ?app_nil_r;
      [done|apply address_label_ne|apply address_label_ne|].
    apply no_straddle; [done|]. apply label_boundary; [by left|].
    right; right. apply starts_with_refl. }
  assert (∃ x ws, split_str address_label (mid ++ rest) = (mid ++ x) :: ws ∧
                  (x = [] ∨ starts_with station_label x = true))
    as (x & ws & -> & Hx).
  { rewrite split_str_app; [|apply address_label_ne|];
      [|apply no_straddle; [done|by apply label_boundary; [left|]]].
    destruct Hrest as [->|[H|H]].
    - exists [], []. by split; [|left].
    - apply starts_with_inv in H as [r ->].
      rewrite split_str_app;
        [|apply address_label_ne|intros j Hj; by apply station_no_address].
      destruct (split_str address_label r) as [|w' ws]; eexists _, _;
        (split; [done|]); right.
      + rewrite <- (app_nil_r station_label). apply starts_with_refl.
      + apply starts_with_refl.
    - apply starts_with_inv in H as [r ->].
      rewrite split_str_sep by apply address_label_ne. eexists [], _.
      by split; [|left]. }
  exists (mid ++ x). split; [done|]. split; [done|].
  rewrite split_str_app; [|apply station_label_ne|].
  - destruct Hx as [->|H]; [by rewrite split_str_nil, app_nil_r|].
    apply starts_with_inv in H as [r ->].
    rewrite split_str_sep by apply station_label_ne. by rewrite app_nil_r.
  - apply no_straddle; [done|]. apply label_boundary; [by right|].
    destruct Hx as [->|H]; [by left|]. by right; left.
Qed.

(** *** Names that the cleaning steps leave alone *)

Lemma contains_false_drop needle s i :
  contains needle s = false → starts_with needle (drop i s) = false.
Proof.
  intros H. destruct (starts_with needle (drop i s)) eqn:Hst; [|done].
  assert (contains needle s = true); [|congruence].
  destruct (decide (i ≤ length s)).
  - apply contains_iff. by exists i.
  - rewrite drop_ge in Hst by lia. apply contains_iff. exists (length s).
    by rewrite drop_all.
Qed.

Lemma re_sub_lit_prefix l r repl s :
  contains l s = false → re_sub (Cat (lit_cps l) r) repl s = s.
Proof.
  intros H. apply sub_from_id; [lia|]. intros i _.
  unfold match_at. cbn [bt]. by rewrite bt_lit, contains_false_drop.
Qed.

Lemma str_replace_id l s : contains l s = false → str_replace l [] s = s.
Proof.
  intros H. apply sub_from_id; [lia|]. intros i _.
  by rewrite match_at_lit, contains_false_drop.
Qed.

Lemma clean_name_id name :
  contains (py "tt") name = false → contains (py "(") name = false →
  re_sub number_pattern [] (re_sub tt_pattern [] name) = name.
Proof.
  intros Htt Hparen. unfold tt_pattern, number_pattern, lit. cbn [seq].
  rewrite (re_sub_lit_prefix (py "tt")) by done.
  by rewrite re_sub_lit_prefix.
Qed.

(** A line with its name before the address label gives the row of that
    name and the address after the label. *)
Lemma scan_line_named lines i (pre mid rest : pystr) :
  contains address_label pre = false →
  contains address_label mid = false → contains station_label mid = false →
  (rest = [] ∨ starts_with station_label rest = true
   ∨ starts_with address_label rest = true) →
  strip pre ≠ [] → length (strip pre) < 30 →
  contains (py "tt") (strip pre) = false →
  contains (py "(") (strip pre) = false →
  (contains (py "・") (strip pre) = false ∨ 10 ≤ length (strip pre)) →
  strip mid ≠ [] →
  scan_line lines i (pre ++ address_label ++ mid ++ rest)
  = Some (strip pre, strip mid).
Proof.
  intros Hpre Hmid Hmid' Hrest Hname Hlen Htt Hparen Hdot Haddr.
  destruct (split_labels pre mid rest) as (after & H0 & H1 & H2); auto.
  unfold scan_line.
  assert (contains address_label (pre ++ address_label ++ mid ++ rest) = true)
    as ->.
  { apply contains_iff. exists (length pre).
    rewrite length_app, drop_app_length. split; [lia|apply starts_with_refl]. }
  rewrite H1, H0. cbn [mbind option_bind]. rewrite H2. cbn [mbind option_bind].
  rewrite (bool_decide_eq_false_2 (strip pre = [])) by done.
  rewrite (bool_decide_eq_false_2 (strip pre = py "tt")).
  2:{ intros Heq. by rewrite Heq in Htt. }
  cbn [orb mbind option_bind]. rewrite clean_name_id by done.
  assert (contains (py "・") (strip pre) && (length (strip pre) <? 10) = false)
    as ->.
  { destruct Hdot as [->|Hdot]; [done|].
    destruct (Nat.ltb_spec (length (strip pre)) 10); [lia|]. apply andb_false_r. }
  cbn [mbind option_bind]. rewrite str_replace_id by done.
  rewrite (strip_of_trimmed (strip pre)) by apply strip_trimmed.
  destruct (Nat.eqb_spec (length (strip pre)) 0) as [Hz|_].
  { by apply length_zero_iff_nil in Hz. }
  destruct (Nat.eqb_spec (length (strip mid)) 0) as [Hz|_].
  { by apply length_zero_iff_nil in Hz. }
  by destruct (Nat.ltb_spec (length (strip pre)) 30); [|lia].
Qed.

(** A line that begins with the address label takes its name from the line
    before it. *)
Lemma scan_line_previous lines i (pre mid rest prev : pystr) :
  contains address_label pre = false →
  contains address_label mid = false → contains station_label mid = false →
  (rest = [] ∨ starts_with station_label rest = true
   ∨ starts_with address_label rest = true) →
  strip pre = [] ∨ strip pre = py "tt" →
  0 < i → lines !! (i - 1) = Some prev →
  strip prev ≠ [] → length (strip prev) < 30 →
  contains (py "tt") prev = false → contains (py "(") prev = false →
  strip mid ≠ [] →
  scan_line lines i (pre ++ address_label ++ mid ++ rest)
  = Some (strip prev, strip mid).
Proof.
  intros Hpre Hmid Hmid' Hrest Hempty Hi Hprev Hname Hlen Htt Hparen Haddr.
  destruct (split_labels pre mid rest) as (after & H0 & H1 & H2); auto.
  unfold scan_line.
  assert (contains address_label (pre ++ address_label ++ mid ++ rest) = true)
    as ->.
  { apply contains_iff. exists (length pre).
    rewrite length_app, drop_app_length. split; [lia|apply starts_with_refl]. }
  rewrite H1, H0. cbn [mbind option_bind]. rewrite H2. cbn [mbind option_bind].
  assert (bool_decide (strip pre = []) || bool_decide (strip pre = py "tt")
          = true) as ->.
  { destruct Hempty as [-> | ->]; [done|]. apply orb_true_r. }
  assert (∀ other, line_before lines i other = Some prev) as Hbefore.
  { intros other. unfold line_before.
    by destruct (Nat.ltb_spec 0 i); [|lia]. }
  rewrite Hbefore. cbn [mbind option_bind]. rewrite clean_name_id by done.
  assert ((if contains (py "・") prev && (length prev <? 10)
           then line_before lines i prev else Some prev) = Some prev) as ->.
  { rewrite Hbefore. by destruct (_ && _). }
  cbn [mbind option_bind]. rewrite str_replace_id by done.
  destruct (Nat.eqb_spec (length (strip prev)) 0) as [Hz|_].
  { by apply length_zero_iff_nil in Hz. }
  destruct (Nat.eqb_spec (length (strip mid)) 0) as [Hz|_].
  { by apply length_zero_iff_nil in Hz. }
  by destruct (Nat.ltb_spec (length (strip prev)) 30); [|lia].
Qed.

(** *** The rows of a text *)

Lemma elem_of_shrine_list lines r :
  r ∈ shrine_list lines ↔
  ∃ i line, lines !! i = Some line ∧ scan_line lines i line = Some r.
Proof.
  unfold shrine_list. rewrite list_elem_of_omap. split.
  - intros (o & Ho & Hr). apply elem_of_lookup_imap in Ho as (i & line & -> & Hl).
    by exists i, line.
  - intros (i & line & Hl & Hr). exists (Some r). split; [|done].
    apply elem_of_lookup_imap. by exists i, line.
Qed.

Lemma saved_rows_Some l rows :
  saved_rows l = Some rows →
  rows ≠ [] ∧ NoDup rows ∧ sublist rows l ∧ ∀ r, r ∈ rows ↔ r ∈ l.
Proof.
  unfold saved_rows, drop_duplicates. destruct l as [|r0 l]; [done|].
  intros Heq.
  assert (rows = drop_duplicates_from [] (r0 :: l)) as -> by congruence.
  clear Heq. split; [|split; [|split]].
  - simpl. destruct (decide (r0 ∈ [])) as [H|_]; [by apply elem_of_nil in H|done].
  - apply NoDup_drop_duplicates_from.
  - apply sublist_drop_duplicates_from.
  - intros r. rewrite elem_of_drop_duplicates_from. split; [by intros [? _]|].
    intros H. split; [done|]. apply not_elem_of_nil.
Qed.

Lemma saved_rows_None l : saved_rows l = None ↔ l = [].
Proof. by destruct l. Qed.

Lemma scrape_rows text rows r :
  scrape_shrines_v4 text = Some rows →
  r ∈ rows ↔
  ∃ i line, lines_of text !! i = Some line ∧
            scan_line (lines_of text) i line = Some r.
Proof.
  unfold scrape_shrines_v4. intros (_ & _ & _ & H)%saved_rows_Some.
  by rewrite H, elem_of_shrine_list.
Qed.

Lemma scrape_saves text r :
  r ∈ shrine_list (lines_of text) →
  ∃ rows, scrape_shrines_v4 text = Some rows ∧ r ∈ rows.
Proof.
  intros Hr. unfold scrape_shrines_v4.
  destruct (saved_rows (shrine_list (lines_of text))) as [rows|] eqn:Hs.
  - exists rows. split; [done|]. apply saved_rows_Some in Hs as (_ & _ & _ & H).
    by apply H.
  - apply saved_rows_None in Hs. rewrite Hs in Hr. by apply elem_of_nil in Hr.
Qed.

Lemma not_elem_of_sublist (c : N) (s t : pystr) : sublist s t → c ∉ t → c ∉ s.
Proof. intros Hst Hc Hin. apply Hc. by eapply sublist_submseteq, elem_of_submseteq in Hst. Qed.

Lemma row_line text rows name address :
  scrape_shrines_v4 text = Some rows → (name, address) ∈ rows →
  ∃ i line, lines_of text !! i = Some line ∧ line ∈ lines_of text ∧
            scan_line (lines_of text) i line = Some (name, address).
Proof.
  intros Hs Hr. apply (scrape_rows text rows _ Hs) in Hr as (i & line & Hl & Hr).
  exists i, line. split; [done|]. split; [|done].
  by eapply list_elem_of_lookup_2.
Qed.

End TextFacts.

(** ** The cells of a detail page *)

Module CellFacts.
Import Scrape ReFacts StrFacts ExtractFacts SubstringFacts TextFacts.

#[local] Arguments isspace : simpl never.
#[local] Arguments isdecimal : simpl never.
#[local] Arguments N.eqb : simpl never.

(** *** Runs *)

Lemma run_app p w rest :
  Forall (λ c, p c = true) w →
  (rest = [] ∨ ∃ c rest', rest = c :: rest' ∧ p c = false) →
  run p (w ++ rest) = length w.
Proof.
  intros Hw Hrest. induction Hw as [|c w Hc Hw IH]; simpl.
  - destruct Hrest as [->|(c & rest' & -> & Hc)]; [done|]. simpl. by rewrite Hc.
  - by rewrite Hc, IH.
Qed.

(** A greedy repetition followed by something that cannot start with a
    character of its class takes the whole run. *)
Lemma rep_loop_run {R} p (k : nat → pystr → option R) pos w rest x :
  Forall (λ c, p c = true) w →
  (rest = [] ∨ ∃ c rest', rest = c :: rest' ∧ p c = false) →
  k (pos + length w) rest = Some x →
  rep_loop true p k pos (w ++ rest) = Some x.
Proof.
  intros Hw Hrest Hk. pose proof (run_app p w rest Hw Hrest) as Hrun.
  apply (rep_loop_greedy_last _ _ _ _ (length w)); [lia| |].
  - by rewrite drop_app_length.
  - intros m ??. lia.
Qed.

Lemma starts_with_app_split a b s :
  starts_with (a ++ b) s = starts_with a s && starts_with b (drop (length a) s).
Proof.
  revert s; induction a as [|c a IH]; intros s; simpl; [done|].
  destruct s as [|d s]; [done|]. simpl. by rewrite IH, andb_assoc.
Qed.

(** A pattern that begins with a literal matches only where the literal
    is. *)
Lemma match_at_lit_prefix l r pos s :
  starts_with l s = false → match_at (Cat (lit_cps l) r) pos s = None.
Proof. intros H. unfold match_at. cbn [bt]. by rewrite bt_lit, H. Qed.

Lemma bt_Cat {R} r1 r2 pos s g (k : nat → pystr → option pystr → option R) :
  bt (Cat r1 r2) pos s g k = bt r1 pos s g (λ pos' s' g', bt r2 pos' s' g' k).
Proof. reflexivity. Qed.

Lemma bt_lit_app {R} l rest pos g (k : nat → pystr → option pystr → option R) :
  bt (lit_cps l) pos (l ++ rest) g k = k (pos + length l) rest g.
Proof. by rewrite bt_lit, starts_with_refl, drop_app_length. Qed.

(** *** Self-overlap *)

(** An occurrence of [sep] that starts in [u] and ends after it, in a text
    that goes on with [sep], makes a suffix of [sep] a prefix of it. *)
Lemma starts_with_overlap sep : ∀ u rest,
  starts_with sep (u ++ sep ++ rest) = true → starts_with sep u = false →
  length u < length sep ∧ starts_with (drop (length u) sep) sep = true.
Proof.
  intros u rest H Hno.
  assert (∀ a b t, starts_with a (b ++ t) = true → starts_with a b = false →
                   length b < length a ∧ starts_with (drop (length b) a) t = true)
    as Haux.
  { induction a as [|c a IH]; intros b t; [done|].
    destruct b as [|d b]; simpl; [intros ? _; split; [lia|done]|].
    intros [Hcd H']%andb_true_iff. rewrite Hcd. simpl. intros Hn.
    destruct (IH b t H' Hn). split; [lia|done]. }
  destruct (Haux sep u (sep ++ rest) H Hno) as [Hlen Hst]. split; [done|].
  apply starts_with_inv in Hst as [t Ht].
  assert (∀ a b c d : pystr, a ++ b = c ++ d → length a ≤ length c →
                            starts_with a c = true) as Hpre.
  { induction a as [|x a IH]; intros b c d Heq Hl; [done|].
    destruct c as [|y c]; [simpl in Hl; lia|].
    injection Heq as -> Heq. simpl. rewrite N.eqb_refl. simpl.
    apply (IH b c d Heq). simpl in Hl. lia. }
  apply (Hpre _ t sep rest); [done|]. rewrite length_drop. lia.
Qed.

Lemma first_occurrence sep pre rest :
  contains sep pre = false →
  (∀ d, 0 < d → d < length sep → starts_with (drop d sep) sep = false) →
  ∀ j, j < length pre → starts_with sep (drop j (pre ++ sep ++ rest)) = false.
Proof.
  intros Hpre Hfree j Hj.
  destruct (starts_with sep (drop j (pre ++ sep ++ rest))) eqn:Hst; [|done].
  rewrite drop_app_le in Hst by lia.
  apply starts_with_overlap in Hst as [Hlen Hst].
  - rewrite Hfree in Hst; [done| |done]. rewrite length_drop. lia.
  - by apply contains_false_drop.
Qed.

Lemma border_free_spec sep d :
  border_free sep = true → 0 < d → d < length sep →
  starts_with (drop d sep) sep = false.
Proof.
  unfold border_free. rewrite forallb_forall. intros H Hd Hlen.
  apply negb_true_iff, H, in_seq. lia.
Qed.

(** The group [([^<]+)] at the end of a pattern takes the text up to the
    next [<]. *)
Lemma bt_value g0 pos (value rest : pystr) :
  value ≠ [] → (ch "<" ∉ value) →
  (rest = [] ∨ ∃ rest', rest = ch "<" :: rest') →
  bt (Grp (plus true (notchr (ch "<")))) pos (value ++ rest) g0 accept
  = Some (pos + length value, Some value).
Proof.
  intros Hne Hno Hrest. destruct value as [|v0 value]; [done|].
  assert (Forall (λ c, notchr (ch "<") c = true) (v0 :: value)) as HF.
  { apply Forall_forall. intros c Hc. unfold notchr.
    destruct (N.eqb_spec c (ch "<")) as [->|]; [done|done]. }
  inversion HF as [|? ? Hv0 HF']; subst.
  unfold plus. cbn [bt app]. rewrite Hv0.
  erewrite (rep_loop_run _ _ _ value rest); [reflexivity|done| |].
  - destruct Hrest as [->|[rest' ->]]; [by left|right].
    exists (ch "<"), rest'. split; [done|]. unfold notchr.
    by rewrite N.eqb_refl.
  - unfold accept. f_equal. f_equal; [simpl; lia|]. f_equal.
    replace (S pos + length value - pos) with (S (length value)) by lia.
    cbn [take]. f_equal. by rewrite take_app_length.
Qed.

(** The opening tag of the value cell, [\s*<td[^>]*>], then a rest. *)
Lemma bt_open_cell {R} (k : nat → pystr → option pystr → option R) r g pos
    (ws attrs rest : pystr) x :
  Forall (λ c, isspace c = true) ws → (ch ">" ∉ attrs) →
  bt r (pos + length ws + 3 + length attrs + 1) rest g k = Some x →
  bt (Cat (Rep true isspace)
        (Cat (lit "<td") (Cat (Rep true (notchr (ch ">"))) (Cat (lit ">") r))))
     pos (ws ++ py "<td" ++ attrs ++ py ">" ++ rest) g k = Some x.
Proof.
  intros Hws Hattrs Hk. cbn [bt].
  apply rep_loop_run; [done| |].
  { right. by exists 60%N, ([116; 100]%N ++ attrs ++ py ">" ++ rest). }
  unfold lit. rewrite bt_lit_app.
  apply rep_loop_run.
  - apply Forall_forall. intros c Hc. unfold notchr.
    destruct (N.eqb_spec c (ch ">")) as [->|]; [done|done].
  - right. exists (ch ">"), rest. split; [done|]. unfold notchr.
    by rewrite N.eqb_refl.
  - rewrite bt_lit_app. exact Hk.
Qed.

Lemma cell_pattern_eq label :
  cell_pattern label =
  Cat (lit "<td>") (Cat (lit label) (Cat (lit "</td>")
    (Cat (Rep true isspace)
       (Cat (lit "<td") (Cat (Rep true (notchr (ch ">"))) (Cat (lit ">")
          (Grp (plus true (notchr (ch "<")))))))))).
Proof. reflexivity. Qed.

Lemma match_at_cell label pos (ws attrs value rest : pystr) :
  Forall (λ c, isspace c = true) ws → (ch ">" ∉ attrs) →
  value ≠ [] → (ch "<" ∉ value) →
  (rest = [] ∨ ∃ rest', rest = ch "<" :: rest') →
  ∃ e, match_at (cell_pattern label) pos
         (label_cell label ++ ws ++ py "<td" ++ attrs ++ py ">" ++ value ++ rest)
       = Some (e, Some value).
Proof.
  intros Hws Hattrs Hne Hno Hrest. eexists.
  unfold match_at, label_cell. rewrite cell_pattern_eq. cbn [bt]. unfold lit.
  rewrite <- !app_assoc. rewrite !bt_lit_app.
  apply bt_open_cell; [done|done|]. by apply bt_value.
Qed.

Lemma match_at_cell_None label pos s :
  starts_with (label_cell label) s = false →
  match_at (cell_pattern label) pos s = None.
Proof.
  unfold label_cell. rewrite !starts_with_app_split, cell_pattern_eq.
  unfold match_at, lit. cbn [bt]. rewrite !bt_lit. intros H.
  destruct (starts_with (py "<td>") s); [|done].
  destruct (starts_with (py label) _); [|done].
  by destruct (starts_with (py "</td>") _).
Qed.

(** The value cell that follows the first label cell is what the rule
    finds. *)
Lemma search_cell label (pre ws attrs value rest : pystr) :
  contains (label_cell label) pre = false →
  border_free (label_cell label) = true →
  Forall (λ c, isspace c = true) ws → (ch ">" ∉ attrs) →
  value ≠ [] → (ch "<" ∉ value) →
  (rest = [] ∨ ∃ rest', rest = ch "<" :: rest') →
  stripped_cell (cell_pattern label)
    (pre ++ label_cell label ++ ws ++ py "<td" ++ attrs ++ py ">" ++ value
       ++ rest)
  = Some (strip value).
Proof.
  intros Hpre Hfree Hws Hattrs Hne Hno Hrest.
  destruct (match_at_cell label (0 + length pre) ws attrs value rest)
    as [e He]; auto.
  unfold stripped_cell, search_group, re_search.
  rewrite (search_from_first _ 0 _ (length pre) e (Some value)); [done| | |].
  - rewrite length_app. lia.
  - rewrite drop_app_length. exact He.
  - intros j Hj. apply match_at_cell_None.
    apply first_occurrence; [done| |done].
    intros d ??. by apply border_free_spec.
Qed.

Lemma name_pattern_eq :
  name_pattern =
  Cat (lit "<td>神社名</td>")
    (Cat (Rep true isspace)
       (Cat (lit "<td") (Cat (Rep true (notchr (ch ">"))) (Cat (lit ">")
          (Cat (Opt anchor_pattern) (Grp (plus true (notchr (ch "<"))))))))).
Proof. reflexivity. Qed.

Lemma name_cell_eq : py "<td>神社名</td>" = label_cell "神社名".
Proof. reflexivity. Qed.

(** The optional anchor tag before the name. *)
Lemma bt_anchor_value g0 pos (anchor value rest : pystr) :
  (anchor = [] ∨ ∃ attrs, anchor = py "<a" ++ attrs ++ py ">" ∧ (ch ">" ∉ attrs)) →
  value ≠ [] → (ch "<" ∉ value) →
  (rest = [] ∨ ∃ rest', rest = ch "<" :: rest') →
  ∃ e, bt (Cat (Opt anchor_pattern) (Grp (plus true (notchr (ch "<")))))
         pos (anchor ++ value ++ rest) g0 accept
       = Some (e, Some value).
Proof.
  intros Hanchor Hne Hno Hrest. cbn [bt].
  destruct Hanchor as [->|(attrs & -> & Hattrs)].
  - eexists. unfold anchor_pattern at 1, lit. cbn [bt app].
    rewrite bt_lit.
    assert (starts_with (py "<a") (value ++ rest) = false) as ->.
    { destruct value as [|v0 value]; [done|].
      change (py "<a") with [60; 97]%N. cbn [app starts_with].
      destruct (N.eqb_spec 60 v0) as [<-|]; [|done].
      exfalso. apply Hno. apply list_elem_of_here. }
    by apply bt_value.
  - eexists. unfold anchor_pattern, lit. cbn [bt].
    rewrite <- !app_assoc, bt_lit_app.
    erewrite rep_loop_run; [reflexivity| | |].
    + apply Forall_forall. intros c Hc. unfold notchr.
      destruct (N.eqb_spec c (ch ">")) as [->|]; [done|done].
    + right. exists (ch ">"), (value ++ rest). split; [done|]. unfold notchr.
      by rewrite N.eqb_refl.
    + rewrite bt_lit_app. by apply bt_value.
Qed.

Lemma search_name (pre ws attrs anchor value rest : pystr) :
  contains (label_cell "神社名") pre = false →
  Forall (λ c, isspace c = true) ws → (ch ">" ∉ attrs) →
  (anchor = [] ∨ ∃ attrs', anchor = py "<a" ++ attrs' ++ py ">" ∧ (ch ">" ∉ attrs')) →
  value ≠ [] → (ch "<" ∉ value) →
  (rest = [] ∨ ∃ rest', rest = ch "<" :: rest') →
  stripped_cell name_pattern
    (pre ++ label_cell "神社名" ++ ws ++ py "<td" ++ attrs ++ py ">" ++ anchor
       ++ value ++ rest)
  = Some (strip value).
Proof.
  intros Hpre Hws Hattrs Hanchor Hne Hno Hrest.
  destruct (bt_anchor_value None
              (0 + length pre + length (label_cell "神社名") + length ws + 3
               + length attrs + 1) anchor value rest) as [e He]; auto.
  unfold stripped_cell, search_group, re_search.
  rewrite (search_from_first _ 0 _ (length pre) e (Some value)); [done| | |].
  - rewrite length_app. lia.
  - rewrite drop_app_length. unfold match_at. rewrite name_pattern_eq.
    rewrite bt_Cat. unfold lit at 1. rewrite name_cell_eq, bt_lit_app.
    apply (bt_open_cell accept). 1,2: done. exact He.
  - intros j Hj. rewrite name_pattern_eq. apply match_at_lit_prefix.
    rewrite name_cell_eq. apply first_occurrence; [done| |done].
    intros d ??. by apply border_free_spec.
Qed.

(** *** A rule without its label cell finds nothing *)

Lemma search_from_lit_None l r s :
  contains l s = false → search_from (Cat (lit_cps l) r) 0 s = None.
Proof.
  intros H. apply search_from_None. intros i _.
  apply match_at_lit_prefix. by apply contains_false_drop.
Qed.

Lemma stripped_cell_absent label html :
  contains (label_cell label) html = false →
  stripped_cell (cell_pattern label) html = None.
Proof.
  intros H. unfold stripped_cell, search_group, re_search.
  assert (search_from (cell_pattern label) 0 html = None) as ->; [|done].
  apply search_from_None. intros i _. apply match_at_cell_None.
  by apply contains_false_drop.
Qed.

Lemma name_absent html :
  contains (label_cell "神社名") html = false →
  stripped_cell name_pattern html = None.
Proof.
  intros H. unfold stripped_cell, search_group, re_search.
  rewrite name_pattern_eq. unfold lit at 1. rewrite name_cell_eq.
  by rewrite search_from_lit_None.
Qed.

Lemma address_pattern_eq :
  address_pattern =
  Cat (lit_cps (label_cell "所在地"))
    (Cat (Rep true isspace)
       (Cat (lit "<td") (Cat (Rep true (notchr (ch ">"))) (Cat (lit ">")
          (Cat (Grp (Rep false dotall)) (lit "</td>")))))).
Proof. reflexivity. Qed.

Lemma address_absent html :
  contains (label_cell "所在地") html = false →
  search_group address_pattern html = None.
Proof.
  intros H. unfold search_group, re_search.
  by rewrite address_pattern_eq, search_from_lit_None.
Qed.

(** *** The captured value holds no [<] *)

Lemma bt_cat_inv {R} r1 r2 pos s g (k : nat → pystr → option pystr → option R) x :
  bt (Cat r1 r2) pos s g k = Some x →
  ∃ pos' s' g', bt r2 pos' s' g' k = Some x.
Proof. cbn [bt]. intros (n & g' & _ & H)%bt_sound. eauto. Qed.

Lemma bt_group_inv r pos s g e g' :
  bt (Grp r) pos s g accept = Some (e, g') →
  ∃ w, g' = Some w ∧ lang r w.
Proof.
  cbn [bt]. intros (n & g'' & Hn & Hl & H)%bt_lang.
  unfold accept in H. injection H as _ <-.
  replace (pos + n - pos) with n by lia. eauto.
Qed.

Lemma value_no_tag w :
  lang (plus true (notchr (ch "<"))) w → w ≠ [] ∧ (ch "<" ∉ w).
Proof.
  intros [Hne HF]%lang_plus. split; [done|]. intros Hin.
  rewrite Forall_forall in HF. specialize (HF _ Hin).
  unfold notchr in HF. by rewrite N.eqb_refl in HF.
Qed.

Lemma match_at_cell_value label pos s e g :
  match_at (cell_pattern label) pos s = Some (e, g) →
  ∃ w, g = Some w ∧ w ≠ [] ∧ (ch "<" ∉ w).
Proof.
  unfold match_at. rewrite cell_pattern_eq. intros H.
  do 7 apply bt_cat_inv in H as (? & ? & ? & H).
  apply bt_group_inv in H as (w & -> & Hw). exists w. split; [done|].
  by apply value_no_tag.
Qed.

Lemma match_at_name_value pos s e g :
  match_at name_pattern pos s = Some (e, g) →
  ∃ w, g = Some w ∧ w ≠ [] ∧ (ch "<" ∉ w).
Proof.
  unfold match_at. rewrite name_pattern_eq. intros H.
  do 6 apply bt_cat_inv in H as (? & ? & ? & H).
  apply bt_group_inv in H as (w & -> & Hw). exists w. split; [done|].
  by apply value_no_tag.
Qed.

Lemma stripped_cell_value r html v :
  (∀ pos s e g, match_at r pos s = Some (e, g) →
                ∃ w, g = Some w ∧ w ≠ [] ∧ (ch "<" ∉ w)) →
  stripped_cell r html = Some v →
  ∃ w, v = strip w ∧ w ≠ [] ∧ (ch "<" ∉ w).
Proof.
  intros Hr. unfold stripped_cell, search_group, re_search.
  destruct (search_from r 0 html) as [[[st e] g]|] eqn:Hs; [|done].
  apply search_from_Some in Hs as (i & _ & _ & Hm & _).
  apply Hr in Hm as (w & -> & Hne & Hno). simpl. intros [= <-]. eauto.
Qed.

Lemma dotall_Forall (w : pystr) : Forall (λ c, dotall c = true) w.
Proof. by apply Forall_forall. Qed.

(** The lazy group [(.*?)] before [</td>] takes the text up to the first
    [</td>]. *)
Lemma bt_cell_text g0 pos (cell rest : pystr) :
  contains cell_end cell = false →
  bt (Cat (Grp (Rep false dotall)) (lit "</td>")) pos
     (cell ++ cell_end ++ rest) g0 accept
  = Some (pos + length cell + 5, Some cell).
Proof.
  intros Hno. cbn [bt].
  apply (rep_loop_lazy_first _ _ _ _ (length cell)).
  - apply Forall_run; [rewrite length_app; lia|]. apply dotall_Forall.
  - rewrite drop_app_length. unfold lit. fold cell_end. rewrite bt_lit_app.
    unfold accept. do 2 f_equal.
    replace (pos + length cell - pos) with (length cell) by lia.
    by rewrite take_app_length.
  - intros m Hm. unfold lit. fold cell_end. rewrite bt_lit.
    rewrite first_occurrence; [done|done| |done].
    intros d ??. by apply (border_free_spec cell_end).
Qed.

Lemma search_address (pre ws attrs cell rest : pystr) :
  contains (label_cell "所在地") pre = false →
  Forall (λ c, isspace c = true) ws → (ch ">" ∉ attrs) →
  contains cell_end cell = false →
  search_group address_pattern
    (pre ++ label_cell "所在地" ++ ws ++ py "<td" ++ attrs ++ py ">" ++ cell
       ++ cell_end ++ rest)
  = Some cell.
Proof.
  intros Hpre Hws Hattrs Hcell. unfold search_group, re_search.
  rewrite (search_from_first _ 0 _ (length pre)
             (0 + length pre + length (label_cell "所在地") + length ws + 3
              + length attrs + 1 + length cell + 5) (Some cell)); [done| | |].
  - rewrite length_app. lia.
  - rewrite drop_app_length. unfold match_at. rewrite address_pattern_eq.
    rewrite bt_Cat, bt_lit_app. apply (bt_open_cell accept); [done|done|].
    by apply bt_cell_text.
  - intros j Hj. rewrite address_pattern_eq. apply match_at_lit_prefix.
    apply first_occurrence; [done| |done].
    intros d ??. by apply border_free_spec.
Qed.

(** *** Text that the cleaning steps leave alone *)

Lemma sub_spaces_id : ∀ fuel pos s,
  length s < fuel → single_spaced s = true →
  sub_from fuel spaces_pattern [32%N] pos s = s.
Proof.
  induction fuel as [|fuel IH]; intros pos s Hf Hs; [lia|].
  rewrite sub_from_S, match_at_spaces. destruct s as [|c s]; [done|].
  cbn [single_spaced] in Hs. apply andb_true_iff in Hs as [Hc Hs].
  cbn [length] in Hf. destruct (isspace c) eqn:Hsp.
  - apply andb_true_iff in Hc as [->%N.eqb_eq Hnext%negb_true_iff].
    rewrite run_0 by done.
    destruct (Nat.ltb_spec pos (S pos + 0)); [|lia].
    replace (S pos + 0 - pos) with 1 by lia. cbn [drop app]. f_equal.
    rewrite drop_0. apply IH; [lia|done].
  - f_equal. apply IH; [lia|done].
Qed.

Lemma tag_pattern_eq :
  tag_pattern = Cat (lit_cps (py "<")) (Cat (plus true (notchr (ch ">"))) (lit ">")).
Proof. reflexivity. Qed.

Lemma postal_strip_lit :
  postal_strip_pattern =
  Cat (lit_cps (py "〒"))
      (Cat (times 3 (Cls isdecimal))
           (Cat (lit "-") (Cat (times 4 (Cls isdecimal)) (Rep true isspace)))).
Proof. reflexivity. Qed.

Lemma clean_address_plain cell :
  contains (py "<") cell = false → contains (py "〒") cell = false →
  single_spaced cell = true → trimmed cell = true →
  clean_address cell = cell.
Proof.
  intros Htag Hmark Hsp Htrim. unfold clean_address.
  rewrite tag_pattern_eq, re_sub_lit_prefix by done.
  rewrite postal_strip_lit, re_sub_lit_prefix by done.
  unfold re_sub. change (py " ") with [32%N].
  rewrite sub_spaces_id; [|lia|done]. by apply strip_of_trimmed.
Qed.

(** *** The fields of the shared rule *)

Lemma cell_labels_field key label html :
  (key, label) ∈ cell_labels →
  extract_shrine_info html !! key = stripped_cell (cell_pattern label) html ∧
  border_free (label_cell label) = true.
Proof.
  unfold cell_labels. rewrite !elem_of_cons, elem_of_nil.
  intros [H|[H|[H|[H|[H|[]]]]]]; injection H as -> ->;
    (split; [rewrite extract_other by done|by vm_compute]).
  - apply labelled_reading.
  - apply labelled_province.
  - apply labelled_deity.
  - apply labelled_virtue.
  - apply labelled_tel.
Qed.

End CellFacts.

(** ** The order of the links *)

Module OrderFacts.
Import Scrape ReFacts LinkFacts.

Lemma str_le_trans a : ∀ b c, str_le a b → str_le b c → str_le a c.
Proof.
  unfold str_le. induction a as [|x a IH]; intros [|y b] [|z c]; simpl; try done.
  intros H1 H2. apply Is_true_true in H1, H2. apply Is_true_true.
  apply orb_true_iff in H1 as [H1|[H1 H1']%andb_true_iff];
    apply orb_true_iff in H2 as [H2|[H2 H2']%andb_true_iff];
    apply orb_true_iff.
  - left. apply N.ltb_lt in H1, H2. apply N.ltb_lt. lia.
  - left. apply N.ltb_lt in H1. apply N.eqb_eq in H2. apply N.ltb_lt. lia.
  - left. apply N.eqb_eq in H1. apply N.ltb_lt in H2. apply N.ltb_lt. lia.
  - right. apply N.eqb_eq in H1, H2. subst. rewrite N.eqb_refl. simpl.
    apply Is_true_true. apply (IH b c); by apply Is_true_true.
Qed.

Lemma StronglySorted_lookup_lt {A} (R : relation A) l i j a b :
  StronglySorted R l → i < j → l !! i = Some a → l !! j = Some b → R a b.
Proof.
  intros Hs. revert i j. induction Hs as [|x l Hs IH Hx]; intros i j Hij Ha Hb.
  { done. }
  destruct j as [|j]; [lia|]. simpl in Hb. destruct i as [|i].
  - injection Ha as <-. rewrite Forall_forall in Hx. apply Hx.
    by eapply list_elem_of_lookup_2.
  - simpl in Ha. apply (IH i j); [lia|done|done].
Qed.

(** The links come in strictly ascending order. *)
Lemma extract_links_ascending html i j a b :
  i < j → extract_links html !! i = Some a → extract_links html !! j = Some b →
  str_le a b ∧ a ≠ b.
Proof.
  intros Hij Ha Hb. split.
  - eapply (StronglySorted_lookup_lt str_le); [|exact Hij|exact Ha|exact Hb].
    apply Sorted_StronglySorted; [|apply extract_links_sorted].
    intros x y z. apply str_le_trans.
  - intros ->. pose proof (NoDup_extract_links html) as Hnd.
    rewrite NoDup_alt in Hnd. specialize (Hnd i j b Ha Hb). lia.
Qed.

End OrderFacts.

(** ** Every anchor target is found *)

Module DiscoveryFacts.
Import Scrape ReFacts LinkFacts SubstringFacts TextFacts CellFacts.

#[local] Arguments N.eqb : simpl never.

(** *** The matcher finds a match when there is one *)

Lemma bt_complete {R} r : ∀ pos w rest g (k : nat → pystr → option pystr → option R),
  anchor_free r = true → lang r w →
  (∀ g', k (pos + length w) rest g' ≠ None) →
  bt r pos (w ++ rest) g k ≠ None.
Proof.
  induction r as [| |p|r1 IH1 r2 IH2|r IH|greedy p|r IH];
    intros pos w rest g k Hfree Hl Hk; cbn [bt].
  - inversion Hl; subst. simpl in *. rewrite Nat.add_0_r in Hk. apply Hk.
  - done.
  - inversion Hl as [| |? c Hc| | | | |]; subst. cbn [app]. rewrite Hc.
    specialize (Hk g). simpl in Hk. by rewrite Nat.add_1_r in Hk.
  - simpl in Hfree. apply andb_true_iff in Hfree as [Hf1 Hf2].
    inversion Hl as [| | |? ? w1 w2 H1 H2| | | |]; subst.
    rewrite <- app_assoc. apply IH1; [done|done|]. intros g'.
    apply IH2; [done|done|]. intros g''. rewrite <- Nat.add_assoc, <- length_app.
    apply Hk.
  - simpl in Hfree. inversion Hl as [| | | |? ? H1|?| |]; subst.
    + pose proof (IH pos w rest g k Hfree H1 Hk) as Hr.
      by destruct (bt r pos (w ++ rest) g k).
    + destruct (bt r pos ([] ++ rest) g k); [done|]. simpl in *.
      rewrite Nat.add_0_r in Hk. apply Hk.
  - inversion Hl as [| | | | | |? ? ? HF|]; subst. intros Hnone.
    rewrite rep_loop_None in Hnone. specialize (Hnone (length w)).
    rewrite drop_app_length in Hnone. apply (Hk g), Hnone.
    apply Forall_run; [rewrite length_app; lia|]. by rewrite take_app_length.
  - simpl in Hfree. inversion Hl as [| | | | | | |? ? H1]; subst.
    apply IH; [done|done|]. intros g'. apply Hk.
Qed.

Lemma lang_lit_intro l : lang (lit_cps l) l.
Proof.
  induction l as [|c l IH]; simpl; [constructor|].
  apply (lang_cat _ _ [c] l); [|done]. constructor. unfold chr. apply N.eqb_refl.
Qed.

Lemma lang_plus_intro greedy p w :
  w ≠ [] → Forall (λ c, p c = true) w → lang (plus greedy p) w.
Proof.
  intros Hne HF. destruct w as [|c w]; [done|].
  inversion HF; subst. unfold plus.
  apply (lang_cat _ _ [c] w); by constructor.
Qed.

Lemma link_pattern_inner :
  link_pattern =
  Cat (lit "href=") (Cat (Cls (chr dquote)) (Cat (Grp link_inner) (Cls (chr dquote)))).
Proof. reflexivity. Qed.

Lemma notchr_Forall c w :
  Forall (λ x, notchr c x = true) w ↔ c ∉ w.
Proof.
  rewrite Forall_forall. unfold notchr. split.
  - intros HF Hin. specialize (HF _ Hin). by rewrite N.eqb_refl in HF.
  - intros Hno x Hx. destruct (N.eqb_spec x c) as [->|]; done.
Qed.

(** The words of the captured group. *)
Lemma lang_link_inner w :
  lang link_inner w ↔
  ∃ category item,
    w = py "/alllist/" ++ category ++ py "/" ++ item ++ py "/" ∧
    category ≠ [] ∧ item ≠ [] ∧ (dquote ∉ category) ∧ (dquote ∉ item).
Proof.
  unfold link_inner. split.
  - intros Hl.
    inversion Hl as [| | |? ? w0 v1 H0 H1| | | |]; subst. clear Hl.
    apply lang_lit in H0 as ->.
    inversion H1 as [| | |? ? w1 w3 H2 H3| | | |]; subst. clear H1.
    apply lang_plus in H2 as [Hne1 Hq1].
    inversion H3 as [| | |? ? w2 w4 H2 H4| | | |]; subst. clear H3.
    apply lang_lit in H2 as ->.
    inversion H4 as [| | |? ? w2 w5 H2 H5| | | |]; subst. clear H4.
    apply lang_plus in H2 as [Hne2 Hq2]. apply lang_lit in H5 as ->.
    apply notchr_Forall in Hq1, Hq2. by exists w1, w2.
  - intros (A & B & -> & HA & HB & HqA & HqB). unfold lit.
    apply lang_cat; [apply lang_lit_intro|].
    apply lang_cat; [by apply lang_plus_intro, notchr_Forall|].
    apply lang_cat; [apply lang_lit_intro|].
    apply lang_cat; [by apply lang_plus_intro, notchr_Forall|].
    apply lang_lit_intro.
Qed.

Lemma link_shape_facts (A B : pystr) :
  (dquote ∉ A) → (dquote ∉ B) →
  (dquote ∉ py "/alllist/" ++ A ++ py "/" ++ B ++ py "/") ∧
  last (py "/alllist/" ++ A ++ py "/" ++ B ++ py "/") = Some (ch "/").
Proof.
  intros HA HB. split.
  - rewrite !not_elem_of_app. repeat split; try done;
      by apply (bool_decide_unpack _).
  - rewrite !app_assoc. change (py "/") with [ch "/"] at 2. by rewrite last_snoc.
Qed.

(** A match of the link pattern: the quoted text it covers. *)
Lemma match_at_link_text pos s e g :
  match_at link_pattern pos s = Some (e, g) →
  ∃ w rest,
    s = py "href=" ++ dquote :: w ++ dquote :: rest ∧ g = Some w ∧
    e = pos + 6 + length w + 1 ∧ lang link_inner w.
Proof.
  unfold match_at. rewrite link_pattern_inner. rewrite bt_Cat.
  unfold lit at 1. rewrite bt_lit.
  destruct (starts_with (py "href=") s) eqn:Hst; [|done].
  apply starts_with_inv in Hst as [s0 ->]. rewrite drop_app_length.
  rewrite bt_Cat. cbn [bt]. destruct s0 as [|c s1]; [done|].
  unfold chr at 1. destruct (N.eqb_spec c dquote) as [->|]; [|done].
  intros H. apply bt_lang in H as (n & g2 & Hn & Hl & H).
  destruct (drop n s1) as [|c' s2] eqn:Hd; [done|].
  unfold chr in H. destruct (N.eqb_spec c' dquote) as [->|]; [|done].
  injection H as <- <-.
  match goal with |- context [Some (take ?m s1)] => replace m with n by lia end.
  exists (take n s1), s2. rewrite <- Hd, take_drop.
  split; [done|]. split; [done|]. split; [|done].
  rewrite length_take. change (length (py "href=")) with 5. lia.
Qed.

(** Two texts that end at the first quote are the same text. *)
Lemma quoted_eq (q : N) (w w' rest rest' : pystr) :
  w ++ q :: rest = w' ++ q :: rest' → (q ∉ w) → (q ∉ w') → w = w'.
Proof.
  revert w'. induction w as [|c w IH]; intros [|c' w'] Heq Hw Hw'; simpl in *.
  - done.
  - injection Heq as -> _. exfalso. apply Hw'. apply list_elem_of_here.
  - injection Heq as -> _. exfalso. apply Hw. apply list_elem_of_here.
  - injection Heq as -> Heq. f_equal. apply IH; [done| |].
    + intros H. apply Hw. by apply list_elem_of_further.
    + intros H. apply Hw'. by apply list_elem_of_further.
Qed.

Lemma lang_link_inner_quote w : lang link_inner w → (dquote ∉ w) ∧ last w = Some (ch "/").
Proof.
  intros (A & B & -> & _ & _ & HA & HB)%lang_link_inner.
  by apply link_shape_facts.
Qed.

(** An anchor target of the expected shape is matched in full. *)
Lemma match_at_link_Some pos (w rest : pystr) :
  lang link_inner w →
  ∃ e, match_at link_pattern pos (py "href=" ++ dquote :: w ++ dquote :: rest)
       = Some (e, Some w).
Proof.
  intros Hw.
  destruct (match_at link_pattern pos
              (py "href=" ++ dquote :: w ++ dquote :: rest))
    as [[e g]|] eqn:Hm.
  - pose proof Hm as Hm'.
    apply match_at_link_text in Hm' as (w' & rest' & Heq & -> & _ & Hw').
    apply app_inv_head in Heq. injection Heq as Heq.
    apply lang_link_inner_quote in Hw as [Hq _].
    apply lang_link_inner_quote in Hw' as [Hq' _].
    apply quoted_eq in Heq as ->; [|done|done]. by exists e.
  - exfalso.
    assert (lang link_pattern (py "href=" ++ [dquote] ++ w ++ [dquote])) as Hl.
    { rewrite link_pattern_inner. unfold lit.
      apply lang_cat; [apply lang_lit_intro|].
      apply lang_cat; [constructor; apply N.eqb_refl|].
      apply lang_cat; [by constructor|]. constructor. apply N.eqb_refl. }
    assert (∀ g', accept (pos + length (py "href=" ++ [dquote] ++ w ++ [dquote]))
                    rest g' ≠ None) as Hk by done.
    apply (bt_complete link_pattern pos _ rest None accept eq_refl Hl Hk).
    rewrite <- Hm. unfold match_at. f_equal. rewrite <- !app_assoc. reflexivity.
Qed.

(** *** [re.findall] misses no match that earlier matches leave alone *)

Lemma findall_from_covers r x : ∀ fuel pos s i e,
  length s < fuel → i ≤ length s →
  match_at r (pos + i) (drop i s) = Some (e, Some x) →
  (∀ j e' g', j < i → match_at r (pos + j) (drop j s) = Some (e', g') →
              e' ≤ pos + i) →
  x ∈ findall_from fuel r pos s.
Proof.
  induction fuel as [|fuel IH]; intros pos s i e Hf Hi Hm Hfree; [lia|].
  cbn [findall_from]. destruct i as [|i].
  { rewrite Nat.add_0_r, drop_0 in Hm. rewrite Hm. apply list_elem_of_here. }
  assert (∀ c s', s = c :: s' → x ∈ findall_from fuel r (S pos) s') as Hstep.
  { intros c s' ->. simpl in Hf, Hi. apply (IH (S pos) s' i e); [lia|lia| |].
    - by rewrite Nat.add_succ_r in Hm.
    - intros j e' g' Hj Hm'. specialize (Hfree (S j) e' g').
      rewrite !Nat.add_succ_r in Hfree. apply Hfree; [lia|done]. }
  destruct s as [|c s']; [simpl in Hi; lia|].
  destruct (match_at r pos (c :: s')) as [[e1 g1]|] eqn:Hm1;
    [|by eapply Hstep].
  apply list_elem_of_further.
  destruct (Nat.ltb_spec pos e1) as [Hlt|Hge]; [|by eapply Hstep].
  pose proof (Hfree 0 e1 g1 ltac:(lia)) as He1.
  rewrite Nat.add_0_r, drop_0 in He1. specialize (He1 Hm1).
  apply (IH e1 (drop (e1 - pos) (c :: s')) (S i - (e1 - pos)) e).
  - rewrite length_drop. simpl in Hf |- *. lia.
  - rewrite length_drop. lia.
  - rewrite drop_drop.
    replace (e1 + (S i - (e1 - pos))) with (pos + S i) by lia.
    replace (e1 - pos + (S i - (e1 - pos))) with (S i) by lia. done.
  - intros j e' g' Hj. rewrite drop_drop.
    replace (e1 + j) with (pos + (e1 - pos + j)) by lia.
    intros Hm'. apply Hfree in Hm'; lia.
Qed.

(** *** Matches of the link pattern do not overlap *)

Lemma link_match_before (pre w post : pystr) j e g :
  j < length pre →
  match_at link_pattern j
    (drop j (pre ++ py "href=" ++ dquote :: w ++ dquote :: post))
    = Some (e, g) →
  e ≤ length pre.
Proof.
  intros Hj Hm.
  apply match_at_link_text in Hm as (w' & rest' & Heq & _ & -> & Hw').
  apply lang_link_inner_quote in Hw' as [Hq Hlast].
  set (s := pre ++ py "href=" ++ dquote :: w ++ dquote :: post) in *.
  assert (∀ k, s !! (j + k)
               = (py "href=" ++ dquote :: w' ++ dquote :: rest') !! k) as Hs.
  { intros k. by rewrite <- Heq, lookup_drop. }
  assert (∀ k, s !! (length pre + k)
               = (py "href=" ++ dquote :: w ++ dquote :: post) !! k) as Hs'.
  { intros k. unfold s. by rewrite lookup_app_r, Nat.add_comm, Nat.add_sub by lia. }
  (* the closing quote of the earlier match *)
  assert (s !! (j + (6 + length w')) = Some dquote) as Hclose.
  { rewrite Hs. change (py "href=" ++ dquote :: w' ++ dquote :: rest')
      with ((py "href=" ++ [dquote]) ++ w' ++ dquote :: rest').
    rewrite lookup_app_r by (simpl; lia).
    rewrite lookup_app_r by (simpl; lia).
    replace (6 + length w' - length (py "href=" ++ [dquote]) - length w')
      with 0 by (simpl; lia). done. }
  assert (∀ k c, k < length w' → s !! (j + (6 + k)) = Some c → c ≠ dquote)
    as Hinside.
  { intros k c Hk. rewrite Hs.
    change (py "href=" ++ dquote :: w' ++ dquote :: rest')
      with ((py "href=" ++ [dquote]) ++ w' ++ dquote :: rest').
    rewrite lookup_app_r by (simpl; lia).
    rewrite lookup_app_l by (simpl; lia).
    replace (6 + k - length (py "href=" ++ [dquote])) with k by (simpl; lia).
    intros Hc ->. apply Hq. by eapply list_elem_of_lookup_2. }
  destruct (Nat.le_gt_cases (j + 6 + length w' + 1) (length pre)) as [|Hgt];
    [done|exfalso].
  destruct (Nat.le_gt_cases (j + (6 + length w')) (length pre + 4))
    as [Hle4|Hgt4].
  - (* the closing quote would lie inside the later [href=] *)
    replace (j + (6 + length w'))
      with (length pre + (j + (6 + length w') - length pre)) in Hclose by lia.
    rewrite Hs' in Hclose.
    assert (j + (6 + length w') - length pre < 5) as Hk by lia.
    revert Hclose. generalize (j + (6 + length w') - length pre) Hk.
    intros k Hk'. do 5 (destruct k as [|k]; [done|]). lia.
  - destruct (decide (j + (6 + length w') = length pre + 5)) as [Heq5|Hne5].
    + (* the earlier target would end with [=] *)
      destruct w' as [|c0 w0] eqn:Hw0 using rev_ind; [done|].
      rewrite last_snoc in Hlast. injection Hlast as ->.
      rewrite length_app in Heq5, Hclose. simpl in Heq5.
      assert (s !! (j + (6 + length w0)) = Some (ch "/")) as Hslash.
      { rewrite Hs. change (py "href=" ++ dquote :: (w0 ++ [ch "/"]) ++ dquote :: rest')
          with ((py "href=" ++ [dquote]) ++ (w0 ++ [ch "/"]) ++ dquote :: rest').
        rewrite lookup_app_r by (simpl; lia).
        rewrite lookup_app_l by (rewrite length_app; simpl; lia).
        rewrite lookup_app_r by (simpl; lia).
        replace (6 + length w0 - length (py "href=" ++ [dquote]) - length w0)
          with 0 by (simpl; lia). done. }
      replace (j + (6 + length w0)) with (length pre + 4) in Hslash by lia.
      rewrite Hs' in Hslash. done.
    + (* the later opening quote would lie inside the earlier target *)
      apply (Hinside (length pre + 5 - j - 6) dquote); [lia| |done].
      replace (j + (6 + (length pre + 5 - j - 6))) with (length pre + 5) by lia.
      by rewrite Hs'.
Qed.

(** Every anchor target of the expected shape is found. *)
Lemma findall_link (pre w post : pystr) :
  lang link_inner w →
  w ∈ re_findall link_pattern
        (pre ++ py "href=" ++ dquote :: w ++ dquote :: post).
Proof.
  intros Hw. unfold re_findall.
  destruct (match_at_link_Some (0 + length pre) w post Hw) as [e He].
  apply (findall_from_covers _ _ _ 0 _ (length pre) e); [lia| | |].
  - rewrite length_app. lia.
  - by rewrite drop_app_length.
  - intros j e' g' Hj Hm. change (0 + j) with j in Hm.
    change (0 + length pre) with (length pre). by eapply link_match_before.
Qed.

Lemma extract_links_complete (pre category item post : pystr) :
  let link := py "/alllist/" ++ category ++ py "/" ++ item ++ py "/" in
  category ≠ [] → item ≠ [] → (dquote ∉ category) → (dquote ∉ item) →
  contains (py ".jpg") link = false → contains (py ".png") link = false →
  contains (py ".gif") link = false →
  link ∈ extract_links (pre ++ py "href=" ++ dquote :: link ++ dquote :: post).
Proof.
  intros link HA HB HqA HqB Hjpg Hpng Hgif. unfold extract_links.
  rewrite elem_of_sorted_set, list_elem_of_filter. split.
  - unfold image_exts. cbn [existsb]. fold link.
    rewrite Hjpg, Hpng, Hgif. cbn [orb]. apply Is_true_false. done.
  - apply findall_link. apply lang_link_inner. by exists category, item.
Qed.

End DiscoveryFacts.

(** ** The region, the geocoder and the loop *)

Module RunFacts.
Import Scrape Pipeline ReFacts PipelineFacts LinkFacts Demo Samples.

#[local] Arguments N.eqb : simpl never.

(** *** The region of a link *)

Lemma split_on_app sep w rest :
  sep ∉ w → split_on sep (w ++ sep :: rest) = w :: split_on sep rest.
Proof.
  induction w as [|c w IH]; intros Hw; simpl.
  - by rewrite N.eqb_refl.
  - apply not_elem_of_cons in Hw as [Hc Hw].
    destruct (N.eqb_spec c sep) as [->|_]; [done|]. by rewrite IH.
Qed.

Lemma split_on_last sep w : sep ∉ w → split_on sep w = [w].
Proof.
  induction w as [|c w IH]; intros Hw; simpl; [done|].
  apply not_elem_of_cons in Hw as [Hc Hw].
  destruct (N.eqb_spec c sep) as [->|_]; [done|]. by rewrite IH.
Qed.

Lemma split_on_length sep (s : list N) :
  length (split_on sep s) = S (length (filter (λ c, c = sep) s)).
Proof.
  induction s as [|c s IH]; [done|]. cbn [split_on].
  destruct (N.eqb_spec c sep) as [->|Hc].
  - rewrite filter_cons_True by done. cbn [length]. by rewrite IH.
  - rewrite filter_cons_False by done.
    destruct (split_on sep s); cbn [length] in *; [lia|done].
Qed.

Lemma extract_region_third env link (a b region rest : pystr) :
  unquote env link = a ++ py "/" ++ b ++ py "/" ++ region ++ rest →
  (ch "/" ∉ a) → (ch "/" ∉ b) → (ch "/" ∉ region) →
  (rest = [] ∨ ∃ rest', rest = ch "/" :: rest') →
  extract_region env link = region.
Proof.
  intros Hd Ha Hb Hr Hrest. unfold extract_region. rewrite Hd.
  change (py "/") with [ch "/"]. cbn [app].
  rewrite split_on_app by done. rewrite split_on_app by done.
  destruct Hrest as [->|[rest' ->]].
  - rewrite app_nil_r, split_on_last by done. done.
  - by rewrite split_on_app.
Qed.

Lemma extract_region_short env link :
  length (filter (λ c, c = ch "/") (unquote env link : list N)) < 2 →
  extract_region env link = [].
Proof.
  intros H. unfold extract_region.
  destruct (Nat.leb_spec 3 (length (split_on (ch "/") (unquote env link))))
    as [Hlen|]; [|done].
  rewrite split_on_length in Hlen. lia.
Qed.

(** *** What the geocoder makes of an answer *)

Ltac geo_cbn :=
  cbn [truthy py_len index0 subscript length Nat.eqb negb Nat.ltb Nat.leb].

Lemma geocode_result_Some env out x y :
  geocode_result env out = inr (Some (x, y)) ↔
  ∃ d rest lat lon,
    json_loads env out = inr (VList (VDict d :: rest)) ∧
    dict_get d (py "lat") = Some lat ∧ dict_get d (py "lon") = Some lon ∧
    py_float env lat = inr x ∧ py_float env lon = inr y.
Proof.
  unfold geocode_result, geocode_try. split.
  - destruct (json_loads env out) as [e|data]; [by destruct (geocode_caught e)|].
    destruct data as [|b|z|f|s|[|first rest]|[|[k v] d]]; geo_cbn; try done.
    { by destruct b. }
    { by destruct (z =? 0)%Z. }
    { by destruct (float_is_zero f). }
    { by destruct s. }
    destruct first as [| | | | | |d]; geo_cbn; try done.
    destruct (dict_get d (py "lat")) as [lat|] eqn:Hlat; [|done].
    destruct (py_float env lat) as [e|flat] eqn:Hflat;
      [by destruct (geocode_caught e)|].
    destruct (dict_get d (py "lon")) as [lon|] eqn:Hlon; [|done].
    destruct (py_float env lon) as [e|flon] eqn:Hflon;
      [by destruct (geocode_caught e)|].
    intros [= <- <-]. by exists d, rest, lat, lon.
  - intros (d & rest & lat & lon & -> & Hlat & Hlon & Hx & Hy). geo_cbn.
    by rewrite Hlat, Hx, Hlon, Hy.
Qed.

Lemma geocode_result_None env out :
  geocode_result env out = inr None ↔
  (∃ e, json_loads env out = inl e ∧ geocode_caught e = true)
  ∨ ∃ data, json_loads env out = inr data ∧
      (truthy data = false ∨ (∃ d, data = VDict d)
       ∨ ∃ d rest, data = VList (VDict d :: rest) ∧
           (dict_get d (py "lat") = None
            ∨ ∃ lat x, dict_get d (py "lat") = Some lat ∧
                       py_float env lat = inr x ∧
                       dict_get d (py "lon") = None)).
Proof.
  unfold geocode_result, geocode_try. split.
  - destruct (json_loads env out) as [e|data].
    { destruct (geocode_caught e) eqn:He; [|done]. intros _. left. by exists e. }
    intros H. right. exists data. split; [done|].
    destruct (truthy data) eqn:Ht; [|by left]. right.
    destruct data as [|b|z|f|s|[|first rest]|d]; try done.
    + by destruct s.
    + right. revert H. geo_cbn.
      destruct first as [| | | | | |d]; geo_cbn; try done.
      intros H. exists d, rest. split; [done|].
      destruct (dict_get d (py "lat")) as [lat|] eqn:Hlat; [|by left].
      destruct (py_float env lat) as [e|flat] eqn:Hflat;
        [apply py_float_raises in Hflat as [->|[->| ->]]; done|].
      destruct (dict_get d (py "lon")) as [lon|] eqn:Hlon;
        [|right; by exists lat, flat].
      destruct (py_float env lon) as [e|flon] eqn:Hflon; [|done].
      apply py_float_raises in Hflon as [->|[->| ->]]; done.
    + left. by exists d.
  - intros [(e & -> & ->)|(data & -> & [Ht|[[d ->]|(d & rest & -> & Hd)]])].
    + done.
    + by rewrite Ht.
    + by destruct d.
    + geo_cbn. destruct Hd as [->|(lat & x & -> & -> & ->)]; done.
Qed.

(** *** The requests of [geocode_shrine] *)

Lemma geocode_shrine_calls env name st :
  geo_calls (snd (geocode_shrine env name st))
  = geo_calls st ++ (if Nat.eqb (length name) 0 then [] else [now st]).
Proof.
  unfold geocode_shrine. destruct (Nat.eqb (length name) 0).
  { simpl. by rewrite app_nil_r. }
  unfold bind, note_geocode_call, run, lift. simpl.
  destruct (subprocess_run env _) as [e|cp]; [done|].
  by destruct (geocode_result env (stdout cp)) as [e|r].
Qed.

Lemma geocode_shrine_now env name st :
  now (snd (geocode_shrine env name st))
  = if Nat.eqb (length name) 0 then now st
    else (now st + elapsed env (now st) (geocode_argv (geocode_url env name)))%N.
Proof.
  unfold geocode_shrine. destruct (Nat.eqb (length name) 0); [done|].
  unfold bind, note_geocode_call, run, lift. simpl.
  destruct (subprocess_run env _) as [e|cp]; [done|].
  by destruct (geocode_result env (stdout cp)) as [e|r].
Qed.

Lemma has_name_length info :
  has_name info = true → Nat.eqb (length (get_or_empty info "name")) 0 = false.
Proof.
  unfold has_name, get_or_empty.
  destruct (info !! "name") as [n|]; [|done]. simpl. by intros ?%negb_true_iff.
Qed.

(** One turn of the loop: at most one request, and a record only with a
    request. *)
Lemma visit_counts env link st :
  ∃ a b,
    length (shrines (snd (try_except (visit env link) st)))
      = length (shrines st) + a ∧
    length (geo_calls (snd (try_except (visit env link) st)))
      = length (geo_calls st) + b ∧
    a ≤ b ∧ b ≤ 1.
Proof.
  cbv [try_except visit fetch bind run ret].
  destruct (subprocess_run env (now st) (fetch_argv (BASE_URL ++ link)))
    as [e|cp].
  { exists 0, 0. cbn [snd shrines geo_calls]. lia. }
  cbn [stdout].
  destruct (has_name (extract_shrine_info (stdout cp))) eqn:Hn.
  2:{ exists 0, 0. cbv [sleep]. cbn [snd shrines geo_calls]. lia. }
  apply has_name_length in Hn.
  match goal with |- context [geocode_shrine env ?n ?s] =>
    pose proof (geocode_shrine_shrines env n s) as [Hs _];
    pose proof (geocode_shrine_calls env n s) as Hc;
    destruct (geocode_shrine env n s) as [[e|latlng] st1]
  end; rewrite Hn in Hc; cbn [fst snd shrines geo_calls now] in *.
  - exists 0, 1. rewrite Hs, Hc, length_app. simpl. lia.
  - exists 1, 1. cbv [sleep append_shrine]. cbn [snd shrines geo_calls].
    rewrite Hs, Hc, !length_app. simpl. lia.
Qed.

Lemma visit_all_counts env links : ∀ st,
  ∃ a b,
    length (shrines (snd (visit_all env links st))) = length (shrines st) + a ∧
    length (geo_calls (snd (visit_all env links st)))
      = length (geo_calls st) + b ∧
    a ≤ b ∧ b ≤ length links.
Proof.
  induction links as [|link rest IH]; intros st.
  { exists 0, 0. simpl. lia. }
  cbn [visit_all]. unfold bind.
  pose proof (try_except_ok (visit env link) st) as H.
  destruct (visit_counts env link st) as (a & b & Ha & Hb & Hab & Hb1).
  destruct (try_except (visit env link) st) as [[e|[]] st']; [done|].
  cbn [snd] in *. destruct (IH st') as (a' & b' & Ha' & Hb' & Hab' & Hbl).
  exists (a + a'), (b + b'). simpl. lia.
Qed.

Lemma run_main_counts env result :
  fst (run_main env) = inr result →
  ∃ cp, subprocess_run env 0 (fetch_argv root_url) = inr cp ∧
        length result ≤ length (geo_calls (snd (run_main env))) ∧
        length (geo_calls (snd (run_main env)))
          ≤ length (extract_links (stdout cp)).
Proof.
  cbv [run_main main fetch bind run ret]. cbn [initial now].
  destruct (subprocess_run env 0 (fetch_argv root_url)) as [e|cp]; [done|].
  match goal with |- context [visit_all env ?l ?s] =>
    pose proof (visit_all_ok env l s) as Hok;
    destruct (visit_all_counts env l s) as (a & b & Ha & Hb & Hab & Hbl);
    destruct (visit_all env l s) as [[e|[]] st'] eqn:Hall; [done|]
  end.
  cbn [fst snd shrines geo_calls stdout length] in *. intros [= <-].
  exists cp. split; [done|].
  change (shrines initial) with (@nil (gmap string pyval)) in Ha.
  change (geo_calls initial) with (@nil N) in Hb. simpl in Ha, Hb.
  clear Hall. lia.
Qed.

(** *** The order of the records *)

Lemma visited_all_order env links st st' :
  visited_all env links st st' →
  ∃ new from,
    shrines st' = shrines st ++ new ∧ sublist from links ∧
    Forall2 (made_from env) new from.
Proof.
  induction 1 as [st|link rest st st1 st2 Hv _ IH].
  { exists [], []. by rewrite app_nil_r. }
  destruct IH as (new & from & Hnew & Hsub & HF).
  destruct Hv
    as [e ? Hs Hi|cp ? ? Hs Hi|cp e ? ? ? Hs Hi|cp latlng Hf Hn Hg Hs Hi].
  1-3: exists new, from; rewrite Hnew, Hs; split; [done|];
       split; [by apply sublist_cons|done].
  exists (make_shrine env (shrine_id st) link
            (extract_shrine_info (stdout cp)) latlng :: new), (link :: from).
  rewrite Hnew, Hs, <- app_assoc. split; [done|].
  split; [by apply sublist_skip|]. constructor; [|done].
  by exists (now st), cp, (shrine_id st), latlng.
Qed.

Lemma run_main_order env result :
  fst (run_main env) = inr result →
  ∃ cp from,
    subprocess_run env 0 (fetch_argv root_url) = inr cp ∧
    sublist from (extract_links (stdout cp)) ∧ NoDup from ∧
    Forall2 (made_from env) result from.
Proof.
  intros Hres.
  destruct (run_main_cases env)
    as [(e & _ & He)|(cp & st & Hf & Hv & Hs & _ & Hr)]; [congruence|].
  apply visited_all_order in Hv as (new & from & Hnew & Hsub & HF).
  rewrite Hs in Hnew. simpl in Hnew. rewrite Hres in Hr. injection Hr as ->.
  exists cp, from. split; [done|]. split; [done|].
  split; [|by rewrite Hnew].
  eapply sublist_NoDup; [apply NoDup_extract_links|exact Hsub].
Qed.

Lemma made_from_fields env r link :
  made_from env r link →
  r !! "region" = Some (VStr (extract_region env link)) ∧
  ∃ name, r !! "name" = Some (VStr name) ∧ name ≠ [].
Proof.
  intros (t & cp & id & latlng & _ & Hn & ->). split.
  - unfold make_shrine. by simplify_map_eq.
  - exists (get_or_empty (extract_shrine_info (stdout cp)) "name"). split.
    + apply make_shrine_text. unfold text_keys. set_solver.
    + apply has_name_length in Hn. intros Heq. by rewrite Heq in Hn.
Qed.

(** *** A run whose geocoder calls return *)

Lemma visit_paced_when env link st :
  call_returns env link st = true →
  paced st → paced (snd (try_except (visit env link) st)).
Proof.
  unfold call_returns. intros Hret [Hsp Hlast].
  cbv [try_except visit fetch bind run ret sleep].
  destruct (subprocess_run env (now st) (fetch_argv (BASE_URL ++ link)))
    as [e|cp].
  { split; [done|]. cbn [now geo_calls snd]. intros t Ht.
    specialize (Hlast t Ht). lia. }
  cbn [stdout]. cbv zeta in Hret.
  destruct (has_name (extract_shrine_info (stdout cp))) eqn:Hn.
  2:{ split; [done|]. cbn [now geo_calls snd]. intros t Ht.
      specialize (Hlast t Ht). lia. }
  set (name := get_or_empty (extract_shrine_info (stdout cp)) "name") in *.
  destruct (geocode_outcome env (fetched_at env st link) name) as [e|r] eqn:Hr;
    [done|]. clear Hret. revert Hr.
  pose proof (has_name_length _ Hn) as Hlen. fold name in Hlen.
  cbv [geocode_outcome geocode_shrine fetched_at]. rewrite Hlen.
  cbv [bind note_geocode_call run lift ret raise sleep append_shrine].
  cbn [now].
  destruct (subprocess_run env _ (geocode_argv (geocode_url env name)))
    as [e|cp']; [done|].
  intros ->. unfold paced. cbn [now geo_calls snd]. split.
  - apply spaced_snoc; [done|]. intros a Ha. specialize (Hlast a Ha).
    clear -Hlast. lia.
  - intros t. rewrite last_snoc. intros Heq. apply (inj Some) in Heq.
    rewrite <- Heq. clear. lia.
Qed.

Lemma visit_all_paced_when env links : ∀ st,
  calls_return env links st = true →
  paced st → paced (snd (visit_all env links st)).
Proof.
  induction links as [|link rest IH]; intros st Hret Hp; [done|].
  cbn [calls_return] in Hret. apply andb_true_iff in Hret as [Hret Hrest].
  cbn [visit_all]. unfold bind at 1.
  pose proof (try_except_ok (visit env link) st) as H.
  pose proof (visit_paced_when env link st Hret Hp) as Hp'.
  destruct (try_except (visit env link) st) as [[e|[]] st']; [done|].
  by apply IH.
Qed.

Lemma run_main_paced_when env :
  run_calls_return env = true →
  spaced 1000 (geo_calls (snd (run_main env))).
Proof.
  unfold run_calls_return.
  cbv [run_main main fetch bind run ret]. cbn [initial now].
  destruct (subprocess_run env 0 (fetch_argv root_url)) as [e|cp]; [done|].
  cbn [stdout]. intros Hret.
  match goal with |- context [visit_all env ?l ?s] =>
    pose proof (visit_all_ok env l s) as Hok;
    assert (paced (snd (visit_all env l s))) as [Hp _];
    [apply visit_all_paced_when; [exact Hret|by split]|];
    destruct (visit_all env l s) as [[e|[]] st']; [done|]
  end.
  exact Hp.
Qed.

End RunFacts.

(** ** The coordinate lookup *)

Module GeoConvFacts.
Import InfoGrip GeoConv.

(** The location kept for a row by a geocoder whose answers do not depend
    on the calls made before. *)
Lemma locate_stateless (g : pystr → exn + option Location) calls r :
  fst (locate (λ _, g) calls r) = fst (locate (λ _, g) 0 r).
Proof.
  unfold locate. destruct (g _) as [e|[l|]]; [done|done|].
  by destruct (g (fst r)).
Qed.

Lemma locate_calls geocode calls r :
  S calls ≤ snd (locate geocode calls r) ≤ S (S calls).
Proof.
  unfold locate. destruct (geocode calls _) as [e|[l|]]; simpl; [lia|lia|].
  destruct (geocode (S calls) (fst r)); simpl; lia.
Qed.

(** The loop adds one entry per row to each list. *)
Lemma lookup_rows_spec geocode rows : ∀ calls lats lons,
  ∃ (found : list (option Location)) calls',
    lookup_rows geocode rows calls lats lons
    = (lats ++ ((λ l : option Location, latitude <$> l) <$> found),
       lons ++ ((λ l : option Location, longitude <$> l) <$> found),
       calls') ∧
    length found = length rows ∧
    calls + length rows ≤ calls' ≤ calls + 2 * length rows.
Proof.
  induction rows as [|r rows IH]; intros calls lats lons.
  - exists [], calls. simpl. rewrite !app_nil_r. split; [done|]. split; [done|lia].
  - cbn [lookup_rows]. destruct (locate geocode calls r) as [location c] eqn:Hl.
    destruct (IH c (lats ++ [latitude <$> location])
                   (lons ++ [longitude <$> location]))
      as (found & calls' & -> & Hlen & Hc).
    exists (location :: found), calls'. rewrite <- !app_assoc. split; [done|].
    split; [simpl; lia|].
    pose proof (locate_calls geocode calls r) as Hb. rewrite Hl in Hb.
    simpl in Hb |- *. lia.
Qed.

Lemma lookup_rows_stateless (g : pystr → exn + option Location) rows :
  ∀ calls lats lons,
  ∃ calls',
    lookup_rows (λ _, g) rows calls lats lons
    = (lats ++ ((λ r, latitude <$> fst (locate (λ _, g) 0 r)) <$> rows),
       lons ++ ((λ r, longitude <$> fst (locate (λ _, g) 0 r)) <$> rows),
       calls').
Proof.
  induction rows as [|r rows IH]; intros calls lats lons.
  - exists calls. simpl. by rewrite !app_nil_r.
  - cbn [lookup_rows].
    destruct (locate (λ _, g) calls r) as [location c] eqn:Hl.
    destruct (IH c (lats ++ [latitude <$> location])
                   (lons ++ [longitude <$> location])) as (calls' & ->).
    exists calls'. rewrite <- !app_assoc.
    pose proof (locate_stateless g calls r) as Hs. rewrite Hl in Hs.
    simpl in Hs. by rewrite Hs.
Qed.

Lemma get_gps_lengths geocode rows lats lons calls :
  get_gps_coordinates geocode rows = (lats, lons, calls) →
  length lats = length rows ∧ length lons = length rows ∧
  (∀ i, lats !! i = Some None ↔ lons !! i = Some None) ∧
  length rows ≤ calls ≤ 2 * length rows.
Proof.
  unfold get_gps_coordinates.
  destruct (lookup_rows_spec geocode rows 0 [] []) as (found & c & -> & Hlen & Hc).
  intros [= <- <- <-]. simpl. rewrite !length_fmap.
  split; [done|]. split; [done|]. split; [|lia].
  intros i. rewrite !list_lookup_fmap.
  destruct (found !! i) as [[l|]|]; simpl; split; done.
Qed.

Lemma get_gps_row (g : pystr → exn + option Location) rows lats lons calls i r :
  get_gps_coordinates (λ _, g) rows = (lats, lons, calls) →
  rows !! i = Some r →
  lats !! i = Some (latitude <$> fst (locate (λ _, g) 0 r)) ∧
  lons !! i = Some (longitude <$> fst (locate (λ _, g) 0 r)).
Proof.
  unfold get_gps_coordinates.
  destruct (lookup_rows_stateless g rows 0 [] []) as (c & ->).
  intros [= <- <- <-] Hr. simpl. by rewrite !list_lookup_fmap, Hr.
Qed.

End GeoConvFacts.

(** * The claims *)

Module Claims.
Import Scrape Pipeline Demo InfoGrip.
Import ReFacts StrFacts ExtractFacts LinkFacts PipelineFacts InfoGripFacts.

(** The example of the specification: name, postal code and address of
    [page_example]. *)
Example extractor_example :
  extract_shrine_info page_example !! "name" = Some (py "A") ∧
  extract_shrine_info page_example !! "zip" = Some (py "100-0001") ∧
  extract_shrine_info page_example !! "address" = Some (py "Tokyo").
Proof. vm_compute. done. Qed.

(** The lazy repetition of the prefecture rule stops at the first suffix
    character, also inside a name. *)
Example prefecture_kyoto :
  match_group prefecture_pattern (py "京都府京都市") = Some (py "京都").
Proof. vm_compute. done. Qed.

(** C1, at the failing input.  The listing of [env_null_answer] links page A,
    whose extracted name is not empty, and the geocoder answers
    [null_answer] for it: the run ends normally and its list holds the record
    of page B only, so a page with a name contributed no record. *)
Theorem C1_named_page_without_record :
  py "/alllist/kanto/a/" ∈ extract_links listing ∧
  (∀ t, subprocess_run env_null_answer t
          (fetch_argv (site "/alllist/kanto/a/")) = inr (Completed 0 page_a)) ∧
  extract_shrine_info page_a !! "name" = Some (py "A") ∧
  has_name (extract_shrine_info page_a) = true ∧
  fst (run_main env_null_answer) = inr [record_b] ∧
  record_b !! "name" = Some (VStr (py "B")).
Proof.
  split; [|split; [|split; [|split; [|split]]]].
  - vm_compute. apply list_elem_of_In. left. reflexivity.
  - intros t. vm_compute. reflexivity.
  - vm_compute. reflexivity.
  - vm_compute. reflexivity.
  - vm_compute. reflexivity.
  - vm_compute. reflexivity.
Qed.

(** C2, at the failing input.  For the response text [null_answer], a
    result array whose first entry has null coordinates, [float(None)] in
    the body of [geocode_shrine] raises [TypeError]; the [except] clause does
    not list it, so the exception leaves [geocode_shrine]. *)
Theorem C2_geocode_raises_on_null_coordinates :
  json_loads env_null_answer null_answer
    = inr (VList [VDict [(py "lat", VNone); (py "lon", VNone)]]) ∧
  geocode_result env_null_answer null_answer = inl TypeError ∧
  fst (geocode_shrine env_null_answer (py "A") initial) = inl TypeError.
Proof. vm_compute. done. Qed.

(** C3, at the failing input.  The link [/alllist/a/b/c/] of [deep_listing]
    has three segments after the section root and is returned all the
    same. *)
Theorem C3_deeper_link_returned :
  extract_links deep_listing = [py "/alllist/a/b/c/"] ∧
  two_segment_shape (py "/alllist/a/b/c/") = false.
Proof. vm_compute. done. Qed.

(** C4 as stated fails: [page_plain_code] holds the digits [100-0001]
    without the postal mark; no postal code is stored and the digits stay in
    the cleaned address. *)
Lemma C4_counterexample :
  (∃ pre z post,
     page_plain_code = pre ++ z ++ post ∧ postal_digits z = true) ∧
  extract_shrine_info page_plain_code !! "zip" = None ∧
  extract_shrine_info page_plain_code !! "address"
    = Some (py "100-0001 Tokyo").
Proof.
  split; [|split].
  - exists (py "<td>所在地</td><td>"), (py "100-0001"), (py " Tokyo</td>").
    vm_compute. done.
  - vm_compute. reflexivity.
  - vm_compute. reflexivity.
Qed.

(** C4, amended: the postal mark is required.  [zip] is set exactly when the
    markup holds the postal mark followed by three digits, a hyphen and four
    digits, and it is the digit string of the leftmost such place.  When the
    address value, tags removed, holds one such code and no other postal
    mark, the cleaned address is the text around the code, the whitespace
    after the code dropped, with its whitespace normalised. *)
Theorem C4_postal_code_needs_mark (html : pystr) :
  let info := extract_shrine_info html in
  (is_Some (info !! "zip") ↔
   ∃ pre z post,
     html = pre ++ postal_mark :: z ++ post ∧ postal_digits z = true)
  ∧ (∀ z, info !! "zip" = Some z →
          ∃ pre post,
            html = pre ++ postal_mark :: z ++ post ∧ postal_digits z = true ∧
            ∀ pre' z' post',
              html = pre' ++ postal_mark :: z' ++ post' →
              postal_digits z' = true → length pre ≤ length pre')
  ∧ (∀ cell pre z post,
       search_group address_pattern html = Some cell →
       re_sub tag_pattern (py " ") cell = pre ++ postal_mark :: z ++ post →
       postal_digits z = true → postal_mark ∉ pre → postal_mark ∉ post →
       info !! "address"
       = Some (strip (re_sub spaces_pattern (py " ") (pre ++ lstrip post)))).
Proof.
  intros info. subst info. rewrite !extract_other by done.
  rewrite labelled_zip, labelled_address. split; [|split].
  - split.
    + intros [z Hz]. apply search_zip_Some in Hz as (pre & post & ? & ? & _).
      by exists pre, z, post.
    + intros (pre & z & post & Hhtml & Hz). by eapply search_zip_is_Some.
  - intros z Hz. by apply search_zip_Some.
  - intros cell pre z post -> Htag Hz Hpre Hpost. simpl. f_equal.
    unfold clean_address. rewrite Htag. f_equal. f_equal.
    by apply re_sub_postal_one.
Qed.

(** C4 at [page_example], whose address cell holds one postal code. *)
Lemma C4_witness :
  search_group address_pattern page_example = Some (py "〒100-0001　Tokyo") ∧
  re_sub tag_pattern (py " ") (py "〒100-0001　Tokyo")
    = [] ++ postal_mark :: py "100-0001" ++ py "　Tokyo" ∧
  postal_digits (py "100-0001") = true ∧
  (postal_mark ∉ ([] : pystr)) ∧ (postal_mark ∉ py "　Tokyo") ∧
  extract_shrine_info page_example !! "address"
    = Some (strip (re_sub spaces_pattern (py " ")
                     ([] ++ lstrip (py "　Tokyo")))).
Proof.
  assert (search_group address_pattern page_example
          = Some (py "〒100-0001　Tokyo")) as H1 by (vm_compute; reflexivity).
  assert (re_sub tag_pattern (py " ") (py "〒100-0001　Tokyo")
          = [] ++ postal_mark :: py "100-0001" ++ py "　Tokyo") as H2
    by (vm_compute; reflexivity).
  assert (postal_digits (py "100-0001") = true) as H3
    by (vm_compute; reflexivity).
  assert (postal_mark ∉ ([] : pystr)) as H4
    by (apply (bool_decide_unpack _); vm_compute; exact I).
  assert (postal_mark ∉ py "　Tokyo") as H5
    by (apply (bool_decide_unpack _); vm_compute; exact I).
  split; [exact H1|]. split; [exact H2|]. split; [exact H3|].
  split; [exact H4|]. split; [exact H5|].
  exact (proj2 (proj2 (C4_postal_code_needs_mark page_example))
           _ _ _ _ H1 H2 H3 H4 H5).
Defined.

(** C5 as stated fails: in [env_offline] the fetch of the listing page fails
    ([curl] ends with status 6 and prints nothing), and the run ends
    normally with an empty list. *)
Lemma C5_counterexample :
  subprocess_run env_offline 0 (fetch_argv root_url) = inr (Completed 6 []) ∧
  fst (run_main env_offline) = inr [].
Proof. vm_compute. done. Qed.

(** C5, amended: a run fails exactly when starting [curl] for the listing
    page raises, with that exception; the exit status of [curl] is not
    looked at, and a listing page without links gives the empty list. *)
Theorem C5_fatal_only_when_root_call_raises (env : Env) :
  (∀ e, fst (run_main env) = inl e ↔
        subprocess_run env 0 (fetch_argv root_url) = inl e)
  ∧ (∀ cp, subprocess_run env 0 (fetch_argv root_url) = inr cp →
           ∃ result, fst (run_main env) = inr result)
  ∧ (∀ cp, subprocess_run env 0 (fetch_argv root_url) = inr cp →
           extract_links (stdout cp) = [] → fst (run_main env) = inr []).
Proof.
  destruct (run_main_cases env)
    as [(e & Hf & Hr)|(cp & st & Hf & Hv & Hs & Hi & Hr)].
  - split; [|split].
    + intros e'. rewrite Hr, Hf. split; congruence.
    + intros cp. congruence.
    + intros cp. congruence.
  - split; [|split].
    + intros e'. rewrite Hr, Hf. split; congruence.
    + intros _ _. by eexists.
    + intros cp' Hf' Hl. rewrite Hr. rewrite Hf in Hf'. injection Hf' as <-.
      rewrite Hl in Hv. inversion Hv; subst. by rewrite Hs.
Qed.

(** C5 at [env_empty_listing]. *)
Lemma C5_witness :
  subprocess_run env_empty_listing 0 (fetch_argv root_url)
    = inr (Completed 0 (py "<html><body></body></html>")) ∧
  extract_links (stdout (Completed 0 (py "<html><body></body></html>"))) = [] ∧
  fst (run_main env_empty_listing) = inr [].
Proof.
  assert (subprocess_run env_empty_listing 0 (fetch_argv root_url)
          = inr (Completed 0 (py "<html><body></body></html>"))) as H1
    by (vm_compute; reflexivity).
  assert (extract_links
            (stdout (Completed 0 (py "<html><body></body></html>"))) = [])
    as H2 by (vm_compute; reflexivity).
  split; [exact H1|]. split; [exact H2|].
  exact (proj2 (proj2 (C5_fatal_only_when_root_call_raises env_empty_listing))
           _ H1 H2).
Defined.

(** C6 as stated fails: the address of [page_fuchu] starts with 府, a prefix
    that ends in one of the four suffixes, and no prefecture is set; and
    what is set need not be one word that ends in a suffix: for
    [page_yokohama] it is cut inside the name of a ward, for [page_osaka] it
    is the whole address, spaces included. *)
Lemma C6_counterexample :
  extract_shrine_info page_fuchu !! "address"
    = Some (py "府" ++ py "中市宮町3-1") ∧
  ch "府" ∈ py "都道府県" ∧
  extract_shrine_info page_fuchu !! "prefecture" = None ∧
  extract_shrine_info page_yokohama !! "address" = Some (py "横浜市都筑区") ∧
  extract_shrine_info page_yokohama !! "prefecture" = Some (py "横浜市都") ∧
  extract_shrine_info page_osaka !! "address" = Some (py "Osaka city 大阪府") ∧
  extract_shrine_info page_osaka !! "prefecture"
    = Some (py "Osaka city 大阪府").
Proof.
  split; [vm_compute; reflexivity|].
  split; [vm_compute; apply list_elem_of_In; right; right; left; reflexivity|].
  repeat split; vm_compute; reflexivity.
Qed.

(** C6, amended: [prefecture] is set exactly when an address was extracted
    and one of 都 道 府 県 stands in the cleaned address after its first
    character (the stem before it is not empty); its value is then the
    prefix of the address that ends at the first such character, whatever
    that text is; an address that starts with 東京都 gives 東京都. *)
Theorem C6_prefecture_shortest_suffixed_prefix (html : pystr) :
  let info := extract_shrine_info html in
  (is_Some (info !! "prefecture") ↔
   ∃ a stem c rest,
     info !! "address" = Some a ∧ a = stem ++ c :: rest ∧ stem ≠ [] ∧
     c ∈ py "都道府県")
  ∧ (∀ p, info !! "prefecture" = Some p →
          ∃ a stem c rest,
            info !! "address" = Some a ∧ a = p ++ rest ∧ p = stem ++ [c] ∧
            stem ≠ [] ∧ c ∈ py "都道府県" ∧
            Forall (λ d, d ∉ py "都道府県") (tail stem))
  ∧ (∀ rest, info !! "address" = Some (py "東京都" ++ rest) →
             info !! "prefecture" = Some (py "東京都")).
Proof.
  intros info. subst info.
  assert (∀ p, extract_shrine_info html !! "prefecture" = Some p →
          ∃ a stem c rest,
            extract_shrine_info html !! "address" = Some a ∧ a = p ++ rest ∧
            p = stem ++ [c] ∧ stem ≠ [] ∧ c ∈ py "都道府県" ∧
            Forall (λ d, d ∉ py "都道府県") (tail stem)) as Hsound.
  { intros p. rewrite extract_prefecture, extract_other by done.
    destruct (labelled_fields html !! "address") as [a|]; [|done]. simpl.
    intros (stem & c & rest & ? & ? & ? & ? & ?)%prefecture_sound.
    by exists a, stem, c, rest. }
  split; [|split].
  - split.
    + intros [p Hp].
      destruct (Hsound p Hp)
        as (a & stem & c & rest & Ha & Heq & Hp' & ? & ? & _).
      exists a, stem, c, rest. subst p. by rewrite <- app_assoc in Heq.
    + intros (a & stem & c & rest & Ha & Heq & Hstem & Hc).
      pose proof (extracted_address_dot _ _ Ha) as Hdot.
      rewrite extract_prefecture. rewrite extract_other in Ha by done.
      rewrite Ha. simpl. by eapply prefecture_complete.
  - done.
  - intros rest Ha. rewrite extract_prefecture.
    rewrite extract_other in Ha by done. rewrite Ha. simpl.
    apply prefecture_tokyo.
Qed.

(** C6 at [page_a], whose address starts with 東京都. *)
Lemma C6_witness :
  extract_shrine_info page_a !! "address"
    = Some (py "東京都" ++ py "千代田区") ∧
  extract_shrine_info page_a !! "prefecture" = Some (py "東京都").
Proof.
  assert (extract_shrine_info page_a !! "address"
          = Some (py "東京都" ++ py "千代田区")) as H
    by (vm_compute; reflexivity).
  split; [exact H|].
  exact (proj2 (proj2 (C6_prefecture_shortest_suffixed_prefix page_a)) _ H).
Defined.

(** C7 as stated fails: the two spaces inside the name of
    [page_spaced_name] are kept. *)
Lemma C7_counterexample :
  extract_shrine_info page_spaced_name !! "name" = Some (py "A  B") ∧
  single_spaced (py "A  B") = false.
Proof. vm_compute. done. Qed.

(** C7, amended: every value stored under name, reading, province, deity,
    virtue, address or tel has no whitespace at either end; in the address,
    moreover, every run of whitespace is one space. *)
Theorem C7_fields_trimmed_address_single_spaced
    (html : pystr) (key : string) (v : pystr) :
  key ∈ ["name"; "reading"; "province"; "deity"; "virtue"; "address"; "tel"] →
  extract_shrine_info html !! key = Some v →
  trimmed v = true ∧ (key = "address" → single_spaced v = true).
Proof.
  rewrite !elem_of_cons, elem_of_nil.
  intros Hkey. rewrite extract_other.
  2:{ intros ->. repeat (destruct Hkey as [?|Hkey]; [done|]). done. }
  assert (∀ r, stripped_cell r html = Some v → trimmed v = true) as Hstrip.
  { intros r. unfold stripped_cell. destruct (search_group r html); [|done].
    intros [= <-]. apply strip_trimmed. }
  destruct Hkey as [->|[->|[->|[->|[->|[->|[->|[]]]]]]]].
  - rewrite labelled_name. intros ?%Hstrip. by split.
  - rewrite labelled_reading. intros ?%Hstrip. by split.
  - rewrite labelled_province. intros ?%Hstrip. by split.
  - rewrite labelled_deity. intros ?%Hstrip. by split.
  - rewrite labelled_virtue. intros ?%Hstrip. by split.
  - rewrite labelled_address.
    destruct (search_group address_pattern html) as [cell|]; [|done].
    intros [= <-]. destruct (clean_address_normal cell). by split.
  - rewrite labelled_tel. intros ?%Hstrip. by split.
Qed.

(** C7 at the address of [page_a]. *)
Lemma C7_witness :
  "address" ∈ ["name"; "reading"; "province"; "deity"; "virtue"; "address";
               "tel"] ∧
  extract_shrine_info page_a !! "address" = Some (py "東京都千代田区") ∧
  (trimmed (py "東京都千代田区") = true ∧
   ("address" = "address" → single_spaced (py "東京都千代田区") = true)).
Proof.
  assert ("address" ∈ ["name"; "reading"; "province"; "deity"; "virtue";
                       "address"; "tel"]) as Hk.
  { rewrite !elem_of_cons. tauto. }
  assert (extract_shrine_info page_a !! "address" = Some (py "東京都千代田区"))
    as Hv.
  { vm_compute. reflexivity. }
  split; [exact Hk|]. split; [exact Hv|].
  exact (C7_fields_trimmed_address_single_spaced page_a "address" _ Hk Hv).
Defined.

(** C8, at the failing input.  In [env_null_answer] the geocoder answers
    [null_answer] for page A: the exception skips both calls of
    [time.sleep], and the request for page B starts 100 ms after the one for
    page A. *)
Theorem C8_second_request_too_early :
  geo_calls (snd (run_main env_null_answer)) = [100; 200]%N ∧
  ¬ spaced 1000 (geo_calls (snd (run_main env_null_answer))).
Proof.
  assert (geo_calls (snd (run_main env_null_answer)) = [100; 200]%N) as H.
  { vm_compute. reflexivity. }
  split; [exact H|]. rewrite H. intros Hsp.
  specialize (Hsp 0 100%N 200%N eq_refl eq_refl). lia.
Qed.

(** C9: de-duplication is idempotent; its result has no duplicates, holds the
    rows of its input and keeps their order; a row met again later is
    dropped and a new row goes to the end. *)
Theorem C9_drop_duplicates_idempotent_first_seen (rows : list row) :
  drop_duplicates (drop_duplicates rows) = drop_duplicates rows
  ∧ NoDup (drop_duplicates rows)
  ∧ (∀ r, r ∈ drop_duplicates rows ↔ r ∈ rows)
  ∧ sublist (drop_duplicates rows) rows
  ∧ drop_duplicates [] = []
  ∧ (∀ r, drop_duplicates (rows ++ [r]) =
          if decide (r ∈ rows) then drop_duplicates rows
          else drop_duplicates rows ++ [r]).
Proof.
  unfold drop_duplicates. split; [|split; [|split; [|split; [|split]]]].
  - apply drop_duplicates_from_id; [apply NoDup_drop_duplicates_from|].
    intros r _. apply not_elem_of_nil.
  - apply NoDup_drop_duplicates_from.
  - intros r. rewrite elem_of_drop_duplicates_from, elem_of_nil. tauto.
  - apply sublist_drop_duplicates_from.
  - done.
  - intros r. rewrite drop_duplicates_from_snoc.
    destruct (decide (r ∈ rows)) as [H|H].
    + rewrite decide_True; [done|by right].
    + rewrite decide_False; [done|]. rewrite elem_of_nil. tauto.
Qed.

(** C10: the record at index [k] of the list of a run has exactly the
    thirteen keys, its [id] is [k + 1], each textual key holds the extracted
    string or the empty string, and [lat] and [lng] are [None] together,
    exactly when the geocoder returned no coordinates. *)
Theorem C10_final_records
    (env : Env) (result : list (gmap string pyval)) (k : nat)
    (r : gmap string pyval) :
  fst (run_main env) = inr result →
  result !! k = Some r →
  dom r = list_to_set record_keys ∧
  NoDup record_keys ∧ length record_keys = 13 ∧
  r !! "id" = Some (VInt (Z.of_nat k + 1)) ∧
  ∃ link t page t' latlng,
    subprocess_run env t (fetch_argv (BASE_URL ++ link)) = inr page ∧
    let info := extract_shrine_info (stdout page) in
    has_name info = true ∧
    geocode_outcome env t' (get_or_empty info "name") = inr latlng ∧
    (∀ key, key ∈ text_keys →
            r !! key = Some (VStr (default [] (info !! key)))) ∧
    r !! "region" = Some (VStr (extract_region env link)) ∧
    r !! "lat" = Some (coord (fst <$> latlng)) ∧
    r !! "lng" = Some (coord (snd <$> latlng)) ∧
    (r !! "lat" = Some VNone ↔ latlng = None) ∧
    (r !! "lng" = Some VNone ↔ latlng = None).
Proof.
  intros Hrun Hk.
  destruct (run_main_cases env)
    as [(e & Hf & Hr)|(cp & st & Hf & Hv & Hs & Hi & Hr)]; [congruence|].
  rewrite Hr in Hrun. injection Hrun as <-.
  assert (numbered env (snd (run_main env))) as [_ Hrec].
  { eapply visited_all_numbered; [exact Hv|]. split; [by rewrite Hs, Hi|].
    intros k' r'. by rewrite Hs. }
  destruct (Hrec k r Hk) as (link & t & page & t' & latlng & Hp & Hn & Hg & ->).
  split; [apply make_shrine_dom|].
  split; [by apply (bool_decide_unpack _)|].
  split; [done|]. split; [by unfold make_shrine; simplify_map_eq|].
  exists link, t, page, t', latlng. split; [done|]. cbv zeta.
  split; [done|]. split; [done|].
  split; [intros key Hkey; by apply make_shrine_text|].
  unfold make_shrine.
  split; [by simplify_map_eq|]. split; [by simplify_map_eq|].
  split; [by simplify_map_eq|].
  split; simplify_map_eq; destruct latlng as [[a b]|]; simpl; split; done.
Qed.

(** C10 at the first record of the run in [env_ok]. *)
Lemma C10_witness :
  fst (run_main env_ok) = inr [record_a] ∧
  [record_a] !! 0 = Some record_a ∧
  record_a !! "id" = Some (VInt (Z.of_nat 0 + 1)).
Proof.
  assert (fst (run_main env_ok) = inr [record_a]) as Hrun.
  { vm_compute. reflexivity. }
  assert ([record_a] !! 0 = Some record_a) as Hk by reflexivity.
  split; [exact Hrun|]. split; [exact Hk|].
  exact (proj1 (proj2 (proj2 (proj2
           (C10_final_records env_ok [record_a] 0 record_a Hrun Hk))))).
Defined.

End Claims.

(** * Further properties of the scripts *)

Module Extras.
Import Scrape Pipeline Demo InfoGrip TextScan GeoConv Samples.
Import ReFacts StrFacts ExtractFacts LinkFacts PipelineFacts InfoGripFacts.
Import SubstringFacts TextFacts CellFacts OrderFacts DiscoveryFacts RunFacts
  GeoConvFacts.

#[local] Arguments isspace : simpl never.

Ltac not_in_literal :=
  vm_compute;
  let H := fresh "H" in
  intros H; apply list_elem_of_In in H; simpl in H;
  repeat (destruct H as [H|H]; [discriminate H|]); exact H.

(** ** Link discovery *)

(** X1 ([extract_links]): every link returned reads [/alllist/A/B/] with [A]
    and [B] not empty and free of double quotes, and holds none of [.jpg],
    [.png], [.gif]. *)
Theorem X1_links_shape_no_image (html link : pystr) :
  link ∈ extract_links html →
  (∃ category item,
     link = py "/alllist/" ++ category ++ py "/" ++ item ++ py "/" ∧
     category ≠ [] ∧ item ≠ [] ∧ (dquote ∉ category) ∧ (dquote ∉ item)) ∧
  contains (py ".jpg") link = false ∧ contains (py ".png") link = false ∧
  contains (py ".gif") link = false.
Proof.
  intros [Hshape Himg]%extract_links_shape. split; [done|].
  unfold image_exts in Himg.
  apply Forall_cons in Himg as [? Himg]. apply Forall_cons in Himg as [? Himg].
  by apply Forall_cons in Himg as [? _].
Qed.

Lemma X1_witness :
  py "/alllist/kanto/a/" ∈ extract_links listing ∧
  contains (py ".jpg") (py "/alllist/kanto/a/") = false.
Proof.
  assert (py "/alllist/kanto/a/" ∈ extract_links listing) as H.
  { vm_compute. apply list_elem_of_In. left. reflexivity. }
  split; [exact H|].
  exact (proj1 (proj2 (X1_links_shape_no_image listing _ H))).
Defined.

(** X2 ([extract_links]): the links come out in strictly ascending order of
    their code points, so no link is returned twice. *)
Theorem X2_links_ascending (html : pystr) (i j : nat) (a b : pystr) :
  i < j → extract_links html !! i = Some a → extract_links html !! j = Some b →
  str_le a b ∧ a ≠ b.
Proof. apply extract_links_ascending. Qed.

Lemma X2_witness :
  extract_links listing !! 0 = Some (py "/alllist/kanto/a/") ∧
  extract_links listing !! 1 = Some (py "/alllist/kanto/b/") ∧
  str_le (py "/alllist/kanto/a/") (py "/alllist/kanto/b/") ∧
  py "/alllist/kanto/a/" ≠ py "/alllist/kanto/b/".
Proof.
  assert (extract_links listing !! 0 = Some (py "/alllist/kanto/a/")) as Ha
    by (vm_compute; reflexivity).
  assert (extract_links listing !! 1 = Some (py "/alllist/kanto/b/")) as Hb
    by (vm_compute; reflexivity).
  split; [exact Ha|]. split; [exact Hb|].
  exact (X2_links_ascending listing 0 1 _ _ (le_n 1) Ha Hb).
Defined.

(** X3 ([extract_links]): an anchor target [href="/alllist/A/B/"] with [A] and
    [B] not empty, free of double quotes, and without an image extension is
    returned, wherever it stands in the markup. *)
Theorem X3_anchor_target_found (pre category item post : pystr) :
  let link := py "/alllist/" ++ category ++ py "/" ++ item ++ py "/" in
  category ≠ [] → item ≠ [] → (dquote ∉ category) → (dquote ∉ item) →
  contains (py ".jpg") link = false → contains (py ".png") link = false →
  contains (py ".gif") link = false →
  link ∈ extract_links (pre ++ py "href=" ++ dquote :: link ++ dquote :: post).
Proof. apply extract_links_complete. Qed.

Lemma X3_witness :
  py "/alllist/" ++ py "kanto" ++ py "/" ++ py "b" ++ py "/"
  ∈ extract_links
      (py "<a " ++ py "href=" ++ dquote
         :: (py "/alllist/" ++ py "kanto" ++ py "/" ++ py "b" ++ py "/")
         ++ dquote :: py ">B</a>").
Proof.
  apply (X3_anchor_target_found (py "<a ") (py "kanto") (py "b") (py ">B</a>")).
  - discriminate.
  - discriminate.
  - not_in_literal.
  - not_in_literal.
  - vm_compute. reflexivity.
  - vm_compute. reflexivity.
  - vm_compute. reflexivity.
Defined.

(** ** The region of a link *)

(** X4 ([extract_region]): when the decoded link has at least two slashes, the
    region is the text between the second slash and the third (or the end of
    the link). *)
Theorem X4_region_is_third_part
    (env : Env) (link a b region rest : pystr) :
  unquote env link = a ++ py "/" ++ b ++ py "/" ++ region ++ rest →
  (ch "/" ∉ a) → (ch "/" ∉ b) → (ch "/" ∉ region) →
  (rest = [] ∨ ∃ rest', rest = ch "/" :: rest') →
  extract_region env link = region.
Proof. apply extract_region_third. Qed.

Lemma X4_witness :
  extract_region env_ok (py "/alllist/kanto/a/") = py "kanto".
Proof.
  apply (X4_region_is_third_part env_ok (py "/alllist/kanto/a/")
           [] (py "alllist") (py "kanto") (py "/a/")).
  - reflexivity.
  - apply not_elem_of_nil.
  - vm_compute. intros H. apply list_elem_of_In in H. simpl in H.
    repeat (destruct H as [H|H]; [discriminate H|]). exact H.
  - vm_compute. intros H. apply list_elem_of_In in H. simpl in H.
    repeat (destruct H as [H|H]; [discriminate H|]). exact H.
  - right. exists (py "a/"). reflexivity.
Defined.

(** X5 ([extract_region]): a decoded link with fewer than two slashes has the
    empty region. *)
Theorem X5_region_empty_without_two_slashes (env : Env) (link : pystr) :
  length (filter (λ c, c = ch "/") (unquote env link : list N)) < 2 →
  extract_region env link = [].
Proof. apply extract_region_short. Qed.

Lemma X5_witness : extract_region env_ok (py "alllist/") = [].
Proof.
  apply (X5_region_empty_without_two_slashes env_ok (py "alllist/")).
  vm_compute. apply le_n.
Defined.

(** ** The geocoder *)

(** X6 ([geocode_shrine]): the answer of the service gives the coordinates
    [(x, y)] exactly when it is a JSON array whose first element is an object
    with the keys [lat] and [lon], and [float] turns their values into [x]
    and [y]. *)
Theorem X6_geocode_coordinates_iff (env : Env) (out : pystr) (x y : pyfloat) :
  geocode_result env out = inr (Some (x, y)) ↔
  ∃ d rest lat lon,
    json_loads env out = inr (VList (VDict d :: rest)) ∧
    dict_get d (py "lat") = Some lat ∧ dict_get d (py "lon") = Some lon ∧
    py_float env lat = inr x ∧ py_float env lon = inr y.
Proof. apply geocode_result_Some. Qed.

(** X7 ([geocode_shrine]): the answer of the service gives [(None, None)]
    exactly when [json.loads] raises one of the three exceptions of the
    [except] clause, or the value is falsy, or it is a JSON object, or it is
    an array whose first element is an object that lacks [lat], or has a
    [lat] that [float] accepts and lacks [lon]. *)
Theorem X7_geocode_not_found_iff (env : Env) (out : pystr) :
  geocode_result env out = inr None ↔
  (∃ e, json_loads env out = inl e ∧
        (e = JSONDecodeError ∨ e = KeyError ∨ e = IndexError))
  ∨ ∃ data, json_loads env out = inr data ∧
      (truthy data = false ∨ (∃ d, data = VDict d)
       ∨ ∃ d rest, data = VList (VDict d :: rest) ∧
           (dict_get d (py "lat") = None
            ∨ ∃ lat x, dict_get d (py "lat") = Some lat ∧
                       py_float env lat = inr x ∧
                       dict_get d (py "lon") = None)).
Proof.
  rewrite geocode_result_None. split.
  - intros [(e & He & Hc)|H]; [left|by right]. exists e. split; [done|].
    destruct e; try done; auto.
  - intros [(e & He & Hc)|H]; [left|by right]. exists e. split; [done|].
    by destruct Hc as [->|[->| ->]].
Qed.

(** X8 ([geocode_shrine]): an exception that leaves the function comes from
    the [curl] call itself, or it is none of [JSONDecodeError], [KeyError],
    [IndexError] and is a [TypeError], [ValueError] or [OverflowError] of the
    body or an exception of [json.loads]; the name is not empty then. *)
Theorem X8_geocode_escaping_exceptions
    (env : Env) (name : pystr) (st : St) (e : exn) :
  fst (geocode_shrine env name st) = inl e →
  name ≠ [] ∧
  (subprocess_run env (now st) (geocode_argv (geocode_url env name)) = inl e
   ∨ ∃ cp,
       subprocess_run env (now st) (geocode_argv (geocode_url env name))
         = inr cp ∧
       e ≠ JSONDecodeError ∧ e ≠ KeyError ∧ e ≠ IndexError ∧
       (e = TypeError ∨ e = ValueError ∨ e = OverflowError
        ∨ json_loads env (stdout cp) = inl e)).
Proof.
  rewrite geocode_shrine_fst. unfold geocode_outcome.
  destruct (Nat.eqb_spec (length name) 0) as [|Hlen]; [done|].
  intros H. split; [by intros ->|].
  destruct (subprocess_run env (now st) _) as [e'|cp]; [left; congruence|].
  right. exists cp. split; [done|].
  pose proof (geocode_result_uncaught _ _ _ H) as Hc.
  split; [by intros ->|]. split; [by intros ->|]. split; [by intros ->|].
  apply geocode_result_raises in H. tauto.
Qed.

Lemma X8_witness :
  fst (geocode_shrine env_null_answer (py "A") initial) = inl TypeError ∧
  py "A" ≠ [].
Proof.
  assert (fst (geocode_shrine env_null_answer (py "A") initial) = inl TypeError)
    as H by (vm_compute; reflexivity).
  split; [exact H|].
  exact (proj1 (X8_geocode_escaping_exceptions env_null_answer (py "A") initial
                  TypeError H)).
Defined.

(** X9 ([geocode_shrine]): a call makes one request, at the time of the call,
    when the name is not empty and none when it is empty; the clock moves by
    the duration of that request, and the list of records and the next id
    stay as they are. *)
Theorem X9_geocode_requests (env : Env) (name : pystr) (st : St) :
  let st' := snd (geocode_shrine env name st) in
  geo_calls st' = geo_calls st ++ (if Nat.eqb (length name) 0 then [] else [now st])
  ∧ now st'
    = (if Nat.eqb (length name) 0 then now st
       else (now st
             + elapsed env (now st) (geocode_argv (geocode_url env name)))%N)
  ∧ shrines st' = shrines st ∧ shrine_id st' = shrine_id st.
Proof.
  cbv zeta. split; [apply geocode_shrine_calls|].
  split; [apply geocode_shrine_now|]. apply geocode_shrine_shrines.
Qed.

(** ** The field extractor *)

(** X10 ([extract_shrine_info]): for the fields reading, province, deity,
    virtue and tel, when the markup holds the label cell for the first time
    at some place, followed by whitespace, a [<td ...>] tag and a value
    without [<] up to the next [<] or the end, the field is that value
    stripped. *)
Theorem X10_labelled_cell_value
    (key label : string) (pre ws attrs value rest : pystr) :
  (key, label) ∈ cell_labels →
  contains (label_cell label) pre = false →
  Forall (λ c, isspace c = true) ws → (ch ">" ∉ attrs) →
  value ≠ [] → (ch "<" ∉ value) →
  (rest = [] ∨ ∃ rest', rest = ch "<" :: rest') →
  extract_shrine_info
    (pre ++ label_cell label ++ ws ++ py "<td" ++ attrs ++ py ">" ++ value
       ++ rest) !! key
  = Some (strip value).
Proof.
  intros Hkey Hpre Hws Hattrs Hne Hno Hrest.
  destruct (cell_labels_field key label
              (pre ++ label_cell label ++ ws ++ py "<td" ++ attrs ++ py ">"
                 ++ value ++ rest) Hkey) as [-> Hfree].
  by apply search_cell.
Qed.

Lemma X10_witness :
  extract_shrine_info
    (py "<tr>" ++ label_cell "祭神" ++ [10%N] ++ py "<td" ++ py " class='v'"
       ++ py ">" ++ py " X " ++ py "</td></tr>") !! "deity"
  = Some (strip (py " X ")).
Proof.
  apply (X10_labelled_cell_value "deity" "祭神" (py "<tr>") [10%N]
           (py " class='v'") (py " X ") (py "</td></tr>")).
  - unfold cell_labels. apply list_elem_of_In. right. right. left. reflexivity.
  - vm_compute. reflexivity.
  - constructor; [vm_compute; reflexivity|constructor].
  - not_in_literal.
  - discriminate.
  - not_in_literal.
  - right. exists (py "/td></tr>"). reflexivity.
Defined.

(** X11 ([extract_shrine_info]): the same for the name, whose value may come
    after an anchor tag [<a ...>] inside the value cell. *)
Theorem X11_name_cell_value (pre ws attrs anchor value rest : pystr) :
  contains (label_cell "神社名") pre = false →
  Forall (λ c, isspace c = true) ws → (ch ">" ∉ attrs) →
  (anchor = []
   ∨ ∃ attrs', anchor = py "<a" ++ attrs' ++ py ">" ∧ (ch ">" ∉ attrs')) →
  value ≠ [] → (ch "<" ∉ value) →
  (rest = [] ∨ ∃ rest', rest = ch "<" :: rest') →
  extract_shrine_info
    (pre ++ label_cell "神社名" ++ ws ++ py "<td" ++ attrs ++ py ">" ++ anchor
       ++ value ++ rest) !! "name"
  = Some (strip value).
Proof.
  intros. rewrite extract_other by done. rewrite labelled_name.
  by apply search_name.
Qed.

Lemma X11_witness :
  extract_shrine_info
    (py "<tr>" ++ label_cell "神社名" ++ [] ++ py "<td" ++ [] ++ py ">"
       ++ (py "<a" ++ py " href='/x/'" ++ py ">") ++ py "A" ++ py "</a></td>")
    !! "name"
  = Some (strip (py "A")).
Proof.
  apply (X11_name_cell_value (py "<tr>") [] [] _ (py "A") (py "</a></td>")).
  - vm_compute. reflexivity.
  - constructor.
  - apply not_elem_of_nil.
  - right. exists (py " href='/x/'"). split; [reflexivity|not_in_literal].
  - discriminate.
  - not_in_literal.
  - right. exists (py "/a></td>"). reflexivity.
Defined.

(** X12 ([extract_shrine_info]): when the first label cell of the address is
    followed by whitespace, a [<td ...>] tag and a text without [</td>] up to
    a [</td>], the address is that text cleaned; a text without tags and
    postal mark that is already trimmed and single-spaced is returned as it
    is. *)
Theorem X12_address_cell (pre ws attrs cell rest : pystr) :
  contains (label_cell "所在地") pre = false →
  Forall (λ c, isspace c = true) ws → (ch ">" ∉ attrs) →
  contains cell_end cell = false →
  let info :=
    extract_shrine_info
      (pre ++ label_cell "所在地" ++ ws ++ py "<td" ++ attrs ++ py ">" ++ cell
         ++ cell_end ++ rest) in
  info !! "address" = Some (clean_address cell) ∧
  (contains (py "<") cell = false → contains (py "〒") cell = false →
   single_spaced cell = true → trimmed cell = true →
   info !! "address" = Some cell).
Proof.
  intros Hpre Hws Hattrs Hcell info.
  assert (info !! "address" = Some (clean_address cell)) as H.
  { subst info. rewrite extract_other by done. rewrite labelled_address.
    by rewrite search_address. }
  split; [done|]. intros. rewrite H. f_equal. by apply clean_address_plain.
Qed.

Lemma X12_witness :
  extract_shrine_info
    (py "<tr>" ++ label_cell "所在地" ++ [] ++ py "<td" ++ [] ++ py ">"
       ++ py "東京都 千代田区" ++ cell_end ++ py "</tr>") !! "address"
  = Some (clean_address (py "東京都 千代田区")).
Proof.
  assert (contains (label_cell "所在地") (py "<tr>") = false) as H1
    by (vm_compute; reflexivity).
  assert (contains cell_end (py "東京都 千代田区") = false) as H2
    by (vm_compute; reflexivity).
  exact (proj1 (X12_address_cell (py "<tr>") [] [] (py "東京都 千代田区")
                  (py "</tr>") H1 (List.Forall_nil _) (not_elem_of_nil _) H2)).
Defined.

(** X13 ([extract_shrine_info]): a field whose label cell [<td>LABEL</td>]
    does not occur in the markup is absent from the result. *)
Theorem X13_field_absent_without_label_cell
    (key label : string) (html : pystr) :
  (key, label) ∈ field_labels →
  contains (label_cell label) html = false →
  extract_shrine_info html !! key = None.
Proof.
  unfold field_labels. rewrite !elem_of_cons.
  intros [H|[H|H]] Hno.
  - injection H as -> ->. rewrite extract_other by done.
    rewrite labelled_name. by apply name_absent.
  - injection H as -> ->. rewrite extract_other by done.
    rewrite labelled_address. by rewrite address_absent.
  - destruct (cell_labels_field key label html H) as [-> _].
    by apply stripped_cell_absent.
Qed.

Lemma X13_witness :
  extract_shrine_info page_unnamed !! "name" = None.
Proof.
  apply (X13_field_absent_without_label_cell "name" "神社名" page_unnamed).
  - apply list_elem_of_In. left. reflexivity.
  - vm_compute. reflexivity.
Defined.

(** X14 ([extract_shrine_info]): the values of name, reading, province, deity,
    virtue and tel hold no [<]; each is the [strip()] of a non-empty text
    without [<]. *)
Theorem X14_values_hold_no_tag (html : pystr) (key : string) (v : pystr) :
  key ∈ ["name"; "reading"; "province"; "deity"; "virtue"; "tel"] →
  extract_shrine_info html !! key = Some v →
  (ch "<" ∉ v) ∧ ∃ w, v = strip w ∧ w ≠ [] ∧ (ch "<" ∉ w).
Proof.
  rewrite !elem_of_cons, elem_of_nil. intros Hkey Hv.
  assert (∃ w, v = strip w ∧ w ≠ [] ∧ (ch "<" ∉ w)) as (w & -> & Hne & Hw).
  { destruct Hkey as [->|[->|[->|[->|[->|[->|[]]]]]]];
      rewrite extract_other in Hv by done.
    - rewrite labelled_name in Hv.
      eapply stripped_cell_value; [apply match_at_name_value|done].
    - rewrite labelled_reading in Hv.
      eapply stripped_cell_value; [apply match_at_cell_value|done].
    - rewrite labelled_province in Hv.
      eapply stripped_cell_value; [apply match_at_cell_value|done].
    - rewrite labelled_deity in Hv.
      eapply stripped_cell_value; [apply match_at_cell_value|done].
    - rewrite labelled_virtue in Hv.
      eapply stripped_cell_value; [apply match_at_cell_value|done].
    - rewrite labelled_tel in Hv.
      eapply stripped_cell_value; [apply match_at_cell_value|done]. }
  split; [|by exists w]. intros Hin. by apply Hw, elem_of_strip.
Qed.

Lemma X14_witness :
  "name" ∈ ["name"; "reading"; "province"; "deity"; "virtue"; "tel"] ∧
  extract_shrine_info page_a !! "name" = Some (py "A") ∧
  (ch "<" ∉ py "A").
Proof.
  assert ("name" ∈ ["name"; "reading"; "province"; "deity"; "virtue"; "tel"])
    as Hk by (apply list_elem_of_In; left; reflexivity).
  assert (extract_shrine_info page_a !! "name" = Some (py "A")) as Hv
    by (vm_compute; reflexivity).
  split; [exact Hk|]. split; [exact Hv|].
  exact (proj1 (X14_values_hold_no_tag page_a "name" (py "A") Hk Hv)).
Defined.

(** ** The main loop *)

(** X15 ([main]): a turn of the loop whose page was fetched adds a record
    exactly when the page has a name and the geocoder call returns; it adds
    at most that one record, and no exception leaves the turn. *)
Theorem X15_page_adds_record_iff
    (env : Env) (link : pystr) (st : St) (cp : CompletedProcess) :
  subprocess_run env (now st) (fetch_argv (BASE_URL ++ link)) = inr cp →
  let info := extract_shrine_info (stdout cp) in
  let st' := snd (try_except (visit env link) st) in
  ((∃ r, shrines st' = shrines st ++ [r])
   ↔ has_name info = true ∧
     ∃ latlng,
       geocode_outcome env (fetched_at env st link) (get_or_empty info "name")
       = inr latlng)
  ∧ (shrines st' = shrines st ∨ ∃ r, shrines st' = shrines st ++ [r])
  ∧ fst (try_except (visit env link) st) = inr tt.
Proof.
  intros Hf info st'. split; [by apply visit_appends_iff|].
  split; [|apply try_except_ok]. subst st'.
  destruct (visit_visited env link st) as [? ? Hs|? ? ? Hs|? ? ? ? ? Hs|? ? ? ? ? Hs];
    rewrite Hs; [by left|by left|by left|right; by eexists].
Qed.

Lemma X15_witness :
  subprocess_run env_ok (now initial)
    (fetch_argv (BASE_URL ++ py "/alllist/kanto/a/")) = inr (Completed 0 page_a)
  ∧ fst (try_except (visit env_ok (py "/alllist/kanto/a/")) initial) = inr tt.
Proof.
  assert (subprocess_run env_ok (now initial)
            (fetch_argv (BASE_URL ++ py "/alllist/kanto/a/"))
          = inr (Completed 0 page_a)) as H by (vm_compute; reflexivity).
  split; [exact H|].
  exact (proj2 (proj2 (X15_page_adds_record_iff env_ok _ initial _ H))).
Defined.

(** X16 ([main]): in a run that ends, there are at most as many records as
    geocoding requests, and at most as many requests as links. *)
Theorem X16_records_requests_links
    (env : Env) (result : list (gmap string pyval)) :
  fst (run_main env) = inr result →
  ∃ cp, subprocess_run env 0 (fetch_argv root_url) = inr cp ∧
        length result ≤ length (geo_calls (snd (run_main env))) ∧
        length (geo_calls (snd (run_main env)))
          ≤ length (extract_links (stdout cp)).
Proof. apply run_main_counts. Qed.

Lemma X16_witness :
  fst (run_main env_ok) = inr [record_a] ∧
  ∃ cp, subprocess_run env_ok 0 (fetch_argv root_url) = inr cp ∧
        length [record_a] ≤ length (geo_calls (snd (run_main env_ok))) ∧
        length (geo_calls (snd (run_main env_ok)))
          ≤ length (extract_links (stdout cp)).
Proof.
  assert (fst (run_main env_ok) = inr [record_a]) as H
    by (vm_compute; reflexivity).
  split; [exact H|]. exact (X16_records_requests_links env_ok [record_a] H).
Defined.

(** X17 ([main]): the records follow the order of the sorted links: they
    were made, one by one, from the pages of distinct links taken in that
    order; each carries the region of its link and a name that is not
    empty. *)
Theorem X17_records_follow_links
    (env : Env) (result : list (gmap string pyval)) :
  fst (run_main env) = inr result →
  ∃ cp from,
    subprocess_run env 0 (fetch_argv root_url) = inr cp ∧
    sublist from (extract_links (stdout cp)) ∧ NoDup from ∧
    Forall2 (made_from env) result from ∧
    Forall2 (λ r link,
               r !! "region" = Some (VStr (extract_region env link)) ∧
               ∃ name, r !! "name" = Some (VStr name) ∧ name ≠ [])
            result from.
Proof.
  intros (cp & from & Hf & Hsub & Hnd & HF)%run_main_order.
  exists cp, from. split; [done|]. split; [done|]. split; [done|].
  split; [done|]. eapply Forall2_impl; [exact HF|].
  intros r link. apply made_from_fields.
Qed.

Lemma X17_witness :
  fst (run_main env_ok) = inr [record_a] ∧
  ∃ cp from,
    subprocess_run env_ok 0 (fetch_argv root_url) = inr cp ∧
    sublist from (extract_links (stdout cp)) ∧ NoDup from ∧
    Forall2 (made_from env_ok) [record_a] from ∧
    Forall2 (λ r link,
               r !! "region" = Some (VStr (extract_region env_ok link)) ∧
               ∃ name, r !! "name" = Some (VStr name) ∧ name ≠ [])
            [record_a] from.
Proof.
  assert (fst (run_main env_ok) = inr [record_a]) as H
    by (vm_compute; reflexivity).
  split; [exact H|]. exact (X17_records_follow_links env_ok [record_a] H).
Defined.

(** X18 ([main]): when every call of [geocode_shrine] that the run makes
    returns, consecutive requests to the geocoding service start at least
    1000 ms apart, so that [n] requests span at least [(n - 1) * 1000]
    ms. *)
Theorem X18_requests_paced (env : Env) :
  run_calls_return env = true →
  let calls := geo_calls (snd (run_main env)) in
  spaced 1000 calls ∧
  ∀ a b, head calls = Some a → last calls = Some b →
         (a + N.of_nat (length calls - 1) * 1000 ≤ b)%N.
Proof.
  intros Hret calls. pose proof (run_main_paced_when env Hret) as Hsp.
  split; [done|]. intros a b. by apply spaced_span.
Qed.

(** X18 at a run with two requests, in an environment whose geocoder would
    raise for a name that the run does not ask for. *)
Lemma X18_witness :
  run_calls_return env_two_found = true ∧
  geocode_outcome env_two_found 0 (py "Z") = inl TypeError ∧
  geo_calls (snd (run_main env_two_found)) = [100; 1700]%N ∧
  spaced 1000 (geo_calls (snd (run_main env_two_found))).
Proof.
  assert (run_calls_return env_two_found = true) as H
    by (vm_compute; reflexivity).
  split; [exact H|]. split; [vm_compute; reflexivity|].
  split; [vm_compute; reflexivity|].
  exact (proj1 (X18_requests_paced env_two_found H)).
Defined.

(** ** The text scan of [info-grip.py] *)

(** X19 ([scrape_shrines_v4]): every line kept from the text is not empty,
    has no whitespace at its ends (it is its own [strip()]) and holds no line
    feed. *)
Theorem X19_lines_trimmed (text line : pystr) :
  line ∈ lines_of text →
  line ≠ [] ∧ trimmed line = true ∧ strip line = line ∧ (10%N ∉ line).
Proof.
  intros (Hne & Ht & Hnl)%lines_of_line. split; [done|]. split; [done|].
  split; [by apply strip_of_trimmed|done].
Qed.

Lemma X19_witness :
  py "A" ∈ lines_of text_previous ∧ strip (py "A") = py "A".
Proof.
  assert (py "A" ∈ lines_of text_previous) as H.
  { vm_compute. apply list_elem_of_In. left. reflexivity. }
  split; [exact H|].
  exact (proj1 (proj2 (proj2 (X19_lines_trimmed text_previous (py "A") H)))).
Defined.

(** X20 ([scrape_shrines_v4]): the name of every saved row is not empty,
    shorter than 30 characters, trimmed, free of [tt] and of line feeds, and
    is made of characters of one kept line, in their order. *)
Theorem X20_saved_names (text : pystr) (rows : list row) (name address : pystr) :
  scrape_shrines_v4 text = Some rows → (name, address) ∈ rows →
  name ≠ [] ∧ length name < 30 ∧ trimmed name = true ∧
  contains (py "tt") name = false ∧ (10%N ∉ name) ∧
  ∃ line, line ∈ lines_of text ∧ sublist name line.
Proof.
  intros Hs Hr.
  destruct (row_line text rows name address Hs Hr) as (i & line & Hl & Hin & Hscan).
  apply scan_line_Some in Hscan
    as (_ & (pre & mid & post & Hline & _ & _ & _ & _ & _ & Hname)
        & Hne & _ & Hlen & Htrim & Htt).
  assert (∃ l, l ∈ lines_of text ∧ sublist name l) as (l & Hl' & Hsub).
  { destruct Hname as [Hsub|(prev & _ & Hprev & Hsub)].
    - exists line. split; [done|]. rewrite Hline. etrans; [exact Hsub|].
      by apply sublist_inserts_r.
    - exists prev. split; [|done]. by eapply list_elem_of_lookup_2. }
  split; [done|]. split; [done|]. split; [done|]. split; [done|].
  split; [|by exists l].
  eapply not_elem_of_sublist; [exact Hsub|].
  by apply lines_of_line in Hl' as (_ & _ & ?).
Qed.

Lemma X20_witness :
  scrape_shrines_v4 text_named = Some [(py "A", py "B")] ∧
  (py "A", py "B") ∈ [(py "A", py "B")] ∧
  length (py "A") < 30.
Proof.
  assert (scrape_shrines_v4 text_named = Some [(py "A", py "B")]) as Hs
    by (vm_compute; reflexivity).
  assert ((py "A", py "B") ∈ [(py "A", py "B")]) as Hr
    by (apply list_elem_of_In; left; reflexivity).
  split; [exact Hs|]. split; [exact Hr|].
  exact (proj1 (proj2 (X20_saved_names text_named _ _ _ Hs Hr))).
Defined.

(** X21 ([scrape_shrines_v4]): the address of every saved row is not empty,
    trimmed and free of both labels and of line feeds; it is the stripped
    text between the first address label of a kept line and the next label
    (or the end of the line). *)
Theorem X21_saved_addresses
    (text : pystr) (rows : list row) (name address : pystr) :
  scrape_shrines_v4 text = Some rows → (name, address) ∈ rows →
  address ≠ [] ∧ trimmed address = true ∧
  contains address_label address = false ∧
  contains station_label address = false ∧ (10%N ∉ address) ∧
  ∃ pre mid post,
    pre ++ address_label ++ mid ++ post ∈ lines_of text ∧
    address = strip mid ∧
    contains address_label pre = false ∧
    contains address_label mid = false ∧ contains station_label mid = false ∧
    (post = [] ∨ starts_with address_label post = true
     ∨ starts_with station_label post = true).
Proof.
  intros Hs Hr.
  destruct (row_line text rows name address Hs Hr) as (i & line & Hl & Hin & Hscan).
  apply scan_line_Some in Hscan
    as (_ & (pre & mid & post & Hline & -> & Hpre & Hmid & Hmid' & Hpost & _)
        & _ & Hne & _).
  split; [done|]. split; [apply strip_trimmed|].
  split; [by apply contains_strip_false|].
  split; [by apply contains_strip_false|]. split.
  - intros Hc%elem_of_strip. apply lines_of_line in Hin as (_ & _ & Hnl).
    apply Hnl. rewrite Hline, !elem_of_app. auto.
  - exists pre, mid, post. by rewrite <- Hline.
Qed.

Lemma X21_witness :
  scrape_shrines_v4 text_named = Some [(py "A", py "B")] ∧
  (py "A", py "B") ∈ [(py "A", py "B")] ∧
  py "B" ≠ [].
Proof.
  assert (scrape_shrines_v4 text_named = Some [(py "A", py "B")]) as Hs
    by (vm_compute; reflexivity).
  assert ((py "A", py "B") ∈ [(py "A", py "B")]) as Hr
    by (apply list_elem_of_In; left; reflexivity).
  split; [exact Hs|]. split; [exact Hr|].
  exact (proj1 (X21_saved_addresses text_named _ _ _ Hs Hr)).
Defined.

(** X22 ([scrape_shrines_v4]): a kept line that holds, before its first
    address label, a name that the cleaning steps leave alone, and after it
    an address, gives the saved row of that name and that address. *)
Theorem X22_named_line_saved
    (text : pystr) (i : nat) (pre mid rest : pystr) :
  lines_of text !! i = Some (pre ++ address_label ++ mid ++ rest) →
  contains address_label pre = false →
  contains address_label mid = false → contains station_label mid = false →
  (rest = [] ∨ starts_with station_label rest = true
   ∨ starts_with address_label rest = true) →
  strip pre ≠ [] → length (strip pre) < 30 →
  contains (py "tt") (strip pre) = false →
  contains (py "(") (strip pre) = false →
  (contains (py "・") (strip pre) = false ∨ 10 ≤ length (strip pre)) →
  strip mid ≠ [] →
  ∃ rows, scrape_shrines_v4 text = Some rows ∧ (strip pre, strip mid) ∈ rows.
Proof.
  intros Hl. intros. apply scrape_saves, elem_of_shrine_list.
  exists i, (pre ++ address_label ++ mid ++ rest). split; [done|].
  by apply scan_line_named.
Qed.

Lemma X22_witness :
  ∃ rows, scrape_shrines_v4 text_named = Some rows ∧
          (strip (py "A "), strip (py "B ")) ∈ rows.
Proof.
  apply (X22_named_line_saved text_named 0 (py "A ") (py "B ")
           (station_label ++ py " C")).
  - vm_compute. reflexivity.
  - vm_compute. reflexivity.
  - vm_compute. reflexivity.
  - vm_compute. reflexivity.
  - right. left. vm_compute. reflexivity.
  - vm_compute. discriminate.
  - vm_compute. apply le_S_n. repeat constructor.
  - vm_compute. reflexivity.
  - vm_compute. reflexivity.
  - left. vm_compute. reflexivity.
  - vm_compute. discriminate.
Defined.

(** X23 ([scrape_shrines_v4]): a kept line, not the first, with nothing (or
    only [tt]) before its address label and an address after it that is not
    empty when stripped, takes its name from the line before it, when that
    line is shorter than 30 characters and holds neither [tt] nor [(]. *)
Theorem X23_name_from_line_before
    (text : pystr) (i : nat) (pre mid rest prev : pystr) :
  lines_of text !! i = Some (pre ++ address_label ++ mid ++ rest) →
  contains address_label pre = false →
  contains address_label mid = false → contains station_label mid = false →
  (rest = [] ∨ starts_with station_label rest = true
   ∨ starts_with address_label rest = true) →
  strip pre = [] ∨ strip pre = py "tt" →
  0 < i → lines_of text !! (i - 1) = Some prev →
  length prev < 30 →
  contains (py "tt") prev = false → contains (py "(") prev = false →
  strip mid ≠ [] →
  ∃ rows, scrape_shrines_v4 text = Some rows ∧ (prev, strip mid) ∈ rows.
Proof.
  intros Hl Hpre Hmid Hmid' Hrest Hempty Hi Hprev Hlen Htt Hparen Haddr.
  assert (prev ∈ lines_of text) as Hin by (by eapply list_elem_of_lookup_2).
  apply lines_of_line in Hin as (Hne & Htrim & _).
  apply strip_of_trimmed in Htrim.
  apply scrape_saves, elem_of_shrine_list.
  exists i, (pre ++ address_label ++ mid ++ rest). split; [done|].
  replace (prev, strip mid) with (strip prev, strip mid) by (by rewrite Htrim).
  apply scan_line_previous; auto; by rewrite Htrim.
Qed.

Lemma X23_witness :
  ∃ rows, scrape_shrines_v4 text_previous = Some rows ∧
          (py "A", strip (py "B")) ∈ rows.
Proof.
  apply (X23_name_from_line_before text_previous 1 [] (py "B") [] (py "A")).
  - vm_compute. reflexivity.
  - vm_compute. reflexivity.
  - vm_compute. reflexivity.
  - vm_compute. reflexivity.
  - left. reflexivity.
  - left. reflexivity.
  - apply le_n.
  - vm_compute. reflexivity.
  - vm_compute. apply le_S_n. repeat constructor.
  - vm_compute. reflexivity.
  - vm_compute. reflexivity.
  - vm_compute. discriminate.
Defined.

(** X24 ([scrape_shrines_v4]): nothing is saved exactly when no line gives a
    row; otherwise the saved rows are the rows of the lines, each once, in
    the order of their first occurrence. *)
Theorem X24_saved_rows_distinct (text : pystr) :
  (scrape_shrines_v4 text = None ↔
   ∀ i line, lines_of text !! i = Some line →
             scan_line (lines_of text) i line = None)
  ∧ ∀ rows, scrape_shrines_v4 text = Some rows →
      rows ≠ [] ∧ NoDup rows ∧ sublist rows (shrine_list (lines_of text)) ∧
      ∀ r, r ∈ rows ↔
           ∃ i line, lines_of text !! i = Some line ∧
                     scan_line (lines_of text) i line = Some r.
Proof.
  split.
  - unfold scrape_shrines_v4. rewrite saved_rows_None. split.
    + intros Hnil i line Hl.
      destruct (scan_line (lines_of text) i line) as [r|] eqn:Hr; [|done].
      assert (r ∈ shrine_list (lines_of text)) as Hin.
      { apply elem_of_shrine_list. by exists i, line. }
      rewrite Hnil in Hin. by apply elem_of_nil in Hin.
    + intros Hnone. destruct (shrine_list (lines_of text)) as [|r l] eqn:Hl;
        [done|].
      assert (r ∈ shrine_list (lines_of text)) as Hin.
      { rewrite Hl. apply list_elem_of_here. }
      apply elem_of_shrine_list in Hin as (i & line & Hline & Hr).
      rewrite (Hnone i line Hline) in Hr. done.
  - intros rows Hs. pose proof Hs as Hs'. unfold scrape_shrines_v4 in Hs'.
    apply saved_rows_Some in Hs' as (Hne & Hnd & Hsub & _).
    split; [done|]. split; [done|]. split; [done|].
    intros r. by apply scrape_rows.
Qed.

(** ** The coordinate lookup of [geo_conv.py] *)

(** X25 ([get_gps_coordinates]): both columns get one entry per row, an entry
    is [None] in one column exactly when it is in the other, and the number
    of geocoder calls lies between the number of rows and twice that
    number. *)
Theorem X25_one_entry_per_row
    (geocode : Geocoder) (rows : list row)
    (lats lons : list (option pyfloat)) (calls : nat) :
  get_gps_coordinates geocode rows = (lats, lons, calls) →
  length lats = length rows ∧ length lons = length rows ∧
  (∀ i, lats !! i = Some None ↔ lons !! i = Some None) ∧
  length rows ≤ calls ∧ calls ≤ 2 * length rows.
Proof.
  intros (? & ? & ? & ? & ?)%get_gps_lengths. auto.
Qed.

Lemma X25_witness :
  get_gps_coordinates (λ _, sample_geocoder) sample_rows = sample_columns ∧
  4 ≤ 2 * length sample_rows.
Proof.
  assert (get_gps_coordinates (λ _, sample_geocoder) sample_rows
          = sample_columns) as H by (vm_compute; reflexivity).
  split; [exact H|].
  exact (proj2 (proj2 (proj2 (proj2
           (X25_one_entry_per_row _ sample_rows _ _ 4 H))))).
Defined.

(** X26 ([get_gps_coordinates]): for a geocoder whose answers do not depend
    on earlier calls, a row whose query "address name" finds nothing and
    whose name alone is found gets the coordinates found for the name. *)
Theorem X26_fallback_to_name
    (g : pystr → exn + option Location) (rows : list row)
    (lats lons : list (option pyfloat)) (calls i : nat)
    (name address : pystr) (location : Location) :
  get_gps_coordinates (λ _, g) rows = (lats, lons, calls) →
  rows !! i = Some (name, address) →
  g (address ++ py " " ++ name) = inr None →
  g name = inr (Some location) →
  lats !! i = Some (Some (latitude location)) ∧
  lons !! i = Some (Some (longitude location)).
Proof.
  intros Hrun Hrow Hfirst Hsecond.
  destruct (get_gps_row g rows lats lons calls i _ Hrun Hrow) as [-> ->].
  unfold locate. cbn [fst snd]. by rewrite Hfirst, Hsecond.
Qed.

Lemma X26_witness :
  get_gps_coordinates (λ _, sample_geocoder) sample_rows = sample_columns ∧
  fst (fst sample_columns) !! 0 = Some (Some (latitude location_a)) ∧
  snd (fst sample_columns) !! 0 = Some (Some (longitude location_a)).
Proof.
  assert (get_gps_coordinates (λ _, sample_geocoder) sample_rows
          = sample_columns) as H by (vm_compute; reflexivity).
  split; [exact H|].
  apply (X26_fallback_to_name sample_geocoder sample_rows _ _ _ 0
           (py "A") (py "B") location_a H); reflexivity.
Defined.

(** X27 ([get_gps_coordinates]): a row whose query "address name" is found
    gets the coordinates of that answer. *)
Theorem X27_first_answer_kept
    (g : pystr → exn + option Location) (rows : list row)
    (lats lons : list (option pyfloat)) (calls i : nat)
    (name address : pystr) (location : Location) :
  get_gps_coordinates (λ _, g) rows = (lats, lons, calls) →
  rows !! i = Some (name, address) →
  g (address ++ py " " ++ name) = inr (Some location) →
  lats !! i = Some (Some (latitude location)) ∧
  lons !! i = Some (Some (longitude location)).
Proof.
  intros Hrun Hrow Hfirst.
  destruct (get_gps_row g rows lats lons calls i _ Hrun Hrow) as [-> ->].
  unfold locate. cbn [fst snd]. by rewrite Hfirst.
Qed.

Lemma X27_witness :
  get_gps_coordinates (λ _, sample_geocoder) sample_rows = sample_columns ∧
  fst (fst sample_columns) !! 1 = Some (Some (latitude location_a)) ∧
  snd (fst sample_columns) !! 1 = Some (Some (longitude location_a)).
Proof.
  assert (get_gps_coordinates (λ _, sample_geocoder) sample_rows
          = sample_columns) as H by (vm_compute; reflexivity).
  split; [exact H|].
  apply (X27_first_answer_kept sample_geocoder sample_rows _ _ _ 1
           (py "C") (py "D") location_a H); reflexivity.
Defined.

(** X28 ([get_gps_coordinates]): a row whose lookup raises, or finds nothing
    for both queries, gets [None] in both columns. *)
Theorem X28_failed_lookup_gives_none
    (g : pystr → exn + option Location) (rows : list row)
    (lats lons : list (option pyfloat)) (calls i : nat)
    (name address : pystr) :
  get_gps_coordinates (λ _, g) rows = (lats, lons, calls) →
  rows !! i = Some (name, address) →
  (∃ e, g (address ++ py " " ++ name) = inl e)
  ∨ (g (address ++ py " " ++ name) = inr None ∧
     ((∃ e, g name = inl e) ∨ g name = inr None)) →
  lats !! i = Some None ∧ lons !! i = Some None.
Proof.
  intros Hrun Hrow Hfail.
  destruct (get_gps_row g rows lats lons calls i _ Hrun Hrow) as [-> ->].
  unfold locate. cbn [fst snd].
  destruct Hfail as [[e ->]|[-> [[e ->]| ->]]]; done.
Qed.

Lemma X28_witness :
  get_gps_coordinates (λ _, sample_geocoder) sample_rows = sample_columns ∧
  fst (fst sample_columns) !! 2 = Some None ∧
  snd (fst sample_columns) !! 2 = Some None.
Proof.
  assert (get_gps_coordinates (λ _, sample_geocoder) sample_rows
          = sample_columns) as H by (vm_compute; reflexivity).
  split; [exact H|].
  apply (X28_failed_lookup_gives_none sample_geocoder sample_rows _ _ _ 2
           (py "E") (py "F") H); [reflexivity|].
  left. exists OSError. reflexivity.
Defined.

End Extras.
